(** * Verification of the sb3-js runtime orchestration core

    Shallow embedding of [src/src/util/any-abort-signal.ts] and of the
    second (current) [Runtime] class of [src/src/runtime.ts]. *)

From Stdlib Require Import List Bool Arith Lia String QArith Qround Lqa.
Import ListNotations.
Open Scope nat_scope.

(* ------------------------------------------------------------------ *)
(** ** any-abort-signal.ts *)

Module AnyAbort.

(** Listeners registered on an input [AbortSignal]: the combinator's own
    [onAbort] closure, or any other listener of the host. *)
Inductive Listener := OnAbort | OtherListener (n : nat).

Definition listener_eqb (a b : Listener) : bool :=
  match a, b with
  | OnAbort, OnAbort => true
  | OtherListener x, OtherListener y => Nat.eqb x y
  | _, _ => false
  end.

(** An input [AbortSignal]: its [aborted] flag and its 'abort' listeners. *)
Record Signal := mkSignal { aborted : bool; listeners : list Listener }.

(** The host heap of input signals (by identity) and the derived
    controller's signal: [d_aborted] is [controller.signal.aborted],
    [d_fired] counts the 'abort' events dispatched on it. *)
Record World := mkWorld {
  store : nat -> Signal;
  d_aborted : bool;
  d_fired : nat }.

Definition upd_store (w : World) (i : nat) (f : Signal -> Signal) : World :=
  mkWorld (fun j => if Nat.eqb j i then f (store w j) else store w j)
          (d_aborted w) (d_fired w).

(** [signal.addEventListener('abort', onAbort)]: a listener already
    registered on the same target is not added twice. *)
Definition add_onabort (i : nat) (w : World) : World :=
  upd_store w i (fun s =>
    if existsb (listener_eqb OnAbort) (listeners s) then s
    else mkSignal (aborted s) (listeners s ++ [OnAbort])).

(** [signal.removeEventListener('abort', onAbort)]. *)
Definition remove_onabort (i : nat) (w : World) : World :=
  upd_store w i (fun s =>
    mkSignal (aborted s) (filter (fun l => negb (listener_eqb OnAbort l)) (listeners s))).

(** [controller.abort()]: a second call is a no-op. *)
Definition controller_abort (w : World) : World :=
  if d_aborted w then w else mkWorld (store w) true (S (d_fired w)).

(** [signal?.removeEventListener(...)] over the captured [signals]. *)
Fixpoint cleanup (signals : list (option nat)) (w : World) : World :=
  match signals with
  | [] => w
  | None :: rest => cleanup rest w
  | Some i :: rest => cleanup rest (remove_onabort i w)
  end.

(** [function onAbort() { controller.abort(); for (...) signal?.removeEventListener('abort', onAbort); }] *)
Definition onAbort (signals : list (option nat)) (w : World) : World :=
  cleanup signals (controller_abort w).

(** The registration loop: [if (signal?.aborted) { onAbort(); break; }
    signal?.addEventListener('abort', onAbort);] *)
Fixpoint register (rest signals : list (option nat)) (w : World) : World :=
  match rest with
  | [] => w
  | None :: rest' => register rest' signals w
  | Some i :: rest' =>
      if aborted (store w i) then onAbort signals w
      else register rest' signals (add_onabort i w)
  end.

(** [anyAbortSignal(...signals)]: a fresh controller, then the loop. *)
Definition anyAbortSignal (signals : list (option nat)) (st : nat -> Signal) : World :=
  register signals signals (mkWorld st false 0).

(** An input signal [i] fires (its own controller aborts): the flag is set
    and 'abort' is dispatched; [onAbort] runs if it is registered on [i]. *)
Definition fire (signals : list (option nat)) (i : nat) (w : World) : World :=
  if aborted (store w i) then w
  else
    let w1 := upd_store w i (fun s => mkSignal true (listeners s)) in
    if existsb (listener_eqb OnAbort) (listeners (store w1 i))
    then onAbort signals w1 else w1.

(** Any sequence of input firings after the combination. *)
Definition run (signals : list (option nat)) (fs : list nat) (w : World) : World :=
  fold_left (fun w i => fire signals i w) fs w.

(** Some input signal of the list has fired. *)
Definition any_aborted (signals : list (option nat)) (w : World) : bool :=
  existsb (fun o => match o with Some i => aborted (store w i) | None => false end) signals.

Definition has_onabort (w : World) (i : nat) : bool :=
  existsb (listener_eqb OnAbort) (listeners (store w i)).

(** The combinator's invariant over the input signals [sigs]. *)
Definition combined_inv (sigs : list (option nat)) (w : World) : Prop :=
  d_aborted w = any_aborted sigs w /\
  d_fired w = (if d_aborted w then 1 else 0) /\
  (forall i, has_onabort w i = true -> In (Some i) sigs /\ d_aborted w = false) /\
  (d_aborted w = false -> forall i, In (Some i) sigs -> has_onabort w i = true).

(** The listeners of a signal other than the combinator's own. *)
Definition others (l : list Listener) : list Listener :=
  filter (fun x => negb (listener_eqb OnAbort x)) l.

(** Two heaps agree on the listeners other than the combinator's. *)
Definition keeps_others (w w' : World) : Prop :=
  forall i, others (listeners (store w' i)) = others (listeners (store w i)).

End AnyAbort.

(* ------------------------------------------------------------------ *)
(** ** Pointer coordinates: [stageCoordsFromPointerEvent] in runtime.ts *)

Module StageCoords.
Local Open Scope Q_scope.

(** JavaScript numbers as far as this computation needs them: finite values
    (taken exactly, as rationals), [NaN] and the two infinities, with the
    IEEE rules for the special values. *)
Inductive JsNum := Fin (q : Q) | NaN | PosInf | NegInf.

Definition inf_of_sign (pos : bool) : JsNum := if pos then PosInf else NegInf.

Definition js_neg (a : JsNum) : JsNum :=
  match a with Fin q => Fin (- q) | NaN => NaN | PosInf => NegInf | NegInf => PosInf end.

Definition js_add (a b : JsNum) : JsNum :=
  match a, b with
  | NaN, _ | _, NaN => NaN
  | Fin x, Fin y => Fin (x + y)
  | PosInf, NegInf | NegInf, PosInf => NaN
  | PosInf, _ | _, PosInf => PosInf
  | NegInf, _ | _, NegInf => NegInf
  end.

Definition js_sub (a b : JsNum) : JsNum := js_add a (js_neg b).

Definition js_mul (a b : JsNum) : JsNum :=
  match a, b with
  | NaN, _ | _, NaN => NaN
  | Fin x, Fin y => Fin (x * y)
  | Fin x, PosInf | PosInf, Fin x =>
      if Qeq_bool x 0 then NaN else inf_of_sign (Qle_bool 0 x)
  | Fin x, NegInf | NegInf, Fin x =>
      if Qeq_bool x 0 then NaN else inf_of_sign (negb (Qle_bool 0 x))
  | PosInf, PosInf | NegInf, NegInf => PosInf
  | _, _ => NegInf
  end.

(** Division; a zero divisor is +0 (a [DOMRect] size is never -0). *)
Definition js_div (a b : JsNum) : JsNum :=
  match a, b with
  | NaN, _ | _, NaN => NaN
  | Fin x, Fin y =>
      if Qeq_bool y 0 then (if Qeq_bool x 0 then NaN else inf_of_sign (Qle_bool 0 x))
      else Fin (x / y)
  | Fin _, _ => Fin 0
  | PosInf, Fin y => inf_of_sign (Qle_bool 0 y)
  | NegInf, Fin y => inf_of_sign (negb (Qle_bool 0 y))
  | _, _ => NaN
  end.

(** [Math.round]: the nearest integer, halves rounded up. *)
Definition js_round (a : JsNum) : JsNum :=
  match a with Fin x => Fin (inject_Z (Qfloor (x + (1 # 2)))) | other => other end.

(** [a < b] on non-NaN numbers. *)
Definition js_ltb (a b : JsNum) : bool :=
  match a, b with
  | Fin x, Fin y => negb (Qle_bool y x)
  | NegInf, Fin _ | NegInf, PosInf | Fin _, PosInf => true
  | _, _ => false
  end.

(** [Math.min] and [Math.max] of two arguments: [NaN] if either is. *)
Definition js_min (a b : JsNum) : JsNum :=
  match a, b with
  | NaN, _ | _, NaN => NaN
  | _, _ => if js_ltb b a then b else a
  end.

Definition js_max (a b : JsNum) : JsNum :=
  match a, b with
  | NaN, _ | _, NaN => NaN
  | _, _ => if js_ltb a b then b else a
  end.

(** Modelled from the spec: [Rectangle] of rectangle.ts (not in the
    sources), built by [Rectangle.fromBounds(left, right, bottom, top)]
    with [width = right - left] and [height = top - bottom]. *)
Record Rectangle := mkRectangle { left : Q; right : Q; bottom : Q; top : Q }.

Definition width (r : Rectangle) : Q := right r - left r.
Definition height (r : Rectangle) : Q := top r - bottom r.

(** [public stageBounds = Rectangle.fromBounds(-240, 240, -180, 180)] *)
Definition stageBounds : Rectangle := mkRectangle (-240) 240 (-180) 180.

(** The part of [stage.getBoundingClientRect()] the code reads. *)
Record DOMRect := mkDOMRect { r_left : Q; r_top : Q; r_width : Q; r_height : Q }.

(** [stageCoordsFromPointerEvent], for a pointer event at
    [(clientX, clientY)] and the surface rectangle [rect]. *)
Definition stageCoordsFromPointerEvent (b : Rectangle) (rect : DOMRect) (clientX clientY : Q)
  : JsNum * JsNum :=
  let x := js_mul (js_sub (Fin clientX) (Fin (r_left rect))) (js_div (Fin (width b)) (Fin (r_width rect))) in
  let y := js_mul (js_sub (Fin clientY) (Fin (r_top rect))) (js_div (Fin (height b)) (Fin (r_height rect))) in
  let x := js_max (Fin (left b)) (js_min (Fin (right b)) (js_round (js_add x (Fin (left b))))) in
  let y := js_max (Fin (bottom b)) (js_min (Fin (top b)) (js_round (js_add y (Fin (bottom b))))) in
  (x, js_neg y).

(** A number within [lo, hi] inclusive ([NaN] and infinities are not). *)
Definition in_range (lo hi : Q) (a : JsNum) : Prop :=
  match a with Fin q => lo <= q <= hi | _ => False end.

Definition js_is_nan (a : JsNum) : bool := match a with NaN => true | _ => false end.

End StageCoords.

(* ------------------------------------------------------------------ *)
(** ** The [Runtime] class of runtime.ts *)

Module RT.
Local Open Scope string_scope.
Local Open Scope list_scope.
Local Open Scope nat_scope.

(** A project, by identity, and whether it has a stage target
    ([project.stage]). *)
Record Project := mkProject { proj_id : nat; proj_has_stage : bool }.

(** The fields of a [Monitor] the runtime reads: [visible], [position]
    (present or not) and whether its block has a [colorCategory]. *)
Record MonitorRec := mkMonitor {
  mon_visible : bool; mon_position : option nat; mon_color : bool }.

Definition set_visible (b : bool) (r : MonitorRec) : MonitorRec :=
  mkMonitor b (mon_position r) (mon_color r).
Definition set_position (p : option nat) (r : MonitorRec) : MonitorRec :=
  mkMonitor (mon_visible r) p (mon_color r).

(** Event listeners the runtime installs, each with the id of the
    [AbortSignal] it was registered with:
    - ['createmonitor'] on project [p] ([handleMonitorCreated]),
    - ['updatemonitor'] on monitor [m] ([handleMonitorUpdated]),
    - ['sliderchange'] on view [v] of monitor [m]. *)
Inductive Listener :=
| CreateMonitorL (p : nat) (sig : nat)
| UpdateMonitorL (m : nat) (sig : nat)
| SliderChangeL (v : nat) (m : nat) (sig : nat).

Definition listener_signal (l : Listener) : nat :=
  match l with
  | CreateMonitorL _ c | UpdateMonitorL _ c | SliderChangeL _ _ c => c
  end.

(** Calls the runtime makes on its collaborators and the host, in order. *)
Inductive Effect :=
| StartTimer (h : nat)              (* setInterval *)
| ClearTimer (h : nat)              (* clearInterval *)
| InterpSetProject (p : option nat) (* interpreter.setProject *)
| InterpSetRenderer (r : option nat)(* interpreter.setRenderer *)
| NewRenderer (r : nat)             (* new Renderer(stage.canvas, ...) *)
| DestroyRenderer (r : nat)         (* renderer.destroy() *)
| Register (p : nat)                (* project.register() *)
| Unregister (p : nat)              (* the callback register() returned *)
| AbortCtl (c : nat)                (* controller.abort() *)
| CreateView (v : nat)              (* stage.createMonitorView() *)
| RemoveView (v : nat)              (* view.remove() *)
| UpdateView (v m : nat)            (* view.update(monitor) *)
| SetColor (v : nat)                (* view.setColor(...) *)
| PenClear                          (* penLayer.clear() *)
| StepThreads                       (* interpreter.stepThreads() *)
| Launch (m : nat)                  (* interpreter.launch([updateMonitorBlock], ...) *)
| Draw                              (* renderer.draw(project.targets) *)
| PreventDefault                    (* event.preventDefault() *)
| StartHatsKey (k : string).        (* interpreter.startHats('keypressed', ...) *)

(** The runtime's fields, the host objects it mutates, and the log of
    effects. [stage] stands for [this.stage] and [this.renderer], which
    [attachStage] sets and clears together (the renderer id is the stage
    id). [unsetPreviousStage] keeps the renderer and the controller of the
    input listeners; [unregisterPreviousProject] the project and the
    controller its closure captures. *)
Record State := mkState {
  project : option Project;
  stage : option nat;
  steppingInterval : option nat;
  timers : list nat;
  unregisterPreviousProject : option (Project * nat);
  unsetPreviousStage : option (nat * nat);
  monitorViews : list (nat * (nat * nat));
  monitors : nat -> list nat;
  mon : nat -> MonitorRec;
  listeners : list Listener;
  aborted : list nat;
  keysDown : list string;
  next_id : nat;
  log : list Effect }.

Definition with_project p s := mkState p (stage s) (steppingInterval s) (timers s) (unregisterPreviousProject s) (unsetPreviousStage s) (monitorViews s) (monitors s) (mon s) (listeners s) (aborted s) (keysDown s) (next_id s) (log s).
Definition with_stage st s := mkState (project s) st (steppingInterval s) (timers s) (unregisterPreviousProject s) (unsetPreviousStage s) (monitorViews s) (monitors s) (mon s) (listeners s) (aborted s) (keysDown s) (next_id s) (log s).
Definition with_interval i s := mkState (project s) (stage s) i (timers s) (unregisterPreviousProject s) (unsetPreviousStage s) (monitorViews s) (monitors s) (mon s) (listeners s) (aborted s) (keysDown s) (next_id s) (log s).
Definition with_timers t s := mkState (project s) (stage s) (steppingInterval s) t (unregisterPreviousProject s) (unsetPreviousStage s) (monitorViews s) (monitors s) (mon s) (listeners s) (aborted s) (keysDown s) (next_id s) (log s).
Definition with_unreg u s := mkState (project s) (stage s) (steppingInterval s) (timers s) u (unsetPreviousStage s) (monitorViews s) (monitors s) (mon s) (listeners s) (aborted s) (keysDown s) (next_id s) (log s).
Definition with_unset u s := mkState (project s) (stage s) (steppingInterval s) (timers s) (unregisterPreviousProject s) u (monitorViews s) (monitors s) (mon s) (listeners s) (aborted s) (keysDown s) (next_id s) (log s).
Definition with_views v s := mkState (project s) (stage s) (steppingInterval s) (timers s) (unregisterPreviousProject s) (unsetPreviousStage s) v (monitors s) (mon s) (listeners s) (aborted s) (keysDown s) (next_id s) (log s).
Definition with_monitors ms s := mkState (project s) (stage s) (steppingInterval s) (timers s) (unregisterPreviousProject s) (unsetPreviousStage s) (monitorViews s) ms (mon s) (listeners s) (aborted s) (keysDown s) (next_id s) (log s).
Definition with_mon mn s := mkState (project s) (stage s) (steppingInterval s) (timers s) (unregisterPreviousProject s) (unsetPreviousStage s) (monitorViews s) (monitors s) mn (listeners s) (aborted s) (keysDown s) (next_id s) (log s).
Definition with_listeners ls s := mkState (project s) (stage s) (steppingInterval s) (timers s) (unregisterPreviousProject s) (unsetPreviousStage s) (monitorViews s) (monitors s) (mon s) ls (aborted s) (keysDown s) (next_id s) (log s).
Definition with_aborted ab s := mkState (project s) (stage s) (steppingInterval s) (timers s) (unregisterPreviousProject s) (unsetPreviousStage s) (monitorViews s) (monitors s) (mon s) (listeners s) ab (keysDown s) (next_id s) (log s).
Definition with_keys k s := mkState (project s) (stage s) (steppingInterval s) (timers s) (unregisterPreviousProject s) (unsetPreviousStage s) (monitorViews s) (monitors s) (mon s) (listeners s) (aborted s) k (next_id s) (log s).
Definition with_next n s := mkState (project s) (stage s) (steppingInterval s) (timers s) (unregisterPreviousProject s) (unsetPreviousStage s) (monitorViews s) (monitors s) (mon s) (listeners s) (aborted s) (keysDown s) n (log s).
Definition with_log l s := mkState (project s) (stage s) (steppingInterval s) (timers s) (unregisterPreviousProject s) (unsetPreviousStage s) (monitorViews s) (monitors s) (mon s) (listeners s) (aborted s) (keysDown s) (next_id s) l.

Definition upd {A} (f : nat -> A) (k : nat) (v : A) : nat -> A :=
  fun j => if Nat.eqb j k then v else f j.

(** Append an effect to the log. *)
Definition emit (e : Effect) (s : State) : State := with_log (log s ++ [e]) s.

(** A new host object (timer, controller, view): a fresh id. *)
Definition fresh (s : State) : nat * State := (next_id s, with_next (S (next_id s)) s).

(** [Map] operations on [monitorViews] (insertion ordered). *)
Fixpoint map_get (m : nat) (l : list (nat * (nat * nat))) : option (nat * nat) :=
  match l with
  | [] => None
  | (k, v) :: rest => if Nat.eqb k m then Some v else map_get m rest
  end.

Definition map_set (m : nat) (v : nat * nat) (l : list (nat * (nat * nat))) :=
  match map_get m l with
  | Some _ => map (fun e => if Nat.eqb (fst e) m then (m, v) else e) l
  | None => l ++ [(m, v)]
  end.

Definition map_delete (m : nat) (l : list (nat * (nat * nat))) :=
  filter (fun e => negb (Nat.eqb (fst e) m)) l.

(** The entries kept for monitor [m]. *)
Definition views_of (m : nat) (l : list (nat * (nat * nat))) : list (nat * nat) :=
  map snd (filter (fun e => Nat.eqb (fst e) m) l).

(** [controller.abort()]: once only; the listeners registered with its
    signal are removed. *)
Definition abort (c : nat) (s : State) : State :=
  if existsb (Nat.eqb c) (aborted s) then s
  else emit (AbortCtl c)
         (with_listeners (filter (fun l => negb (Nat.eqb (listener_signal l) c)) (listeners s))
            (with_aborted (c :: aborted s) s)).

(** [addEventListener(..., {signal})]: nothing when [signal] is aborted.
    Each registration binds a new function, so nothing is deduplicated. *)
Definition addEventListener (l : Listener) (s : State) : State :=
  if existsb (Nat.eqb (listener_signal l)) (aborted s) then s
  else with_listeners (listeners s ++ [l]) s.

(** [stop()] *)
Definition stop (s : State) : State :=
  match steppingInterval s with
  | None => s
  | Some h =>
      with_interval None
        (with_timers (filter (fun x => negb (Nat.eqb x h)) (timers s)) (emit (ClearTimer h) s))
  end.

(** [removeMonitorView(monitor)] *)
Definition removeMonitorView (m : nat) (s : State) : State :=
  match map_get m (monitorViews s) with
  | None => s
  | Some (v, a) =>
      let s := emit (RemoveView v) s in
      let s := abort a s in
      with_views (map_delete m (monitorViews s)) s
  end.

(** [handleMonitorCreated(signal, event)] *)
Definition handleMonitorCreated (c m : nat) (s : State) : State :=
  match stage s with
  | None => s
  | Some _ => addEventListener (UpdateMonitorL m c) s
  end.

(** The closure stored in [unregisterPreviousProject] for project [P]
    and its controller [c]. *)
Definition teardown (P : Project) (c : nat) (s : State) : State :=
  let s := with_project None s in
  let s := stop s in
  let s := fold_left (fun s m => removeMonitorView m s) (monitors s (proj_id P)) s in
  let s := match stage s with Some _ => emit PenClear s | None => s end in
  let s := emit (Unregister (proj_id P)) s in
  let s := abort c s in
  emit (InterpSetProject None) s.

(** [setProject(project)] *)
Definition setProject (p : option Project) (s : State) : State :=
  let s := match unregisterPreviousProject s with
           | Some (P0, c0) => with_unreg None (teardown P0 c0 s)
           | None => s
           end in
  let s := with_project p s in
  match p with
  | None => s
  | Some P =>
      let s := emit (InterpSetProject (Some (proj_id P))) s in
      let '(c, s) := fresh s in
      let s := addEventListener (CreateMonitorL (proj_id P) c) s in
      let s := fold_left (fun s m => handleMonitorCreated c m s) (monitors s (proj_id P)) s in
      let s := emit (Register (proj_id P)) s in
      with_unreg (Some (P, c)) s
  end.

(** [attachStage(stage)]; [setupEventListeners] makes the controller of
    the input listeners. *)
Definition attachStage (st : option nat) (s : State) : State :=
  let s := match unsetPreviousStage s with
           | Some (r, a) =>
               let s := emit (InterpSetRenderer None) s in
               let s := with_stage None s in
               let s := emit (DestroyRenderer r) s in
               with_unset None (abort a s)
           | None => s
           end in
  match st with
  | None => s
  | Some n =>
      let s := emit (NewRenderer n) s in
      let s := emit (InterpSetRenderer (Some n)) s in
      let '(a, s) := fresh s in
      let s := with_stage (Some n) s in
      with_unset (Some (n, a)) s
  end.

(** A JavaScript call either returns or throws; mutations made before a
    throw stay. *)
Inductive Outcome := Normal (s : State) | Thrown (msg : string) (s : State).

Definition state_of (o : Outcome) : State :=
  match o with Normal s | Thrown _ s => s end.

(** [stepMonitors()] *)
Definition stepMonitors (s : State) : Outcome :=
  match project s with
  | None => Normal s
  | Some P =>
      if negb (proj_has_stage P) then Thrown "Project has no stage" s
      else Normal (fold_left (fun s m => if mon_visible (mon s m) then emit (Launch m) s else s)
                             (monitors s (proj_id P)) s)
  end.

(** [step()] *)
Definition step (s : State) : Outcome :=
  match project s with
  | None => Thrown "Cannot step without a project" s
  | Some _ =>
      let s := emit StepThreads s in
      match stepMonitors s with
      | Thrown e s => Thrown e s
      | Normal s => Normal (match stage s with Some _ => emit Draw s | None => s end)
      end
  end.

(** [start()] *)
Definition start (s : State) : Outcome :=
  match steppingInterval s with
  | Some _ => Normal s
  | None =>
      let '(h, s) := fresh s in
      let s := with_timers (timers s ++ [h]) (emit (StartTimer h) s) in
      let s := with_interval (Some h) s in
      step s
  end.

(** [Set.prototype.add] and [Set.prototype.delete] on [io.keysDown]. *)
Definition set_add (k : string) (l : list string) : list string :=
  if existsb (String.eqb k) l then l else l ++ [k].
Definition set_delete (k : string) (l : list string) : list string :=
  filter (fun x => negb (String.eqb x k)) l.

(** Modelled from the spec: a monitor's [visible] flag changes
    (monitor.ts is not in the sources). *)
Definition setMonitorVisible (m : nat) (b : bool) (s : State) : State :=
  with_mon (upd (mon s) m (set_visible b (mon s m))) s.

Section Collaborators.
(** [IO.domToScratchKey] (io.ts), [view.getBounds()] and [view.layout(rects)]
    (monitor.ts): collaborators outside the sources, left abstract. *)
Variable domToScratchKey : string -> option string.
Variable view_bounds : nat -> option nat.
Variable view_layout : nat -> list nat -> nat.

(** The 'keydown' listener of [setupEventListeners]. *)
Definition onKeydown (key : string) (s : State) : State :=
  match domToScratchKey key with
  | None => s
  | Some k =>
      let s := emit PreventDefault s in
      let s := with_keys (set_add k (keysDown s)) s in
      emit (StartHatsKey k) s
  end.

(** The 'keyup' listener of [setupEventListeners]. *)
Definition onKeyup (key : string) (s : State) : State :=
  match domToScratchKey key with
  | None => s
  | Some k => with_keys (set_delete k (keysDown s)) s
  end.

(** The bounds of the views of the other monitors of the project. *)
Fixpoint other_bounds (m : nat) (ms : list nat) (views : list (nat * (nat * nat))) : list nat :=
  match ms with
  | [] => []
  | o :: rest =>
      if Nat.eqb o m then other_bounds m rest views
      else match map_get o views with
           | None => other_bounds m rest views
           | Some (v, _) =>
               match view_bounds v with
               | Some b => b :: other_bounds m rest views
               | None => other_bounds m rest views
               end
           end
  end.

(** [handleMonitorUpdated(monitor)] *)
Definition handleMonitorUpdated (m : nat) (s : State) : State :=
  match project s, stage s with
  | Some P, Some _ =>
      if negb (mon_visible (mon s m)) then removeMonitorView m s
      else
        let '(v, s) :=
          match map_get m (monitorViews s) with
          | Some (v, _) => (v, s)
          | None =>
              let '(v, s) := fresh s in
              let s := emit (CreateView v) s in
              let '(a, s) := fresh s in
              let s := with_views (map_set m (v, a) (monitorViews s)) s in
              (v, addEventListener (SliderChangeL v m a) s)
          end in
        let s := emit (UpdateView v m) s in
        let s := match mon_position (mon s m) with
                 | None =>
                     let rects := other_bounds m (monitors s (proj_id P)) (monitorViews s) in
                     let s := with_mon (upd (mon s) m (set_position (Some (view_layout v rects)) (mon s m))) s in
                     emit (UpdateView v m) s
                 | Some _ => s
                 end in
        if mon_color (mon s m) then emit (SetColor v) s else s
  | _, _ => s
  end.

(** An 'updatemonitor' event on monitor [m], dispatched to the listeners
    registered on it. *)
Definition dispatchUpdateMonitor (m : nat) (s : State) : State :=
  fold_left (fun s l => match l with
                        | UpdateMonitorL m' _ => if Nat.eqb m' m then handleMonitorUpdated m s else s
                        | _ => s
                        end) (listeners s) s.

(** Modelled from the spec: the project's monitor creation (project.ts is
    not in the sources): the monitor joins [project.monitors] and a
    'createmonitor' event is dispatched on the project. *)
Definition createMonitor (p m : nat) (r : MonitorRec) (s : State) : State :=
  let s := with_mon (upd (mon s) m r) (with_monitors (upd (monitors s) p (monitors s p ++ [m])) s) in
  fold_left (fun s l => match l with
                        | CreateMonitorL p' c => if Nat.eqb p' p then handleMonitorCreated c m s else s
                        | _ => s
                        end) (listeners s) s.

(** What can happen to a runtime. Input events reach it only while a
    stage is attached (its listeners are scoped to the stage); the timer
    fires only while it is set. *)
Inductive Op :=
| OpSetProject (p : option Project)
| OpAttachStage (st : option nat)
| OpCreateMonitor (p m : nat) (r : MonitorRec)
| OpSetVisible (m : nat) (b : bool)
| OpUpdateMonitor (m : nat)
| OpStart
| OpStop
| OpTimerTick
| OpKeyDown (k : string)
| OpKeyUp (k : string).

Definition exec (o : Op) (s : State) : State :=
  match o with
  | OpSetProject p => setProject p s
  | OpAttachStage st => attachStage st s
  | OpCreateMonitor p m r => createMonitor p m r s
  | OpSetVisible m b => setMonitorVisible m b s
  | OpUpdateMonitor m => dispatchUpdateMonitor m s
  | OpStart => state_of (start s)
  | OpStop => stop s
  | OpTimerTick => match steppingInterval s with Some _ => state_of (step s) | None => s end
  | OpKeyDown k => match unsetPreviousStage s with Some _ => onKeydown k s | None => s end
  | OpKeyUp k => match unsetPreviousStage s with Some _ => onKeyup k s | None => s end
  end.

Definition run (ops : list Op) (s : State) : State := fold_left (fun s o => exec o s) ops s.

End Collaborators.

(** A new [Runtime]. *)
Definition init : State :=
  mkState None None None [] None None [] (fun _ => []) (fun _ => mkMonitor false None false)
          [] [] [] 0 [].

End RT.

(** * The invariant of the runtime's reachable states *)

Module RTInvariant.
Import RT.
Local Open Scope list_scope.
Local Open Scope nat_scope.

(** The invariant of the runtime's reachable states. *)
Definition timers_inv (s : State) : Prop :=
  timers s = match steppingInterval s with Some h => [h] | None => [] end.

Definition project_inv (s : State) : Prop :=
  match unregisterPreviousProject s with
  | None => project s = None
  | Some (P, c) => project s = Some P /\ ~ In c (aborted s) /\ c < next_id s
  end.

(** Every tracked view belongs to a monitor of the bound project. *)
Definition views_inv (s : State) : Prop :=
  forall m v a, In (m, (v, a)) (monitorViews s) ->
  exists P c, unregisterPreviousProject s = Some (P, c) /\
              In m (monitors s (proj_id P)) /\ c < a /\ a < next_id s.

Definition listeners_inv (s : State) : Prop :=
  forall l, In l (listeners s) ->
  match l with
  | CreateMonitorL p c' =>
      exists P, unregisterPreviousProject s = Some (P, c') /\ p = proj_id P
  | UpdateMonitorL m c' =>
      exists P, unregisterPreviousProject s = Some (P, c') /\ In m (monitors s (proj_id P))
  | SliderChangeL _ _ _ => True
  end.

Definition fresh_inv (s : State) : Prop :=
  (forall x, In x (aborted s) -> x < next_id s) /\
  (forall r a, unsetPreviousStage s = Some (r, a) ->
     a < next_id s /\ forall P c, unregisterPreviousProject s = Some (P, c) -> a <> c).

Definition Inv (s : State) : Prop :=
  timers_inv s /\ project_inv s /\ views_inv s /\ listeners_inv s /\ fresh_inv s.

(** The bindings a mutation keeps. *)
Definition frame (s s' : State) : Prop :=
  unregisterPreviousProject s' = unregisterPreviousProject s /\ monitors s' = monitors s /\
  project s' = project s /\ stage s' = stage s /\ steppingInterval s' = steppingInterval s /\
  timers s' = timers s /\ unsetPreviousStage s' = unsetPreviousStage s.

(** The views of the monitors [ms] removed in turn. *)
Definition remove_all (ms : list nat) (s : State) : State :=
  fold_left (fun s m => removeMonitorView m s) ms s.

(** Monitor [m] is listened to: it belongs to the bound project. *)
Definition listened (m : nat) (s : State) : Prop :=
  exists P c, unregisterPreviousProject s = Some (P, c) /\ In m (monitors s (proj_id P)).

(** The monitors that have an entry in a [monitorViews] map. *)
Definition keys (l : list (nat * (nat * nat))) : list nat := map fst l.

End RTInvariant.

(** * Concrete runtimes *)

Module Scenarios.
Import RT.
Local Open Scope string_scope.
Local Open Scope list_scope.
Local Open Scope nat_scope.

(** Collaborators: a key translation that recognises the key "a" only, views
    whose bounds are their ids, and a layout that counts the other views. *)
Definition domToScratchKey_a (key : string) : option string :=
  if String.eqb key "a" then Some "a" else None.
Definition view_bounds_id (v : nat) : option nat := Some v.
Definition view_layout_count (v : nat) (rects : list nat) : nat := List.length rects.

Definition run_ex (ops : list Op) : State :=
  run domToScratchKey_a view_bounds_id view_layout_count ops init.

Definition P1 : Project := mkProject 1 true.
Definition shown : MonitorRec := mkMonitor true None false.

(** Project 1 has monitor 5; stage 7 is attached, then project 1 is bound. *)
Definition ops_bound : list Op :=
  [OpCreateMonitor 1 5 shown; OpAttachStage (Some 7); OpSetProject (Some P1)].

(** As [ops_bound], then monitor 5 is shown in a view. *)
Definition ops_viewed : list Op := ops_bound ++ [OpUpdateMonitor 5].

(** As [ops_bound], then the stage is detached. *)
Definition ops_detached : list Op := ops_bound ++ [OpAttachStage None].

(** As [ops_viewed], then the stage is detached and monitor 5 hidden. *)
Definition ops_view_left : list Op :=
  ops_viewed ++ [OpAttachStage None; OpSetVisible 5 false].

(** Project 1 is bound before stage 7 is attached; monitor 6 comes after. *)
Definition ops_late_stage : list Op :=
  [OpCreateMonitor 1 5 shown; OpSetProject (Some P1); OpAttachStage (Some 7);
   OpCreateMonitor 1 6 shown].

(** An 'updatemonitor' listener for monitor [m]. *)
Definition listens_update (m : nat) (l : Listener) : bool :=
  match l with UpdateMonitorL m' _ => Nat.eqb m' m | _ => false end.

(** Input signals of [anyAbortSignal]: signal 1 already aborted, 0 pending. *)
Definition sigs_ex : list (option nat) := [Some 0; None; Some 1].
Definition st_ex (i : nat) : AnyAbort.Signal := AnyAbort.mkSignal (Nat.eqb i 1) [].

End Scenarios.

(* ------------------------------------------------------------------ *)
(** ** The pointer listeners of [setupEventListeners] in runtime.ts *)

Module PointerInput.
Import StageCoords.

(** The [io] fields the pointer listeners write ([io.mousePosition],
    [io.mouseDown]) and the [click()] calls made on targets, in order. *)
Record IO := mkIO { mousePosition : JsNum * JsNum; mouseDown : bool; clicks : list nat }.

(** What the listeners read of [this.project]: [project.targets] and
    [project.stage] (a target, or absent). *)
Record ProjectTargets := mkTargets { targets : list nat; proj_stage : option nat }.

(** A finite number equal to [q]. *)
Definition fin_eq (a : JsNum) (q : Q) : Prop := match a with Fin x => Qeq x q | _ => False end.

(** [Math.round], [Math.min] and [Math.max] on finite numbers, as the
    comparisons of [js_min] and [js_max] choose. *)
Definition roundQ (q : Q) : Q := inject_Z (Qfloor (Qplus q (1 # 2))).
Definition minQ (hi q : Q) : Q := if js_ltb (Fin q) (Fin hi) then q else hi.
Definition maxQ (lo m : Q) : Q := if js_ltb (Fin lo) (Fin m) then m else lo.
Definition clampQ (lo hi q : Q) : Q := maxQ lo (minQ hi q).

(** The 'pointermove' listener on [window]. *)
Definition onPointerMove (b : Rectangle) (rect : DOMRect) (clientX clientY : Q) (io : IO) : IO :=
  let '(x, y) := stageCoordsFromPointerEvent b rect clientX clientY in
  mkIO (x, y) (mouseDown io) (clicks io).

Section Pick.
(** [renderer.pick(targets, x, y)] (renderer.ts, not in the sources): the
    target under the point, or none. *)
Variable pick : list nat -> JsNum -> JsNum -> option nat.

(** The 'pointerdown' listener on the stage; [renderer] is whether
    [this.renderer] is set. *)
Definition onPointerDown (project : option ProjectTargets) (renderer : bool) (io : IO) : IO :=
  let io := mkIO (mousePosition io) true (clicks io) in
  match project with
  | None => io
  | Some p =>
      if negb renderer then io
      else
        let '(x, y) := mousePosition io in
        let clickedTarget := match pick (targets p) x y with
                             | Some t => Some t
                             | None => proj_stage p
                             end in
        match clickedTarget with
        | Some t => mkIO (mousePosition io) (mouseDown io) (clicks io ++ [t])
        | None => io
        end
  end.

End Pick.

(** The 'pointerup' listener on [window]. *)
Definition onPointerUp (io : IO) : IO := mkIO (mousePosition io) false (clicks io).

(** The pointer events the listeners of [setupEventListeners] receive:
    a move to client coordinates, a press on the stage, a release. *)
Inductive PointerEvent := PMove (cx cy : Q) | PDown | PUp.

(** An event delivered to the listener registered for it. *)
Definition dispatchPointer (pick : list nat -> JsNum -> JsNum -> option nat)
  (b : Rectangle) (rect : DOMRect) (project : option ProjectTargets) (renderer : bool)
  (io : IO) (e : PointerEvent) : IO :=
  match e with
  | PMove cx cy => onPointerMove b rect cx cy io
  | PDown => onPointerDown pick project renderer io
  | PUp => onPointerUp io
  end.

(** Presses, and presses or releases. *)
Definition is_down (e : PointerEvent) : bool := match e with PDown => true | _ => false end.
Definition is_press (e : PointerEvent) : bool := match e with PMove _ _ => false | _ => true end.

End PointerInput.

(* ------------------------------------------------------------------ *)
(** ** [Runtime.destroy] *)

Module RTExtra.
Import RT.

(** [destroy()] *)
Definition destroy (s : State) : State := setProject None s.

End RTExtra.

(* ------------------------------------------------------------------ *)
(** ** renderer/shader.ts *)

Module ShaderModel.
Local Open Scope string_scope.
Local Open Scope list_scope.

(** A newline character (the source's [\n]). *)
Definition nl : string := String (Ascii.ascii_of_nat 10) EmptyString.

Definition VERSION : string := "#version 300 es" ++ nl.
Definition PRECISION : string := "precision highp float;" ++ nl.

Inductive ShaderType := VERTEX_SHADER | FRAGMENT_SHADER.

(** The calls on the [WebGL2RenderingContext] that change its state. *)
Inductive GLCall :=
| CreateShaderC (t : ShaderType)
| ShaderSourceC (sh : nat) (src : string)
| CompileShaderC (sh : nat)
| CreateProgramC
| AttachShaderC (p sh : nat)
| LinkProgramC (p : nat).

(** The answers of the context, left abstract: [createShader] and
    [createProgram] (a handle or [null]), the status and info log queries,
    and the active attributes and uniforms of a linked program. *)
Record GL := mkGL {
  gl_createShader : ShaderType -> option nat;
  gl_compileStatus : nat -> string -> bool;
  gl_getShaderInfoLog : nat -> string;
  gl_createProgram : option nat;
  gl_linkStatus : nat -> nat -> nat -> bool;
  gl_getProgramInfoLog : nat -> string;
  gl_activeAttribs : nat -> nat;
  gl_activeAttribName : nat -> nat -> string;
  gl_getAttribLocation : nat -> string -> Z;
  gl_activeUniforms : nat -> nat;
  gl_activeUniformName : nat -> nat -> string;
  gl_getUniformLocation : nat -> string -> option nat }.

(** A computation on the context: the calls it makes, then a value or a
    thrown [Error] message. *)
Definition M (A : Type) : Type := list GLCall -> (string + A) * list GLCall.

Definition ret {A} (a : A) : M A := fun l => (inr a, l).
Definition throw {A} (msg : string) : M A := fun l => (inl msg, l).
Definition call (c : GLCall) : M unit := fun l => (inr tt, l ++ [c]).
Definition bind {A B} (m : M A) (f : A -> M B) : M B :=
  fun l => match m l with
           | (inl e, l') => (inl e, l')
           | (inr a, l') => f a l'
           end.

Notation "x <- m ;; k" := (bind m (fun x => k)) (at level 61, m at next level, right associativity).
Notation "m ;;; k" := (bind m (fun _ => k)) (at level 61, right associativity).

(** A JavaScript object used as a record of names: [obj[name] = v]
    overwrites an existing key in place, or appends a new one. *)
Definition obj_set {V} (k : string) (v : V) (o : list (string * V)) : list (string * V) :=
  if existsb (fun e => String.eqb (fst e) k) o
  then map (fun e => if String.eqb (fst e) k then (k, v) else e) o
  else o ++ [(k, v)].

Fixpoint obj_get {V} (k : string) (o : list (string * V)) : option V :=
  match o with
  | [] => None
  | (k', v) :: rest => if String.eqb k' k then Some v else obj_get k rest
  end.

(** A constructed [Shader]. *)
Record Shader := mkShader {
  program : nat;
  attribLocations : list (string * Z);
  uniformLocations : list (string * option nat) }.

Section WithGL.
Variable gl : GL.

(** [createShader(gl, source, type)] *)
Definition createShader (source : string) (type : ShaderType) : M nat :=
  call (CreateShaderC type) ;;;
  match gl_createShader gl type with
  | None => throw "Could not create WebGL shader"
  | Some shader =>
      call (ShaderSourceC shader source) ;;;
      call (CompileShaderC shader) ;;;
      if gl_compileStatus gl shader source then ret shader
      else throw ("Could not compile WebGL program. " ++ nl ++ gl_getShaderInfoLog gl shader)
  end.

(** The loop [for (let i = 0; i < numAttribs; i++) attribLocations[name] = ...]. *)
Definition attribLoop (p : nat) : list (string * Z) :=
  fold_left (fun o i => let name := gl_activeAttribName gl p i in
                        obj_set name (gl_getAttribLocation gl p name) o)
            (seq 0 (gl_activeAttribs gl p)) [].

Definition uniformLoop (p : nat) : list (string * option nat) :=
  fold_left (fun o i => let name := gl_activeUniformName gl p i in
                        obj_set name (gl_getUniformLocation gl p name) o)
            (seq 0 (gl_activeUniforms gl p)) [].

(** [new Shader(gl, vertSource, fragSource)] *)
Definition newShader (vertSource fragSource : string) : M Shader :=
  vertShader <- createShader (VERSION ++ PRECISION ++ vertSource) VERTEX_SHADER ;;
  fragShader <- createShader (VERSION ++ PRECISION ++ fragSource) FRAGMENT_SHADER ;;
  call CreateProgramC ;;;
  match gl_createProgram gl with
  | None => throw "Could not create WebGL program"
  | Some program =>
      call (AttachShaderC program vertShader) ;;;
      call (AttachShaderC program fragShader) ;;;
      call (LinkProgramC program) ;;;
      if negb (gl_linkStatus gl program vertShader fragShader)
      then throw ("Could not compile WebGL program. " ++ nl ++ gl_getProgramInfoLog gl program)
      else ret (mkShader program (attribLoop program) (uniformLoop program))
  end.

End WithGL.

End ShaderModel.

(** Two contexts for [new Shader]: one where every step succeeds, with two
    active attributes and one active uniform, and one whose vertex shader
    does not compile. *)
Module ShaderScenarios.
Import ShaderModel.
Local Open Scope string_scope.

Definition gl_ok : GL :=
  mkGL (fun t => match t with VERTEX_SHADER => Some 1 | FRAGMENT_SHADER => Some 2 end)
       (fun _ _ => true) (fun _ => EmptyString) (Some 3) (fun _ _ _ => true) (fun _ => EmptyString)
       (fun _ => 2) (fun _ i => if Nat.eqb i 0 then "a_position" else "a_texCoord")
       (fun _ name => if String.eqb name "a_position" then 0%Z else 1%Z)
       (fun _ => 1) (fun _ _ => "u_color") (fun _ _ => Some 4).

Definition gl_bad_vertex : GL :=
  mkGL (fun t => match t with VERTEX_SHADER => Some 1 | FRAGMENT_SHADER => Some 2 end)
       (fun sh _ => negb (Nat.eqb sh 1)) (fun _ => "ERROR: 0:1: syntax error") (Some 3)
       (fun _ _ _ => true) (fun _ => EmptyString)
       (fun _ => 0) (fun _ _ => EmptyString) (fun _ _ => 0%Z)
       (fun _ => 0) (fun _ _ => EmptyString) (fun _ _ => None).

Definition vert_src : string := "void main() { gl_Position = vec4(0.0); }".
Definition frag_src : string := "out vec4 color; void main() { color = vec4(1.0); }".

End ShaderScenarios.

Module AnyAbortProofs.
Import AnyAbort.

Lemma store_upd w i f j :
  store (upd_store w i f) j = if Nat.eqb j i then f (store w j) else store w j.
Proof. reflexivity. Qed.

Lemma has_onabort_spec w i :
  has_onabort w i = true <-> In OnAbort (listeners (store w i)).
Proof.
  unfold has_onabort. rewrite existsb_exists. split.
  - intros [x [Hx He]]. destruct x; [assumption | discriminate].
  - intros H. exists OnAbort. split; [assumption | reflexivity].
Qed.

Lemma cleanup_flags sigs w :
  d_aborted (cleanup sigs w) = d_aborted w /\ d_fired (cleanup sigs w) = d_fired w /\
  forall j, aborted (store (cleanup sigs w) j) = aborted (store w j).
Proof.
  revert w. induction sigs as [|[i|] rest IH]; intros w; simpl; auto.
  destruct (IH (remove_onabort i w)) as (H1 & H2 & H3).
  repeat split; auto. intros j. rewrite H3. unfold remove_onabort. rewrite store_upd.
  destruct (Nat.eqb j i); reflexivity.
Qed.

Lemma cleanup_listeners sigs w j :
  has_onabort (cleanup sigs w) j =
  if existsb (fun o => match o with Some i => Nat.eqb j i | None => false end) sigs
  then false else has_onabort w j.
Proof.
  revert w. induction sigs as [|[i|] rest IH]; intros w; simpl; auto.
  rewrite IH. destruct (Nat.eqb j i) eqn:E; simpl.
  - destruct existsb; [reflexivity|].
    unfold has_onabort, remove_onabort. rewrite store_upd, E. simpl.
    induction (listeners (store w j)) as [|l ls IHl]; [reflexivity|].
    destruct l; simpl; [exact IHl|exact IHl].
  - destruct existsb; [reflexivity|].
    unfold has_onabort, remove_onabort. rewrite store_upd, E. reflexivity.
Qed.

Lemma in_sigs_existsb sigs j :
  existsb (fun o => match o with Some i => Nat.eqb j i | None => false end) sigs = true <->
  In (Some j) sigs.
Proof.
  rewrite existsb_exists. split.
  - intros [[i|] [Hi He]]; [|discriminate]. apply Nat.eqb_eq in He. subst. exact Hi.
  - intros H. exists (Some j). rewrite Nat.eqb_refl. auto.
Qed.

Lemma cleanup_removes sigs w j :
  In (Some j) sigs -> has_onabort (cleanup sigs w) j = false.
Proof.
  intros H. rewrite cleanup_listeners. apply in_sigs_existsb in H. rewrite H. reflexivity.
Qed.

Lemma cleanup_keeps sigs w j :
  ~ In (Some j) sigs -> has_onabort (cleanup sigs w) j = has_onabort w j.
Proof.
  intros H. rewrite cleanup_listeners.
  destruct existsb eqn:E; [|reflexivity]. apply in_sigs_existsb in E. contradiction.
Qed.

Lemma any_aborted_ext sigs w w' :
  (forall j, In (Some j) sigs -> aborted (store w j) = aborted (store w' j)) ->
  any_aborted sigs w = any_aborted sigs w'.
Proof.
  unfold any_aborted. induction sigs as [|[i|] rest IH]; intros H; simpl; auto.
  - rewrite (H i (or_introl eq_refl)). f_equal. apply IH. intros j Hj. apply H. right. exact Hj.
  - apply IH. intros j Hj. apply H. right. exact Hj.
Qed.

(** The combinator's state after [onAbort]: fired once, no listener left. *)
Lemma onAbort_spec sigs w :
  d_aborted w = false ->
  (forall i, has_onabort w i = true -> In (Some i) sigs) ->
  d_aborted (onAbort sigs w) = true /\ d_fired (onAbort sigs w) = S (d_fired w) /\
  (forall j, aborted (store (onAbort sigs w) j) = aborted (store w j)) /\
  (forall j, has_onabort (onAbort sigs w) j = false).
Proof.
  intros Hd Hl. unfold onAbort, controller_abort. rewrite Hd.
  destruct (cleanup_flags sigs (mkWorld (store w) true (S (d_fired w)))) as (H1 & H2 & H3).
  rewrite H1, H2. repeat split; auto.
  intros j. rewrite cleanup_listeners.
  destruct existsb eqn:Hin; [reflexivity|]. simpl.
  destruct (has_onabort w j) eqn:E; [|exact E]. exfalso.
  apply Hl, in_sigs_existsb in E. congruence.
Qed.

Lemma add_onabort_spec i w :
  d_aborted (add_onabort i w) = d_aborted w /\ d_fired (add_onabort i w) = d_fired w /\
  (forall j, aborted (store (add_onabort i w) j) = aborted (store w j)) /\
  (forall j, has_onabort (add_onabort i w) j = if Nat.eqb j i then true else has_onabort w j).
Proof.
  repeat split.
  - intros j. unfold add_onabort. rewrite store_upd.
    destruct (Nat.eqb j i); [destruct existsb|]; reflexivity.
  - intros j. unfold has_onabort, add_onabort. rewrite store_upd.
    destruct (Nat.eqb j i); [|reflexivity].
    destruct (existsb (listener_eqb OnAbort) (listeners (store w j))) eqn:E; [exact E|]. simpl.
    rewrite existsb_app. simpl. apply orb_true_r.
Qed.

Lemma register_spec rest sigs w :
  d_aborted w = false -> d_fired w = 0 ->
  (forall i, has_onabort w i = true -> In (Some i) sigs) ->
  (forall o, In o rest -> In o sigs) ->
  (forall j, aborted (store (register rest sigs w) j) = aborted (store w j)) /\
  if any_aborted rest w
  then d_aborted (register rest sigs w) = true /\ d_fired (register rest sigs w) = 1 /\
       (forall j, has_onabort (register rest sigs w) j = false)
  else d_aborted (register rest sigs w) = false /\ d_fired (register rest sigs w) = 0 /\
       (forall j, has_onabort (register rest sigs w) j = true -> In (Some j) sigs) /\
       (forall j, has_onabort w j = true \/ In (Some j) rest ->
                  has_onabort (register rest sigs w) j = true).
Proof.
  revert w. induction rest as [|[i|] rest IH]; intros w Hd Hf Hl Hsub; simpl.
  - unfold any_aborted. simpl. repeat split; auto. intros j [H|[]]. exact H.
  - destruct (aborted (store w i)) eqn:Ha.
    + destruct (onAbort_spec sigs w Hd Hl) as (H1 & H2 & H3 & H4).
      unfold any_aborted. simpl. rewrite Hf in H2. auto.
    + destruct (add_onabort_spec i w) as (A1 & A2 & A3 & A4).
      assert (Hl' : forall j, has_onabort (add_onabort i w) j = true -> In (Some j) sigs).
      { intros j. rewrite A4. destruct (Nat.eqb j i) eqn:E.
        - intros _. apply Nat.eqb_eq in E. subst. apply Hsub. left. reflexivity.
        - apply Hl. }
      assert (Hsub' : forall o, In o rest -> In o sigs) by (intros o Ho; apply Hsub; right; exact Ho).
      destruct (IH (add_onabort i w) ltac:(congruence) ltac:(congruence) Hl' Hsub') as [Hab Hc].
      split. { intros j. rewrite Hab. apply A3. }
      rewrite (any_aborted_ext rest (add_onabort i w) w) in Hc by (intros j _; apply A3).
      unfold any_aborted in *. simpl.
      destruct existsb; [exact Hc|].
      destruct Hc as (C1 & C2 & C3 & C4). repeat split; auto.
      intros j Hj. apply C4. rewrite A4.
      destruct Hj as [Hj|[Hj|Hj]].
      * left. destruct (Nat.eqb j i); [reflexivity|exact Hj].
      * injection Hj as <-. left. rewrite Nat.eqb_refl. reflexivity.
      * right. exact Hj.
  - assert (Hsub' : forall o, In o rest -> In o sigs) by (intros o Ho; apply Hsub; right; exact Ho).
    destruct (IH w Hd Hf Hl Hsub') as [Hab Hc]. split; [exact Hab|].
    unfold any_aborted in *. simpl. destruct existsb; [exact Hc|].
    destruct Hc as (C1 & C2 & C3 & C4). repeat split; auto.
    intros j [Hj|[Hj|Hj]]; apply C4; auto. discriminate.
Qed.

Lemma combined_inv_init sigs st :
  (forall i, has_onabort (mkWorld st false 0) i = false) ->
  combined_inv sigs (anyAbortSignal sigs st).
Proof.
  intros H0. unfold anyAbortSignal.
  destruct (register_spec sigs sigs (mkWorld st false 0) eq_refl eq_refl
              ltac:(intros i Hi; rewrite H0 in Hi; discriminate) ltac:(auto)) as [Hab Hc].
  unfold combined_inv.
  rewrite (any_aborted_ext sigs _ (mkWorld st false 0) (fun j _ => Hab j)).
  destruct (any_aborted sigs (mkWorld st false 0)) eqn:E.
  - destruct Hc as (C1 & C2 & C3). rewrite C1, C2.
    repeat split; auto; intros; try discriminate; rewrite C3 in *; discriminate.
  - destruct Hc as (C1 & C2 & C3 & C4). rewrite C1, C2. repeat split; auto.
Qed.

Lemma combined_inv_fire sigs i w :
  combined_inv sigs w -> combined_inv sigs (fire sigs i w).
Proof.
  intros (I1 & I2 & I3 & I4). unfold fire.
  destruct (aborted (store w i)) eqn:Ha; [exact (conj I1 (conj I2 (conj I3 I4)))|].
  rewrite (store_upd w i (fun s => mkSignal true (listeners s)) i), Nat.eqb_refl. simpl.
  change (existsb (listener_eqb OnAbort) (listeners (store w i))) with (has_onabort w i).
  set (w1 := upd_store w i (fun s => mkSignal true (listeners s))).
  assert (Hst : forall j, store w1 j = if Nat.eqb j i then mkSignal true (listeners (store w j)) else store w j)
    by (intros j; reflexivity).
  assert (Hlis : forall j, has_onabort w1 j = has_onabort w j).
  { intros j. unfold has_onabort. rewrite Hst. destruct (Nat.eqb j i); reflexivity. }
  destruct (has_onabort w i) eqn:Ho.
  - destruct (I3 i Ho) as [Hin Hd].
    destruct (onAbort_spec sigs w1 Hd ltac:(intros j Hj; rewrite Hlis in Hj; apply (I3 j Hj)))
      as (O1 & O2 & O3 & O4).
    assert (Hany : any_aborted sigs (onAbort sigs w1) = true).
    { unfold any_aborted. apply existsb_exists. exists (Some i). split; [exact Hin|].
      rewrite O3, Hst, Nat.eqb_refl. reflexivity. }
    rewrite Hd in I2. simpl in O2. rewrite I2 in O2.
    unfold combined_inv. rewrite O1, O2, Hany. split; [reflexivity|split; [reflexivity|split]].
    + intros j Hj. rewrite O4 in Hj. discriminate.
    + intros Hf. discriminate.
  - unfold combined_inv.
    destruct (d_aborted w) eqn:Hd.
    + assert (Hany : any_aborted sigs w1 = true).
      { unfold any_aborted in *. symmetry in I1. apply existsb_exists in I1.
        destruct I1 as [[j|] [Hj Hj']]; [|discriminate].
        apply existsb_exists. exists (Some j). split; [exact Hj|]. rewrite Hst.
        destruct (Nat.eqb j i); [reflexivity|exact Hj']. }
      change (d_aborted w1) with (d_aborted w). change (d_fired w1) with (d_fired w).
      rewrite Hany. rewrite Hd in *. split; [reflexivity|split; [exact I2|split]].
      * intros j Hj. rewrite Hlis in Hj. apply (I3 j Hj).
      * intros Hf. discriminate.
    + assert (Hnin : ~ In (Some i) sigs) by (intros Hin; rewrite (I4 eq_refl i Hin) in Ho; discriminate).
      assert (Hany : any_aborted sigs w1 = any_aborted sigs w).
      { apply any_aborted_ext. intros j Hj. rewrite Hst.
        destruct (Nat.eqb j i) eqn:E; [|reflexivity].
        apply Nat.eqb_eq in E. subst. contradiction. }
      change (d_aborted w1) with (d_aborted w). change (d_fired w1) with (d_fired w).
      rewrite Hany. rewrite Hd in *. split; [exact I1|split; [exact I2|split]].
      * intros j Hj. rewrite Hlis in Hj. apply (I3 j Hj).
      * intros _ j Hj. rewrite Hlis. apply (I4 eq_refl j Hj).
Qed.

Lemma combined_inv_run sigs fs w :
  combined_inv sigs w -> combined_inv sigs (run sigs fs w).
Proof.
  unfold run. revert w. induction fs as [|i fs IH]; intros w H; simpl; [exact H|].
  apply IH, combined_inv_fire, H.
Qed.

(** C5: [anyAbortSignal] fires its derived signal exactly once, at the
    first firing of any input (synchronously when an input is already
    fired at combination time), and then no input keeps its listener. *)
Theorem anyAbortSignal_fires_once_and_detaches (sigs : list (option nat)) (st : nat -> Signal)
  (Hfresh : forall i, ~ In OnAbort (listeners (st i))) :
  (any_aborted sigs (mkWorld st false 0) = true -> d_aborted (anyAbortSignal sigs st) = true) /\
  forall fs : list nat,
    let w := run sigs fs (anyAbortSignal sigs st) in
    d_aborted w = any_aborted sigs w /\
    d_fired w = (if any_aborted sigs w then 1 else 0) /\
    (d_aborted w = true -> forall i, ~ In OnAbort (listeners (store w i))).
Proof.
  assert (H0 : forall i, has_onabort (mkWorld st false 0) i = false).
  { intros i. destruct (has_onabort _ i) eqn:E; [|reflexivity].
    apply has_onabort_spec in E. exfalso. exact (Hfresh i E). }
  pose proof (combined_inv_init sigs st H0) as Hi.
  split.
  - intros Ha. destruct Hi as (I1 & _).
    destruct (register_spec sigs sigs (mkWorld st false 0) eq_refl eq_refl
                ltac:(intros i Hi; rewrite H0 in Hi; discriminate) ltac:(auto)) as [Hab _].
    rewrite I1. unfold anyAbortSignal.
    rewrite (any_aborted_ext sigs _ (mkWorld st false 0) (fun j _ => Hab j)). exact Ha.
  - intros fs w. destruct (combined_inv_run sigs fs _ Hi) as (I1 & I2 & I3 & _).
    fold w in I1, I2, I3. rewrite <- I1. split; [reflexivity|split; [exact I2|]].
    intros Hd i Hin. apply has_onabort_spec in Hin. destruct (I3 i Hin) as [_ Hf]. congruence.
Qed.

End AnyAbortProofs.

Module StageCoordsProofs.
Import StageCoords.
Local Open Scope Q_scope.

Lemma js_ltb_fin x y : js_ltb (Fin x) (Fin y) = true <-> x < y.
Proof.
  simpl. rewrite negb_true_iff. split.
  - intros H. apply Qnot_le_lt. intros H'. apply Qle_bool_iff in H'. congruence.
  - intros H. destruct (Qle_bool y x) eqn:E; [|reflexivity].
    apply Qle_bool_iff in E. exfalso. apply (Qlt_not_le x y H E).
Qed.

Lemma min_fin hi q : exists m, js_min (Fin hi) (Fin q) = Fin m /\ m <= hi.
Proof.
  unfold js_min. destruct (js_ltb (Fin q) (Fin hi)) eqn:E.
  - exists q. split; [reflexivity|]. apply Qlt_le_weak, js_ltb_fin, E.
  - exists hi. split; [reflexivity|apply Qle_refl].
Qed.

Lemma max_fin_range lo hi m :
  lo <= hi -> m <= hi -> in_range lo hi (js_max (Fin lo) (Fin m)).
Proof.
  intros Hle Hm. unfold js_max. destruct (js_ltb (Fin lo) (Fin m)) eqn:E; simpl.
  - split; [apply Qlt_le_weak, js_ltb_fin, E|exact Hm].
  - split; [apply Qle_refl|exact Hle].
Qed.

(** The clamp [Math.max(lo, Math.min(hi, v))] of any number but [NaN]
    lies within [lo, hi]. *)
Lemma clamp_in_range lo hi v :
  lo <= hi -> v <> NaN -> in_range lo hi (js_max (Fin lo) (js_min (Fin hi) v)).
Proof.
  intros Hle Hv. destruct v as [q| | |].
  - destruct (min_fin hi q) as [m [-> Hm]]. apply max_fin_range; assumption.
  - exfalso. apply Hv. reflexivity.
  - apply (max_fin_range lo hi hi Hle (Qle_refl hi)).
  - simpl. split; [apply Qle_refl|exact Hle].
Qed.

Lemma in_range_neg lo hi v :
  lo == - hi -> in_range lo hi v -> in_range lo hi (js_neg v).
Proof.
  intros Hs. destruct v as [q| | |]; simpl; try tauto.
  intros [H1 H2]. split; lra.
Qed.

(** Whatever the event and the surface rectangle, each coordinate is
    within the stage bounds or is [NaN]. *)
Lemma stageCoords_in_bounds_or_nan rect cx cy :
  let '(x, y) := stageCoordsFromPointerEvent stageBounds rect cx cy in
  (in_range (-240) 240 x \/ x = NaN) /\ (in_range (-180) 180 y \/ y = NaN).
Proof.
  unfold stageCoordsFromPointerEvent.
  set (vx := js_round _). set (vy := js_round _).
  split.
  - destruct vx eqn:E; [left..|right|left|left].
    all: try (apply clamp_in_range; [discriminate|discriminate]).
    reflexivity.
  - destruct vy eqn:E.
    all: try (left; apply in_range_neg; [reflexivity|apply clamp_in_range; discriminate]).
    right. reflexivity.
Qed.

(** The scenario of the spec: bounds (-240,240)x(-180,180), surface
    rectangle at (0,0) of size 480x360, pointer at client (0,0). *)
Lemma stageCoords_corner_scenario :
  match stageCoordsFromPointerEvent stageBounds (mkDOMRect 0 0 480 360) 0 0 with
  | (Fin x, Fin y) => x == -240 /\ y == 180
  | _ => False
  end.
Proof. vm_compute. split; reflexivity. Qed.

(** C3 (code bug): with a zero-size surface rectangle (a hidden stage:
    [getBoundingClientRect()] of an element with [display: none] is
    0x0 at (0,0)) and the pointer at client (0,0), [(clientX - left) *
    (480 / 0)] is [0 * Infinity = NaN], [Math.round], [Math.min] and
    [Math.max] propagate it, and both coordinates are [NaN], outside the
    stage bounds. *)
Theorem stageCoords_nan_on_empty_rect :
  stageCoordsFromPointerEvent stageBounds (mkDOMRect 0 0 0 0) 0 0 = (NaN, NaN)
  /\ ~ in_range (-240) 240 (fst (stageCoordsFromPointerEvent stageBounds (mkDOMRect 0 0 0 0) 0 0)).
Proof. vm_compute. split; [reflexivity|tauto]. Qed.

End StageCoordsProofs.

Module RTProofs.
Import RT RTInvariant.
Local Open Scope list_scope.
Local Open Scope nat_scope.

Lemma abort_fields c s :
  project (abort c s) = project s /\ stage (abort c s) = stage s /\
  steppingInterval (abort c s) = steppingInterval s /\ timers (abort c s) = timers s /\
  unregisterPreviousProject (abort c s) = unregisterPreviousProject s /\
  unsetPreviousStage (abort c s) = unsetPreviousStage s /\
  monitorViews (abort c s) = monitorViews s /\ monitors (abort c s) = monitors s /\
  mon (abort c s) = mon s /\ keysDown (abort c s) = keysDown s /\ next_id (abort c s) = next_id s.
Proof. unfold abort. destruct existsb; repeat split. Qed.

Lemma abort_listeners_incl c s l : In l (listeners (abort c s)) -> In l (listeners s).
Proof.
  unfold abort. destruct existsb; simpl; [auto|]. intros H. apply filter_In in H. tauto.
Qed.

Lemma abort_aborted c s x : In x (aborted (abort c s)) -> x = c \/ In x (aborted s).
Proof. unfold abort. destruct existsb; simpl; [auto|]. intros [H|H]; auto. Qed.

Lemma abort_aborted_in c s : In c (aborted (abort c s)).
Proof.
  unfold abort. destruct existsb eqn:E; simpl; [|auto].
  apply existsb_exists in E. destruct E as [x [Hx Hc]]. apply Nat.eqb_eq in Hc. subst. exact Hx.
Qed.

Lemma abort_removes c s l :
  ~ In c (aborted s) -> In l (listeners (abort c s)) -> listener_signal l <> c.
Proof.
  intros Hn. unfold abort. destruct existsb eqn:E.
  - exfalso. apply existsb_exists in E. destruct E as [x [Hx Hc]].
    apply Nat.eqb_eq in Hc. subst. contradiction.
  - simpl. intros H. apply filter_In in H. destruct H as [_ H].
    intros Hc. subst. rewrite Nat.eqb_refl in H. discriminate.
Qed.

Lemma abort_log c s :
  ~ In c (aborted s) -> log (abort c s) = log s ++ [AbortCtl c].
Proof.
  intros Hn. unfold abort. destruct existsb eqn:E; [|reflexivity].
  exfalso. apply existsb_exists in E. destruct E as [x [Hx Hc]].
  apply Nat.eqb_eq in Hc. subst. contradiction.
Qed.

Lemma not_aborted_of_lt s x : (forall y, In y (aborted s) -> y < next_id s) ->
  next_id s <= x -> existsb (Nat.eqb x) (aborted s) = false.
Proof.
  intros H Hle. destruct existsb eqn:E; [|reflexivity].
  apply existsb_exists in E. destruct E as [y [Hy Hc]]. apply Nat.eqb_eq in Hc. subst.
  specialize (H y Hy). lia.
Qed.

Lemma addEventListener_fields l s :
  project (addEventListener l s) = project s /\ stage (addEventListener l s) = stage s /\
  steppingInterval (addEventListener l s) = steppingInterval s /\
  timers (addEventListener l s) = timers s /\
  unregisterPreviousProject (addEventListener l s) = unregisterPreviousProject s /\
  unsetPreviousStage (addEventListener l s) = unsetPreviousStage s /\
  monitorViews (addEventListener l s) = monitorViews s /\
  monitors (addEventListener l s) = monitors s /\ mon (addEventListener l s) = mon s /\
  keysDown (addEventListener l s) = keysDown s /\ next_id (addEventListener l s) = next_id s /\
  aborted (addEventListener l s) = aborted s /\ log (addEventListener l s) = log s.
Proof. unfold addEventListener. destruct existsb; repeat split. Qed.

Lemma addEventListener_listeners l s l' :
  In l' (listeners (addEventListener l s)) -> In l' (listeners s) \/ l' = l.
Proof.
  unfold addEventListener. destruct existsb; simpl; [auto|].
  intros H. apply in_app_or in H. destruct H as [H|[H|[]]]; auto.
Qed.

Lemma addEventListener_adds l s :
  existsb (Nat.eqb (listener_signal l)) (aborted s) = false ->
  listeners (addEventListener l s) = listeners s ++ [l].
Proof. intros H. unfold addEventListener. rewrite H. reflexivity. Qed.

(** A mutation that keeps the bindings, shrinks the views and the
    listeners, grows the monitor collections and aborts only controllers
    that are neither new nor the project's keeps the invariant. *)
Lemma Inv_transfer s s' :
  Inv s ->
  steppingInterval s' = steppingInterval s -> timers s' = timers s ->
  unregisterPreviousProject s' = unregisterPreviousProject s -> project s' = project s ->
  next_id s' = next_id s -> unsetPreviousStage s' = unsetPreviousStage s ->
  (forall p m, In m (monitors s p) -> In m (monitors s' p)) ->
  (forall e, In e (monitorViews s') -> In e (monitorViews s)) ->
  (forall l, In l (listeners s') -> In l (listeners s)) ->
  (forall x, In x (aborted s') -> In x (aborted s) \/
     (x < next_id s /\ forall P c, unregisterPreviousProject s = Some (P, c) -> x <> c)) ->
  Inv s'.
Proof.
  intros (I1 & I2 & I3 & I4 & I5a & I5b) E1 E2 E3 E4 E5 E6 Hm Hv Hl Ha.
  unfold Inv, timers_inv, project_inv, views_inv, listeners_inv, fresh_inv in *.
  rewrite E1, E2. rewrite E3. rewrite E4. rewrite E5. rewrite E6. split; [exact I1|]. split.
  - destruct (unregisterPreviousProject s) as [[P c]|]; [|exact I2].
    destruct I2 as (J1 & J2 & J3). split; [exact J1|]. split; [|exact J3].
    intros Hc. destruct (Ha c Hc) as [H|[_ H]]; [exact (J2 H)|exact (H P c eq_refl eq_refl)].
  - split; [|split; [|split]].
    + intros m v a H. destruct (I3 m v a (Hv _ H)) as (P & c & H1 & H2 & H3).
      exists P, c. auto.
    + intros l H. specialize (I4 l (Hl l H)). destruct l; auto.
      destruct I4 as [P [H1 H2]]. exists P. auto.
    + intros x Hx. destruct (Ha x Hx) as [H|[H _]]; auto.
    + intros r a H. exact (I5b r a H).
Qed.

Lemma map_get_In m l x : map_get m l = Some x -> In (m, x) l.
Proof.
  induction l as [|[k v] rest IH]; simpl; [discriminate|].
  destruct (Nat.eqb k m) eqn:E.
  - intros H. injection H as <-. apply Nat.eqb_eq in E. subst. left. reflexivity.
  - intros H. right. apply IH, H.
Qed.

Lemma map_get_None m l x : map_get m l = None -> ~ In (m, x) l.
Proof.
  induction l as [|[k v] rest IH]; simpl; [auto|].
  destruct (Nat.eqb k m) eqn:E; [discriminate|].
  intros H [H'|H'].
  - injection H' as -> ->. rewrite Nat.eqb_refl in E. discriminate.
  - exact (IH H H').
Qed.

Lemma map_delete_In m l e : In e (map_delete m l) -> In e l /\ fst e <> m.
Proof.
  unfold map_delete. intros H. apply filter_In in H. destruct H as [H1 H2].
  split; [exact H1|]. intros E. subst. rewrite Nat.eqb_refl in H2. discriminate.
Qed.

Lemma map_delete_keeps m l e : In e l -> fst e <> m -> In e (map_delete m l).
Proof.
  intros H Hn. unfold map_delete. apply filter_In. split; [exact H|].
  destruct (Nat.eqb (fst e) m) eqn:E; [|reflexivity]. apply Nat.eqb_eq in E. contradiction.
Qed.

Lemma Inv_with_log l s : Inv s -> Inv (with_log l s).
Proof. exact (fun H => H). Qed.

Lemma Inv_emit e s : Inv s -> Inv (emit e s).
Proof. exact (fun H => H). Qed.

Lemma Inv_abort c s :
  Inv s -> c < next_id s ->
  (forall P c0, unregisterPreviousProject s = Some (P, c0) -> c <> c0) ->
  Inv (abort c s).
Proof.
  intros H Hlt Hne. destruct (abort_fields c s) as (F1&F2&F3&F4&F5&F6&F7&F8&F9&F10&F11).
  apply (Inv_transfer s); auto.
  - intros p m Hm. rewrite F8. exact Hm.
  - intros e He. rewrite F7 in He. exact He.
  - apply abort_listeners_incl.
  - intros x Hx. destruct (abort_aborted c s x Hx) as [->|Hx']; auto.
Qed.

Lemma removeMonitorView_fields m s :
  project (removeMonitorView m s) = project s /\ stage (removeMonitorView m s) = stage s /\
  steppingInterval (removeMonitorView m s) = steppingInterval s /\
  timers (removeMonitorView m s) = timers s /\
  unregisterPreviousProject (removeMonitorView m s) = unregisterPreviousProject s /\
  unsetPreviousStage (removeMonitorView m s) = unsetPreviousStage s /\
  monitors (removeMonitorView m s) = monitors s /\ mon (removeMonitorView m s) = mon s /\
  keysDown (removeMonitorView m s) = keysDown s /\ next_id (removeMonitorView m s) = next_id s.
Proof.
  unfold removeMonitorView. destruct (map_get m (monitorViews s)) as [[v a]|]; [|repeat split].
  destruct (abort_fields a (emit (RemoveView v) s)) as (F1&F2&F3&F4&F5&F6&F7&F8&F9&F10&F11).
  simpl. rewrite F1, F2, F3, F4, F5, F6, F8, F9, F10, F11. repeat split.
Qed.

Lemma removeMonitorView_views m s e :
  In e (monitorViews (removeMonitorView m s)) <-> In e (monitorViews s) /\ fst e <> m.
Proof.
  unfold removeMonitorView. destruct (map_get m (monitorViews s)) as [[v a]|] eqn:E.
  - simpl. destruct (abort_fields a (emit (RemoveView v) s)) as (F1&F2&F3&F4&F5&F6&F7&_).
    rewrite F7. simpl. split; [apply map_delete_In|intros [H1 H2]; apply map_delete_keeps; auto].
  - split; [|tauto]. intros H. split; [exact H|]. destruct e as [k x]. simpl. intros ->.
    exact (map_get_None _ _ _ E H).
Qed.

Lemma Inv_removeMonitorView m s : Inv s -> Inv (removeMonitorView m s).
Proof.
  intros H. unfold removeMonitorView.
  destruct (map_get m (monitorViews s)) as [[v a]|] eqn:E; [|exact H].
  apply map_get_In in E.
  destruct H as (I1 & I2 & I3 & I4 & I5).
  destruct (I3 m v a E) as (P & c & U & _ & Hca & Han).
  assert (H' : Inv (abort a (emit (RemoveView v) s))).
  { apply Inv_abort; [exact (conj I1 (conj I2 (conj I3 (conj I4 I5))))|exact Han|].
    simpl. intros P0 c0 U0. rewrite U in U0. injection U0 as <- <-. lia. }
  destruct (abort_fields a (emit (RemoveView v) s)) as (F1&F2&F3&F4&F5&F6&F7&F8&F9&F10&F11).
  apply (Inv_transfer _ _ H'); auto.
  intros e He. apply map_delete_In in He. exact (proj1 He).
Qed.

Lemma Inv_fold_remove ms s :
  Inv s -> Inv (fold_left (fun s m => removeMonitorView m s) ms s).
Proof.
  revert s. induction ms as [|m ms IH]; intros s H; simpl; [exact H|].
  apply IH, Inv_removeMonitorView, H.
Qed.

Lemma Inv_stop s : Inv s -> Inv (stop s).
Proof.
  unfold stop. destruct (steppingInterval s) as [h|] eqn:E; [|auto].
  intros (I1 & I2 & I3 & I4 & I5). unfold timers_inv in I1. rewrite E in I1.
  split; [|exact (conj I2 (conj I3 (conj I4 I5)))].
  unfold timers_inv. simpl. rewrite I1. simpl. rewrite Nat.eqb_refl. reflexivity.
Qed.

(** The general preservation lemma: bindings kept, ids only grow, new
    views and listeners satisfy the invariant's conditions, only old
    non-project controllers are aborted. *)
Lemma Inv_change s s' :
  Inv s ->
  steppingInterval s' = steppingInterval s -> timers s' = timers s ->
  unregisterPreviousProject s' = unregisterPreviousProject s -> project s' = project s ->
  unsetPreviousStage s' = unsetPreviousStage s -> next_id s <= next_id s' ->
  (forall p m, In m (monitors s p) -> In m (monitors s' p)) ->
  (forall m v a, In (m, (v, a)) (monitorViews s') -> In (m, (v, a)) (monitorViews s) \/
     exists P c, unregisterPreviousProject s = Some (P, c) /\
                 In m (monitors s' (proj_id P)) /\ c < a /\ a < next_id s') ->
  (forall l, In l (listeners s') -> In l (listeners s) \/
     match l with
     | CreateMonitorL p c' => exists P, unregisterPreviousProject s = Some (P, c') /\ p = proj_id P
     | UpdateMonitorL m c' =>
         exists P, unregisterPreviousProject s = Some (P, c') /\ In m (monitors s' (proj_id P))
     | SliderChangeL _ _ _ => True
     end) ->
  (forall x, In x (aborted s') -> In x (aborted s) \/
     (x < next_id s /\ forall P c, unregisterPreviousProject s = Some (P, c) -> x <> c)) ->
  Inv s'.
Proof.
  intros (I1 & I2 & I3 & I4 & I5a & I5b) E1 E2 E3 E4 E6 Hn Hm Hv Hl Ha.
  unfold Inv, timers_inv, project_inv, views_inv, listeners_inv, fresh_inv in *.
  rewrite E1, E2. rewrite E3. rewrite E4. rewrite E6. split; [exact I1|]. split.
  - destruct (unregisterPreviousProject s) as [[P c]|]; [|exact I2].
    destruct I2 as (J1 & J2 & J3). split; [exact J1|]. split; [|lia].
    intros Hc. destruct (Ha c Hc) as [H|[_ H]]; [exact (J2 H)|exact (H P c eq_refl eq_refl)].
  - split; [|split; [|split]].
    + intros m v a H. destruct (Hv m v a H) as [H'|H']; [|exact H'].
      destruct (I3 m v a H') as (P & c & H1 & H2 & H3 & H4).
      exists P, c. repeat split; auto. lia.
    + intros l H. destruct (Hl l H) as [H'|H']; [|exact H'].
      specialize (I4 l H'). destruct l; auto.
      destruct I4 as [P [H1 H2]]. exists P. auto.
    + intros x Hx. destruct (Ha x Hx) as [H|[H _]]; [specialize (I5a x H)|]; lia.
    + intros r a H. destruct (I5b r a H) as [H1 H2]. split; [lia|exact H2].
Qed.

Lemma Inv_addEventListener l s :
  Inv s ->
  match l with
  | CreateMonitorL p c' => exists P, unregisterPreviousProject s = Some (P, c') /\ p = proj_id P
  | UpdateMonitorL m c' =>
      exists P, unregisterPreviousProject s = Some (P, c') /\ In m (monitors s (proj_id P))
  | SliderChangeL _ _ _ => True
  end ->
  Inv (addEventListener l s).
Proof.
  intros H Hl. destruct (addEventListener_fields l s) as (F1&F2&F3&F4&F5&F6&F7&F8&F9&F10&F11&F12&F13).
  apply (Inv_change s); auto; try lia.
  - intros p m Hm. rewrite F8. exact Hm.
  - intros m v a Hv. rewrite F7 in Hv. auto.
  - intros l' Hl'. destruct (addEventListener_listeners l s l' Hl') as [H'|H']; [auto|subst l'].
    right. rewrite F8. exact Hl.
  - intros x Hx. rewrite F12 in Hx. auto.
Qed.

Lemma Inv_handleMonitorCreated c m s :
  Inv s ->
  (exists P, unregisterPreviousProject s = Some (P, c) /\ In m (monitors s (proj_id P))) ->
  Inv (handleMonitorCreated c m s).
Proof.
  intros H Hm. unfold handleMonitorCreated. destruct (stage s); [|exact H].
  apply Inv_addEventListener; assumption.
Qed.

Lemma frame_refl s : frame s s.
Proof. repeat split. Qed.

Lemma frame_trans s1 s2 s3 : frame s1 s2 -> frame s2 s3 -> frame s1 s3.
Proof.
  intros (A1&A2&A3&A4&A5&A6&A7) (B1&B2&B3&B4&B5&B6&B7).
  repeat split; congruence.
Qed.

Lemma frame_abort c s : frame s (abort c s).
Proof. unfold abort. destruct existsb; repeat split. Qed.

Lemma frame_addEventListener l s : frame s (addEventListener l s).
Proof. unfold addEventListener. destruct existsb; repeat split. Qed.

Lemma frame_removeMonitorView m s : frame s (removeMonitorView m s).
Proof.
  unfold removeMonitorView. destruct (map_get m (monitorViews s)) as [[v a]|]; [|apply frame_refl].
  destruct (frame_abort a (emit (RemoveView v) s)) as (A1&A2&A3&A4&A5&A6&A7).
  repeat split; simpl; assumption.
Qed.

Lemma frame_handleMonitorCreated c m s : frame s (handleMonitorCreated c m s).
Proof.
  unfold handleMonitorCreated. destruct (stage s); [apply frame_addEventListener|apply frame_refl].
Qed.

Lemma map_get_delete_other m m0 l :
  m <> m0 -> map_get m (map_delete m0 l) = map_get m l.
Proof.
  intros Hne. induction l as [|[k x] rest IH]; [reflexivity|]. simpl.
  destruct (Nat.eqb k m0) eqn:E0; simpl.
  - destruct (Nat.eqb k m) eqn:E; [|exact IH].
    apply Nat.eqb_eq in E0. apply Nat.eqb_eq in E. congruence.
  - destruct (Nat.eqb k m); [reflexivity|exact IH].
Qed.

Lemma removeMonitorView_grows m s :
  (exists l, log (removeMonitorView m s) = log s ++ l) /\
  (forall x, In x (aborted s) -> In x (aborted (removeMonitorView m s))) /\
  (forall x, In x (aborted (removeMonitorView m s)) -> In x (aborted s) \/
     exists v, In (m, (v, x)) (monitorViews s)) /\
  (forall l, In l (listeners (removeMonitorView m s)) -> In l (listeners s)) /\
  next_id (removeMonitorView m s) = next_id s.
Proof.
  unfold removeMonitorView. destruct (map_get m (monitorViews s)) as [[v a]|] eqn:E.
  - apply map_get_In in E. unfold abort. simpl. destruct existsb.
    + repeat split; auto. exists [RemoveView v]. reflexivity.
    + simpl. repeat split.
      * exists [RemoveView v; AbortCtl a]. rewrite <- app_assoc. reflexivity.
      * intros x Hx. right. exact Hx.
      * intros x [Hx|Hx]; [subst; right; exists v; exact E|left; exact Hx].
      * intros l Hl. apply filter_In in Hl. tauto.
  - repeat split; auto. exists []. rewrite app_nil_r. reflexivity.
Qed.

Lemma removeMonitorView_removes m s v a :
  map_get m (monitorViews s) = Some (v, a) ->
  In (RemoveView v) (log (removeMonitorView m s)) /\ In a (aborted (removeMonitorView m s)).
Proof.
  intros Hg. unfold removeMonitorView. rewrite Hg. split.
  - unfold abort. destruct existsb; simpl.
    + apply in_or_app. right. left. reflexivity.
    + apply in_or_app. left. apply in_or_app. right. left. reflexivity.
  - exact (abort_aborted_in a (emit (RemoveView v) s)).
Qed.

Lemma remove_all_spec ms s :
  frame s (remove_all ms s) /\
  (forall e, In e (monitorViews (remove_all ms s)) <-> In e (monitorViews s) /\ ~ In (fst e) ms) /\
  (exists l, log (remove_all ms s) = log s ++ l) /\
  (forall x, In x (aborted s) -> In x (aborted (remove_all ms s))) /\
  (forall x, In x (aborted (remove_all ms s)) -> In x (aborted s) \/
     exists m v, In (m, (v, x)) (monitorViews s)) /\
  (forall l, In l (listeners (remove_all ms s)) -> In l (listeners s)) /\
  next_id (remove_all ms s) = next_id s /\
  (forall m v a, In m ms -> map_get m (monitorViews s) = Some (v, a) ->
     In (RemoveView v) (log (remove_all ms s)) /\ In a (aborted (remove_all ms s))).
Proof.
  unfold remove_all. revert s. induction ms as [|m0 ms IH]; intros s; simpl.
  - split; [apply frame_refl|]. split; [intros e; tauto|].
    split; [exists []; rewrite app_nil_r; reflexivity|].
    split; [auto|]. split; [intros x Hx; left; exact Hx|].
    split; [auto|]. split; [reflexivity|]. intros m v a [].
  - set (s1 := removeMonitorView m0 s).
    destruct (IH s1) as (R1 & R2 & R3 & R4 & R5 & R6 & R7 & R8).
    destruct (removeMonitorView_grows m0 s) as (G1 & G2 & G3 & G4 & G5). fold s1 in G1, G2, G3, G4, G5.
    split; [exact (frame_trans _ _ _ (frame_removeMonitorView m0 s) R1)|].
    split.
    { intros e. rewrite R2. unfold s1. rewrite removeMonitorView_views. intuition. }
    split.
    { destruct R3 as [l1 L1]. destruct G1 as [l0 L0]. exists (l0 ++ l1).
      rewrite L1, L0, app_assoc. reflexivity. }
    split; [intros x Hx; apply R4, G2, Hx|].
    split.
    { intros x Hx. destruct (R5 x Hx) as [H|(m & v & H)].
      - destruct (G3 x H) as [H'|[v H']]; [left; exact H'|right; exists m0, v; exact H'].
      - right. exists m, v. unfold s1 in H. apply removeMonitorView_views in H. exact (proj1 H). }
    split; [intros l Hl; apply G4, R6, Hl|].
    split; [rewrite R7; exact G5|].
    intros m v a [<-|Hm] Hg.
    + destruct (removeMonitorView_removes m0 s v a Hg) as [H1 H2]. fold s1 in H1, H2.
      destruct R3 as [l1 L1]. rewrite L1. split; [apply in_or_app; left; exact H1|apply R4, H2].
    + destruct (Nat.eq_dec m m0) as [->|Hne].
      * destruct (removeMonitorView_removes m0 s v a Hg) as [H1 H2]. fold s1 in H1, H2.
        destruct R3 as [l1 L1]. rewrite L1. split; [apply in_or_app; left; exact H1|apply R4, H2].
      * apply (R8 m); [exact Hm|]. unfold s1, removeMonitorView.
        destruct (map_get m0 (monitorViews s)) as [[v0 a0]|]; [|exact Hg].
        destruct (abort_fields a0 (emit (RemoveView v0) s)) as (_&_&_&_&_&_&F7&_).
        simpl. rewrite F7. simpl. rewrite map_get_delete_other by exact Hne. exact Hg.
Qed.

Lemma stop_fields s :
  project (stop s) = project s /\ stage (stop s) = stage s /\
  steppingInterval (stop s) = None /\
  unregisterPreviousProject (stop s) = unregisterPreviousProject s /\
  unsetPreviousStage (stop s) = unsetPreviousStage s /\
  monitorViews (stop s) = monitorViews s /\ monitors (stop s) = monitors s /\
  mon (stop s) = mon s /\ listeners (stop s) = listeners s /\ aborted (stop s) = aborted s /\
  keysDown (stop s) = keysDown s /\ next_id (stop s) = next_id s /\
  (exists l, log (stop s) = log s ++ l) /\
  (timers_inv s -> timers (stop s) = []).
Proof.
  unfold stop, timers_inv. destruct (steppingInterval s) as [h|] eqn:E.
  - repeat split. { exists [ClearTimer h]. reflexivity. }
    intros Ht. simpl. rewrite Ht. simpl. rewrite Nat.eqb_refl. reflexivity.
  - do 12 (split; [first [reflexivity|exact E]|]). split; [exists []; rewrite app_nil_r; reflexivity|]. auto.
Qed.

Lemma abort_fresh c s :
  ~ In c (aborted s) ->
  abort c s = emit (AbortCtl c)
    (with_listeners (filter (fun l => negb (Nat.eqb (listener_signal l) c)) (listeners s))
       (with_aborted (c :: aborted s) s)).
Proof.
  intros Hn. unfold abort. destruct existsb eqn:E; [|reflexivity].
  exfalso. apply existsb_exists in E. destruct E as [x [Hx Hc]].
  apply Nat.eqb_eq in Hc. subst. contradiction.
Qed.

Lemma teardown_unfold P c s :
  teardown P c s =
  let s2 := stop (with_project None s) in
  let s3 := remove_all (monitors s2 (proj_id P)) s2 in
  let s4 := match stage s3 with Some _ => emit PenClear s3 | None => s3 end in
  emit (InterpSetProject None) (abort c (emit (Unregister (proj_id P)) s4)).
Proof. reflexivity. Qed.

(** What the stored teardown closure does to a reachable runtime. *)
Lemma teardown_spec P c s :
  Inv s -> unregisterPreviousProject s = Some (P, c) ->
  let t := teardown P c s in
  project t = None /\ steppingInterval t = None /\ timers t = [] /\ monitorViews t = [] /\
  unregisterPreviousProject t = Some (P, c) /\ unsetPreviousStage t = unsetPreviousStage s /\
  stage t = stage s /\ monitors t = monitors s /\ next_id t = next_id s /\
  (forall l, In l (listeners t) -> In l (listeners s) /\ listener_signal l <> c) /\
  (forall x, In x (aborted t) -> x < next_id s) /\ In c (aborted t) /\
  (forall m v a, map_get m (monitorViews s) = Some (v, a) ->
     In (RemoveView v) (log t) /\ In a (aborted t)) /\
  (stage s <> None -> In PenClear (log t)) /\
  (exists l, log t = log s ++ l ++ [Unregister (proj_id P); AbortCtl c; InterpSetProject None]).
Proof.
  intros HI Hu. pose proof HI as (I1 & I2 & I3 & I4 & I5a & I5b).
  unfold project_inv in I2. rewrite Hu in I2. destruct I2 as (J1 & J2 & J3).
  rewrite teardown_unfold. cbv zeta.
  set (s2 := stop (with_project None s)).
  destruct (stop_fields (with_project None s)) as
    (S1 & S2 & S3 & S4 & S5 & S6 & S7 & S8 & S9 & S10 & S11 & S12 & S13 & S14).
  fold s2 in S1, S2, S3, S4, S5, S6, S7, S8, S9, S10, S11, S12, S13, S14.
  simpl in S1, S2, S4, S5, S6, S7, S8, S9, S10, S11, S12, S13.
  specialize (S14 I1).
  set (s3 := remove_all (monitors s2 (proj_id P)) s2).
  destruct (remove_all_spec (monitors s2 (proj_id P)) s2) as
    (R1 & R2 & R3 & R4 & R5 & R6 & R7 & R8).
  fold s3 in R1, R2, R3, R4, R5, R6, R7, R8.
  destruct R1 as (F1 & F2 & F3 & F4 & F5 & F6 & F7).
  rewrite S7 in R2, R8.
  (* views emptied *)
  assert (Hv3 : monitorViews s3 = []).
  { destruct (monitorViews s3) as [|[m [v a]] rest] eqn:E; [reflexivity|exfalso].
    assert (Hin : In (m, (v, a)) ((m, (v, a)) :: rest)) by (left; reflexivity).
    apply R2 in Hin. destruct Hin as [Hin Hn]. rewrite S6 in Hin.
    destruct (I3 m v a Hin) as (P' & c' & H1 & H2 & _). rewrite Hu in H1.
    injection H1 as <- <-. exact (Hn H2). }
  (* aborted controllers are older than [next_id] and are not [c] *)
  assert (Ha3 : forall x, In x (aborted s3) -> x < next_id s /\ x <> c).
  { intros x Hx. destruct (R5 x Hx) as [H|(m & v & H)].
    - rewrite S10 in H. split; [exact (I5a x H)|]. intros ->. exact (J2 H).
    - rewrite S6 in H. destruct (I3 m v x H) as (P' & c' & H1 & _ & H3 & H4).
      rewrite Hu in H1. injection H1 as <- <-. split; lia. }
  assert (Hn3 : next_id s3 = next_id s) by (rewrite R7; exact S12).
  set (s4 := match stage s3 with Some _ => emit PenClear s3 | None => s3 end).
  assert (E4 : listeners s4 = listeners s3 /\ aborted s4 = aborted s3 /\
               monitorViews s4 = monitorViews s3 /\ next_id s4 = next_id s3 /\
               project s4 = project s3 /\ steppingInterval s4 = steppingInterval s3 /\
               timers s4 = timers s3 /\ unregisterPreviousProject s4 = unregisterPreviousProject s3 /\
               unsetPreviousStage s4 = unsetPreviousStage s3 /\ stage s4 = stage s3 /\
               monitors s4 = monitors s3 /\
               log s4 = log s3 ++ match stage s3 with Some _ => [PenClear] | None => [] end).
  { unfold s4. destruct (stage s3) eqn:Es; repeat split; try (rewrite app_nil_r; reflexivity); exact Es. }
  destruct E4 as (E1 & E2 & E3 & E5 & E6 & E7 & E8 & E9 & E10 & E11 & E12 & E13).
  assert (Hc4 : ~ In c (aborted (emit (Unregister (proj_id P)) s4))).
  { simpl. rewrite E2. intros H. exact (proj2 (Ha3 c H) eq_refl). }
  rewrite (abort_fresh c _ Hc4). simpl.
  rewrite ?E1, ?E2, ?E3, ?E5, ?E6, ?E7, ?E8, ?E9, ?E10, ?E11, ?E12, ?E13.
  rewrite ?F1, ?F2, ?F3, ?F4, ?F5, ?F6, ?F7, ?Hv3, ?Hn3, ?S1, ?S2, ?S3, ?S4, ?S5, ?S7, ?S12, ?S14.
  split; [reflexivity|]. split; [reflexivity|]. split; [reflexivity|]. split; [reflexivity|].
  split; [exact Hu|]. split; [reflexivity|]. split; [reflexivity|].
  split; [reflexivity|]. split; [reflexivity|].
  split.
  { intros l Hl. apply filter_In in Hl. destruct Hl as [Hl Hs].
    split; [rewrite <- S9; exact (R6 l Hl)|].
    intros Heq. rewrite Heq, Nat.eqb_refl in Hs. discriminate. }
  split.
  { intros x [<-|Hx]; [exact J3|exact (proj1 (Ha3 x Hx))]. }
  split; [left; reflexivity|].
  destruct R3 as [l3 L3]. destruct S13 as [l2 L2]. simpl in L2.
  split.
  { intros m v a Hg. rewrite <- S6 in Hg.
    pose proof (map_get_In _ _ _ Hg) as Hin. rewrite S6 in Hin.
    destruct (I3 m v a Hin) as (P' & c' & H1 & H2 & _). rewrite Hu in H1.
    injection H1 as <- <-. destruct (R8 m v a H2 Hg) as [G1 G2]. split.
    - repeat (rewrite <- app_assoc). apply in_or_app. left. exact G1.
    - right. exact G2. }
  split.
  { intros Hs. destruct (stage s) eqn:Es; [|contradiction].
    repeat (rewrite <- app_assoc). apply in_or_app. right. apply in_or_app. left. left. reflexivity. }
  exists ((l2 ++ l3) ++ match stage s with Some _ => [PenClear] | None => [] end).
  rewrite L3, L2. repeat (rewrite <- app_assoc). reflexivity.
Qed.

Lemma Inv_teardown P c s :
  Inv s -> unregisterPreviousProject s = Some (P, c) ->
  Inv (with_unreg None (teardown P c s)).
Proof.
  intros HI Hu. pose proof HI as (I1 & I2 & I3 & I4 & I5a & I5b).
  destruct (teardown_spec P c s HI Hu) as
    (T1 & T2 & T3 & T4 & T5 & T6 & T7 & T8 & T9 & T10 & T11 & _).
  unfold Inv, timers_inv, project_inv, views_inv, listeners_inv, fresh_inv, with_unreg.
  cbn [project steppingInterval timers unregisterPreviousProject monitorViews listeners
       aborted next_id unsetPreviousStage].
  rewrite T1, T2, T3, T4, T6, T9. split; [reflexivity|]. split; [reflexivity|].
  split; [intros m v a []|]. split.
  - intros l Hl. destruct (T10 l Hl) as [Hl' Hs]. specialize (I4 l Hl').
    destruct l as [p c'|m c'|v m a]; simpl in Hs; [| |exact I];
      destruct I4 as [P' [U _]]; rewrite Hu in U; injection U as _ ->; contradiction.
  - split; [exact T11|]. intros r a Hr. split; [exact (proj1 (I5b r a Hr))|discriminate].
Qed.

Lemma Inv_cleared s :
  Inv s ->
  let s' := match unregisterPreviousProject s with
            | Some (P0, c0) => with_unreg None (teardown P0 c0 s)
            | None => s
            end in
  Inv s' /\ unregisterPreviousProject s' = None.
Proof.
  intros HI. destruct (unregisterPreviousProject s) as [[P0 c0]|] eqn:U.
  - split; [apply Inv_teardown; assumption|reflexivity].
  - split; [exact HI|exact U].
Qed.

Lemma addEventListener_with_unreg l u s :
  addEventListener l (with_unreg u s) = with_unreg u (addEventListener l s).
Proof. unfold addEventListener. simpl. destruct existsb; reflexivity. Qed.

Lemma fold_handleMonitorCreated_with_unreg c L u s :
  fold_left (fun s m => handleMonitorCreated c m s) L (with_unreg u s) =
  with_unreg u (fold_left (fun s m => handleMonitorCreated c m s) L s).
Proof.
  revert s. induction L as [|m L IH]; intros s; simpl; [reflexivity|].
  rewrite <- IH. f_equal. unfold handleMonitorCreated. simpl.
  destruct (stage s); [apply addEventListener_with_unreg|reflexivity].
Qed.

Lemma setProject_Some_eq P s :
  setProject (Some P) s =
  let s' := match unregisterPreviousProject s with
            | Some (P0, c0) => with_unreg None (teardown P0 c0 s)
            | None => s
            end in
  let c := next_id s' in
  emit (Register (proj_id P))
    (fold_left (fun s m => handleMonitorCreated c m s) (monitors s' (proj_id P))
       (addEventListener (CreateMonitorL (proj_id P) c)
          (with_unreg (Some (P, c))
             (with_next (S c) (emit (InterpSetProject (Some (proj_id P))) (with_project (Some P) s')))))).
Proof.
  unfold setProject. cbv zeta. simpl.
  rewrite addEventListener_with_unreg, fold_handleMonitorCreated_with_unreg.
  destruct (addEventListener_fields (CreateMonitorL (proj_id P)
     (next_id match unregisterPreviousProject s with
              | Some (P0, c0) => with_unreg None (teardown P0 c0 s)
              | None => s
              end)) (with_next (S (next_id match unregisterPreviousProject s with
              | Some (P0, c0) => with_unreg None (teardown P0 c0 s)
              | None => s
              end)) (emit (InterpSetProject (Some (proj_id P))) (with_project (Some P)
              match unregisterPreviousProject s with
              | Some (P0, c0) => with_unreg None (teardown P0 c0 s)
              | None => s
              end)))) as (_&_&_&_&_&_&_&F8&_).
  rewrite F8. reflexivity.
Qed.

Lemma Inv_fold_handleMonitorCreated c L s :
  Inv s ->
  (forall m, In m L -> exists P, unregisterPreviousProject s = Some (P, c) /\ In m (monitors s (proj_id P))) ->
  Inv (fold_left (fun s m => handleMonitorCreated c m s) L s).
Proof.
  revert s. induction L as [|m L IH]; intros s H HL; simpl; [exact H|].
  destruct (frame_handleMonitorCreated c m s) as (A1 & A2 & _).
  apply IH.
  - apply Inv_handleMonitorCreated; [exact H|apply HL; left; reflexivity].
  - intros m' Hm'. rewrite A1, A2. apply HL. right. exact Hm'.
Qed.

Lemma frame_fold_handleMonitorCreated c L s :
  frame s (fold_left (fun s m => handleMonitorCreated c m s) L s).
Proof.
  revert s. induction L as [|m L IH]; intros s; simpl; [apply frame_refl|].
  exact (frame_trans _ _ _ (frame_handleMonitorCreated c m s) (IH _)).
Qed.

Lemma Inv_setProject p s : Inv s -> Inv (setProject p s).
Proof.
  intros HI. destruct (Inv_cleared s HI) as [HC UC].
  set (s' := match unregisterPreviousProject s with
             | Some (P0, c0) => with_unreg None (teardown P0 c0 s)
             | None => s
             end) in HC, UC.
  pose proof HC as (I1 & I2 & I3 & I4 & I5a & I5b).
  unfold project_inv in I2. rewrite UC in I2.
  destruct p as [P|].
  - rewrite setProject_Some_eq. fold s'. cbv zeta.
    apply Inv_emit. apply Inv_fold_handleMonitorCreated.
    + apply Inv_addEventListener; [|exists P; split; reflexivity].
      unfold Inv, timers_inv, project_inv, views_inv, listeners_inv, fresh_inv; simpl.
      split; [exact I1|]. split.
      { split; [reflexivity|]. split; [|lia]. intros Hc. specialize (I5a _ Hc). lia. }
      split.
      { intros m v a Hv. destruct (I3 m v a Hv) as (P' & c' & U & _). congruence. }
      split.
      { intros l Hl. specialize (I4 l Hl). rewrite UC in I4.
        destruct l; [destruct I4 as [? [? _]]; discriminate|destruct I4 as [? [? _]]; discriminate|exact I]. }
      split.
      { intros x Hx. specialize (I5a x Hx). lia. }
      intros r a Hr. destruct (I5b r a Hr) as [Ha _]. split; [lia|].
      intros P0 c0 E. injection E as _ <-. lia.
    + intros m Hm. exists P.
      destruct (addEventListener_fields (CreateMonitorL (proj_id P) (next_id s'))
        (with_unreg (Some (P, next_id s'))
          (with_next (S (next_id s'))
             (emit (InterpSetProject (Some (proj_id P))) (with_project (Some P) s')))))
        as (_&_&_&_&F5&_&_&F8&_). rewrite F5, F8. split; [reflexivity|exact Hm].
  - unfold setProject. fold s'. apply (Inv_transfer s'); auto.
Qed.

Lemma setProject_unreg p s :
  unregisterPreviousProject (setProject p s) =
  match p with
  | None => None
  | Some P => Some (P, next_id (match unregisterPreviousProject s with
                               | Some (P0, c0) => with_unreg None (teardown P0 c0 s)
                               | None => s
                               end))
  end.
Proof.
  destruct p as [P|].
  - rewrite setProject_Some_eq. cbv zeta.
    set (c := next_id _).
    set (w := with_unreg (Some (P, c)) _).
    set (L := monitors _ (proj_id P)).
    destruct (frame_fold_handleMonitorCreated c L (addEventListener (CreateMonitorL (proj_id P) c) w))
      as (A1 & _).
    destruct (addEventListener_fields (CreateMonitorL (proj_id P) c) w) as (_&_&_&_&F5&_).
    simpl. rewrite A1, F5. reflexivity.
  - unfold setProject. destruct (unregisterPreviousProject s) as [[P0 c0]|] eqn:U;
      [reflexivity|exact U].
Qed.

Lemma Inv_cleared_fields s :
  Inv s ->
  let s' := match unregisterPreviousProject s with
            | Some (P0, c0) => with_unreg None (teardown P0 c0 s)
            | None => s
            end in
  stage s' = stage s /\ monitors s' = monitors s.
Proof.
  intros HI. destruct (unregisterPreviousProject s) as [[P0 c0]|] eqn:U; [|split; reflexivity].
  destruct (teardown_spec P0 c0 s HI U) as (_&_&_&_&_&_&T7&T8&_). exact (conj T7 T8).
Qed.

Lemma handleMonitorCreated_grows c m s :
  (forall l, In l (listeners s) -> In l (listeners (handleMonitorCreated c m s))) /\
  aborted (handleMonitorCreated c m s) = aborted s /\ stage (handleMonitorCreated c m s) = stage s.
Proof.
  unfold handleMonitorCreated. destruct (stage s) eqn:E; [|auto].
  unfold addEventListener. destruct existsb; [auto|]. simpl.
  split; [intros l Hl; apply in_or_app; left; exact Hl|auto].
Qed.

Lemma handleMonitorCreated_adds c m s :
  stage s <> None -> ~ In c (aborted s) ->
  In (UpdateMonitorL m c) (listeners (handleMonitorCreated c m s)).
Proof.
  intros Hs Hc. unfold handleMonitorCreated. destruct (stage s); [|contradiction].
  unfold addEventListener. simpl. destruct existsb eqn:E.
  - exfalso. apply existsb_exists in E. destruct E as [x [Hx Hx']].
    apply Nat.eqb_eq in Hx'. subst. contradiction.
  - simpl. apply in_or_app. right. left. reflexivity.
Qed.

Lemma fold_handleMonitorCreated_spec c L s :
  stage s <> None -> ~ In c (aborted s) ->
  let r := fold_left (fun s m => handleMonitorCreated c m s) L s in
  (forall l, In l (listeners s) -> In l (listeners r)) /\
  (forall m, In m L -> In (UpdateMonitorL m c) (listeners r)) /\
  aborted r = aborted s.
Proof.
  revert s. induction L as [|m L IH]; intros s Hs Hc; simpl.
  - split; [auto|]. split; [intros m []|reflexivity].
  - destruct (handleMonitorCreated_grows c m s) as (G1 & G2 & G3).
    destruct (IH (handleMonitorCreated c m s)) as (R1 & R2 & R3);
      [rewrite G3; exact Hs|rewrite G2; exact Hc|].
    split; [intros l Hl; apply R1, G1, Hl|]. split; [|rewrite R3; exact G2].
    intros m' [<-|Hm]; [apply R1, handleMonitorCreated_adds; assumption|apply R2, Hm].
Qed.

Lemma fold_create_adds p m c L s :
  stage s <> None -> ~ In c (aborted s) -> In (CreateMonitorL p c) L ->
  In (UpdateMonitorL m c)
    (listeners (fold_left (fun s l => match l with
                                      | CreateMonitorL p' c => if Nat.eqb p' p then handleMonitorCreated c m s else s
                                      | _ => s
                                      end) L s)).
Proof.
  assert (Grow : forall L s l, In l (listeners s) ->
    stage (fold_left (fun s l => match l with
                                 | CreateMonitorL p' c => if Nat.eqb p' p then handleMonitorCreated c m s else s
                                 | _ => s
                                 end) L s) = stage s /\
    aborted (fold_left (fun s l => match l with
                                 | CreateMonitorL p' c => if Nat.eqb p' p then handleMonitorCreated c m s else s
                                 | _ => s
                                 end) L s) = aborted s /\
    In l (listeners (fold_left (fun s l => match l with
                                 | CreateMonitorL p' c => if Nat.eqb p' p then handleMonitorCreated c m s else s
                                 | _ => s
                                 end) L s))).
  { clear. induction L as [|l0 L IH]; intros s l Hl; simpl; [auto|].
    destruct l0 as [p' c'|m' c'|v m' a]; try (apply IH; exact Hl).
    destruct (Nat.eqb p' p); [|apply IH; exact Hl].
    destruct (handleMonitorCreated_grows c' m s) as (G1 & G2 & G3).
    destruct (IH (handleMonitorCreated c' m s) l (G1 l Hl)) as (R1 & R2 & R3).
    rewrite R1, R2, G2, G3. auto. }
  revert s. induction L as [|l0 L IH]; intros s Hs Hc HL; [destruct HL|]. simpl.
  destruct HL as [->|HL].
  - cbn beta iota. rewrite Nat.eqb_refl.
    exact (proj2 (proj2 (Grow L _ _ (handleMonitorCreated_adds c m s Hs Hc)))).
  - destruct l0 as [p' c'|m' c'|v m' a]; try (apply IH; assumption).
    destruct (Nat.eqb p' p); [|apply IH; assumption].
    destruct (handleMonitorCreated_grows c' m s) as (G1 & G2 & G3).
    apply IH; [rewrite G3; exact Hs|rewrite G2; exact Hc|exact HL].
Qed.

Lemma map_get_app_None m l l' :
  map_get m l = None -> map_get m (l ++ l') = map_get m l'.
Proof.
  induction l as [|[k x] rest IH]; intros H; [reflexivity|]. simpl in *.
  destruct (Nat.eqb k m); [discriminate|exact (IH H)].
Qed.

Lemma views_of_app m l l' : views_of m (l ++ l') = views_of m l ++ views_of m l'.
Proof. unfold views_of. rewrite filter_app, map_app. reflexivity. Qed.

Lemma views_of_None m l : map_get m l = None -> views_of m l = [].
Proof.
  unfold views_of. induction l as [|[k x] rest IH]; intros H; [reflexivity|]. simpl in *.
  destruct (Nat.eqb k m); [discriminate|exact (IH H)].
Qed.

Lemma views_of_delete m l : views_of m (map_delete m l) = [].
Proof.
  unfold views_of, map_delete. induction l as [|[k x] rest IH]; [reflexivity|]. simpl.
  destruct (Nat.eqb k m) eqn:E; simpl; [exact IH|]. rewrite E. exact IH.
Qed.

Lemma map_get_delete m l : map_get m (map_delete m l) = None.
Proof.
  unfold map_delete. induction l as [|[k x] rest IH]; [reflexivity|]. simpl.
  destruct (Nat.eqb k m) eqn:E; simpl; [exact IH|]. rewrite E. exact IH.
Qed.

Lemma with_log_log s : with_log (log s) s = s.
Proof. destruct s; reflexivity. Qed.

(** [stepMonitors] and [step] only append to the effect log. *)
Lemma fold_launch_only_log L s :
  let r := fold_left (fun s m => if mon_visible (mon s m) then emit (Launch m) s else s) L s in
  r = with_log (log r) s.
Proof.
  revert s. induction L as [|m L IH]; intros s; simpl; [symmetry; apply with_log_log|].
  rewrite IH. destruct (mon_visible (mon s m)); [reflexivity|].
  cbv zeta. rewrite <- IH. rewrite IH at 1. reflexivity.
Qed.

Lemma step_only_log s : state_of (step s) = with_log (log (state_of (step s))) s.
Proof.
  unfold step. destruct (project s) as [P|] eqn:Ep; [|symmetry; apply with_log_log].
  unfold stepMonitors. simpl. rewrite Ep.
  destruct (negb (proj_has_stage P)); [reflexivity|]. simpl.
  rewrite fold_launch_only_log. simpl.
  destruct (stage s); reflexivity.
Qed.

Lemma Inv_step s : Inv s -> Inv (state_of (step s)).
Proof. intros H. rewrite step_only_log. apply Inv_with_log, H. Qed.

Lemma Inv_start s : Inv s -> Inv (state_of (start s)).
Proof.
  intros H. unfold start. destruct (steppingInterval s) as [h|] eqn:E; [exact H|].
  cbv zeta. simpl. apply Inv_step.
  assert (H1 : Inv (with_next (S (next_id s)) s)).
  { apply (Inv_change s); auto; simpl; auto. }
  destruct H1 as (I1 & I2 & I3 & I4 & I5).
  split; [|exact (conj I2 (conj I3 (conj I4 I5)))].
  unfold timers_inv in *. simpl in *. rewrite E in I1. rewrite I1. reflexivity.
Qed.

Lemma Inv_attachStage st s : Inv s -> Inv (attachStage st s).
Proof.
  intros H.
  assert (H1 : Inv (match unsetPreviousStage s with
                    | Some (r, a) =>
                        with_unset None (abort a (emit (DestroyRenderer r)
                          (with_stage None (emit (InterpSetRenderer None) s))))
                    | None => s end) /\
               unsetPreviousStage (match unsetPreviousStage s with
                    | Some (r, a) =>
                        with_unset None (abort a (emit (DestroyRenderer r)
                          (with_stage None (emit (InterpSetRenderer None) s))))
                    | None => s end) = None).
  { destruct (unsetPreviousStage s) as [[r a]|] eqn:U.
    - split; [|reflexivity].
      destruct H as (I1 & I2 & I3 & I4 & I5a & I5b). destruct (I5b r a U) as [Ha Hne].
      assert (HA : Inv (abort a (emit (DestroyRenderer r) (with_stage None (emit (InterpSetRenderer None) s))))).
      { apply Inv_abort; [exact (conj I1 (conj I2 (conj I3 (conj I4 (conj I5a I5b)))))|exact Ha|].
        intros P c E. exact (Hne P c E). }
      destruct HA as (A1 & A2 & A3 & A4 & A5a & A5b).
      split; [exact A1|]. split; [exact A2|]. split; [exact A3|]. split; [exact A4|].
      split; [exact A5a|]. intros r' a' E. discriminate.
    - split; [exact H|]. exact U. }
  unfold attachStage.
  set (s1 := match unsetPreviousStage s with
             | Some (r, a) =>
                 with_unset None (abort a (emit (DestroyRenderer r)
                   (with_stage None (emit (InterpSetRenderer None) s))))
             | None => s end) in H1.
  change (Inv (match st with
               | None => s1
               | Some n =>
                   let s := emit (NewRenderer n) s1 in
                   let s := emit (InterpSetRenderer (Some n)) s in
                   let '(a, s) := fresh s in
                   let s := with_stage (Some n) s in
                   with_unset (Some (n, a)) s
               end)).
  destruct H1 as [H1 U1]. destruct st as [n|]; [|exact H1].
  cbv zeta. simpl.
  assert (H2 : Inv (with_next (S (next_id s1)) s1)) by (apply (Inv_change s1); auto; simpl; auto).
  destruct H2 as (I1 & I2 & I3 & I4 & I5a & I5b).
  split; [exact I1|]. split; [exact I2|]. split; [exact I3|]. split; [exact I4|].
  split; [exact I5a|].
  intros r a E. simpl in E. injection E as <- <-. simpl. split; [lia|].
  intros P c U. destruct H1 as (_ & J2 & _). unfold project_inv in J2. rewrite U in J2. lia.
Qed.

Lemma Inv_fold_create p m L s :
  Inv s ->
  (forall l, In l L -> match l with
                       | CreateMonitorL p' c => p' = p ->
                           exists P, unregisterPreviousProject s = Some (P, c) /\ In m (monitors s (proj_id P))
                       | _ => True end) ->
  Inv (fold_left (fun s l => match l with
                             | CreateMonitorL p' c => if Nat.eqb p' p then handleMonitorCreated c m s else s
                             | _ => s
                             end) L s).
Proof.
  revert s. induction L as [|l L IH]; intros s H HL; simpl; [exact H|].
  assert (HL' : forall l', In l' L -> match l' with
                       | CreateMonitorL p' c => p' = p ->
                           exists P, unregisterPreviousProject s = Some (P, c) /\ In m (monitors s (proj_id P))
                       | _ => True end) by (intros l' Hl'; apply HL; right; exact Hl').
  destruct l as [p' c|m' c|v m' c]; try (apply IH; assumption).
  destruct (Nat.eqb p' p) eqn:E; [|apply IH; assumption].
  apply Nat.eqb_eq in E.
  destruct (frame_handleMonitorCreated c m s) as (A1 & A2 & _).
  apply IH.
  - apply Inv_handleMonitorCreated; [exact H|exact (HL _ (or_introl eq_refl) E)].
  - intros l' Hl'. specialize (HL' l' Hl'). destruct l'; auto. rewrite A1, A2. exact HL'.
Qed.

Lemma Inv_createMonitor p m r s : Inv s -> Inv (createMonitor p m r s).
Proof.
  intros H. unfold createMonitor.
  set (s0 := with_mon (upd (mon s) m r) (with_monitors (upd (monitors s) p (monitors s p ++ [m])) s)).
  assert (Hm : forall q m', In m' (monitors s q) -> In m' (monitors s0 q)).
  { intros q m' Hin. simpl. unfold upd. destruct (Nat.eqb q p) eqn:E; [|exact Hin].
    apply Nat.eqb_eq in E. subst q. apply in_or_app. left. exact Hin. }
  assert (H0 : Inv s0) by (apply (Inv_change s); auto; simpl; auto).
  apply Inv_fold_create; [exact H0|].
  intros l Hl. destruct l as [p' c|m' c|v m' c]; auto. intros ->.
  destruct H as (_ & _ & _ & I4 & _). destruct (I4 _ Hl) as [P [U ->]].
  exists P. split; [exact U|]. simpl. unfold upd. rewrite Nat.eqb_refl.
  apply in_or_app. right. left. reflexivity.
Qed.

Lemma map_get_set_other k m x l :
  k <> m -> map_get k (map_set m x l) = map_get k l.
Proof.
  intros Hne. unfold map_set. destruct (map_get m l) eqn:E.
  - clear E. induction l as [|[j y] rest IH]; [reflexivity|]. simpl.
    destruct (Nat.eqb j m) eqn:Ej; simpl.
    + apply Nat.eqb_eq in Ej. subst j.
      destruct (Nat.eqb m k) eqn:Ek; [apply Nat.eqb_eq in Ek; congruence|exact IH].
    + destruct (Nat.eqb j k); [reflexivity|exact IH].
  - induction l as [|[j y] rest IH]; simpl.
    + destruct (Nat.eqb m k) eqn:Ek; [apply Nat.eqb_eq in Ek; congruence|reflexivity].
    + simpl in E. destruct (Nat.eqb j m); [discriminate|].
      destruct (Nat.eqb j k); [reflexivity|exact (IH E)].
Qed.

Lemma keys_map_set_Some m x l :
  keys (map (fun e => if Nat.eqb (fst e) m then (m, x) else e) l) = keys l.
Proof.
  induction l as [|[j y] rest IH]; [reflexivity|]. simpl.
  destruct (Nat.eqb j m) eqn:E; simpl; rewrite IH; [apply Nat.eqb_eq in E; subst; reflexivity|reflexivity].
Qed.

Lemma map_get_None_notin m l : map_get m l = None -> ~ In m (keys l).
Proof.
  induction l as [|[j y] rest IH]; simpl; [auto|].
  destruct (Nat.eqb j m) eqn:E; [discriminate|]. intros H [H'|H'].
  - subst. rewrite Nat.eqb_refl in E. discriminate.
  - exact (IH H H').
Qed.

Lemma map_set_nodup m x l : NoDup (keys l) -> NoDup (keys (map_set m x l)).
Proof.
  intros H. unfold map_set. destruct (map_get m l) eqn:E.
  - rewrite keys_map_set_Some. exact H.
  - unfold keys. rewrite map_app. simpl. apply NoDup_app; auto.
    + constructor; [auto|constructor].
    + intros a Ha [<-|[]]. exact (map_get_None_notin _ _ E Ha).
Qed.

Lemma map_delete_nodup m l : NoDup (keys l) -> NoDup (keys (map_delete m l)).
Proof.
  induction l as [|[j y] rest IH]; simpl; [auto|]. intros H. inversion H as [|a b Hn Hd]; subst.
  destruct (Nat.eqb j m); simpl; [exact (IH Hd)|].
  constructor; [|exact (IH Hd)].
  intros Hin. apply Hn. unfold keys, map_delete in Hin. apply in_map_iff in Hin.
  destruct Hin as [e [He Hin]]. apply filter_In in Hin. apply in_map_iff. exists e. tauto.
Qed.

Lemma views_of_nodup_length m l : NoDup (keys l) -> List.length (views_of m l) <= 1.
Proof.
  induction l as [|[j y] rest IH]; simpl; [lia|]. intros H. inversion H as [|a b Hn Hd]; subst.
  unfold views_of. simpl. destruct (Nat.eqb j m) eqn:E; simpl.
  - apply Nat.eqb_eq in E. subst j.
    assert (filter (fun e => Nat.eqb (fst e) m) rest = []).
    { destruct (filter (fun e => Nat.eqb (fst e) m) rest) as [|e r] eqn:F; [reflexivity|].
      exfalso. assert (He : In e (filter (fun e => Nat.eqb (fst e) m) rest)) by (rewrite F; left; reflexivity).
      apply filter_In in He. destruct He as [He Hq]. apply Nat.eqb_eq in Hq.
      apply Hn. apply in_map_iff. exists e. auto. }
    rewrite H0. simpl. lia.
  - exact (IH Hd).
Qed.

Lemma removeMonitorView_views_eq m s :
  monitorViews (removeMonitorView m s) =
  match map_get m (monitorViews s) with None => monitorViews s | Some _ => map_delete m (monitorViews s) end.
Proof.
  unfold removeMonitorView. destruct (map_get m (monitorViews s)) as [[v a]|]; [|reflexivity].
  simpl. destruct (abort_fields a (emit (RemoveView v) s)) as (_&_&_&_&_&_&A7&_). rewrite A7. reflexivity.
Qed.

Lemma removeMonitorView_get_other k m s :
  k <> m -> map_get k (monitorViews (removeMonitorView m s)) = map_get k (monitorViews s).
Proof.
  intros H. rewrite removeMonitorView_views_eq. destruct (map_get m _); [apply map_get_delete_other, H|reflexivity].
Qed.

Lemma removeMonitorView_nodup m s :
  NoDup (keys (monitorViews s)) -> NoDup (keys (monitorViews (removeMonitorView m s))).
Proof.
  intros H. rewrite removeMonitorView_views_eq. destruct (map_get m _); [apply map_delete_nodup, H|exact H].
Qed.


Lemma fold_handleMonitorCreated_views c L s :
  monitorViews (fold_left (fun s m => handleMonitorCreated c m s) L s) = monitorViews s.
Proof.
  revert s. induction L as [|m L IH]; intros s; simpl; [reflexivity|].
  rewrite IH. unfold handleMonitorCreated. destruct (stage s); [|reflexivity].
  destruct (addEventListener_fields (UpdateMonitorL m c) s) as (_&_&_&_&_&_&A7&_). exact A7.
Qed.

Lemma remove_all_nodup L s :
  NoDup (keys (monitorViews s)) -> NoDup (keys (monitorViews (remove_all L s))).
Proof.
  unfold remove_all. revert s. induction L as [|m L IH]; intros s H; simpl; [exact H|].
  apply IH, removeMonitorView_nodup, H.
Qed.

Lemma teardown_nodup P c s :
  NoDup (keys (monitorViews s)) -> NoDup (keys (monitorViews (teardown P c s))).
Proof.
  intros H. rewrite teardown_unfold. cbv zeta.
  set (s3 := remove_all _ _).
  assert (H3 : NoDup (keys (monitorViews s3))).
  { apply remove_all_nodup. destruct (stop_fields (with_project None s)) as (_&_&_&_&_&A6&_).
    rewrite A6. exact H. }
  clearbody s3.
  set (s4 := match stage s3 with Some _ => emit PenClear s3 | None => s3 end).
  assert (H4 : monitorViews s4 = monitorViews s3) by (unfold s4; destruct (stage s3); reflexivity).
  clearbody s4. simpl.
  destruct (abort_fields c (emit (Unregister (proj_id P)) s4)) as (_&_&_&_&_&_&A7&_).
  rewrite A7. simpl. rewrite H4. exact H3.
Qed.

Lemma setProject_views p s :
  monitorViews (setProject p s) =
  monitorViews (match unregisterPreviousProject s with
                | Some (P0, c0) => with_unreg None (teardown P0 c0 s)
                | None => s
                end).
Proof.
  destruct p as [P|].
  - rewrite setProject_Some_eq. cbv zeta.
    set (s' := match unregisterPreviousProject s with
               | Some (P0, c0) => with_unreg None (teardown P0 c0 s)
               | None => s
               end).
    set (w := with_unreg _ _).
    change (monitorViews (fold_left (fun s m => handleMonitorCreated (next_id s') m s)
              (monitors s' (proj_id P)) (addEventListener (CreateMonitorL (proj_id P) (next_id s')) w)) =
            monitorViews s').
    rewrite fold_handleMonitorCreated_views.
    destruct (addEventListener_fields (CreateMonitorL (proj_id P) (next_id s')) w) as (_&_&_&_&_&_&A7&_).
    rewrite A7. reflexivity.
  - unfold setProject. destruct (unregisterPreviousProject s) as [[P0 c0]|]; reflexivity.
Qed.

Lemma setProject_nodup p s :
  NoDup (keys (monitorViews s)) -> NoDup (keys (monitorViews (setProject p s))).
Proof.
  intros H. rewrite setProject_views. destruct (unregisterPreviousProject s) as [[P0 c0]|].
  - apply teardown_nodup, H.
  - exact H.
Qed.

Lemma fold_handleMonitorCreated_nostage c L s :
  stage s = None -> fold_left (fun s m => handleMonitorCreated c m s) L s = s.
Proof.
  intros H. induction L as [|m L IH]; simpl; [reflexivity|].
  unfold handleMonitorCreated at 2. rewrite H. exact IH.
Qed.

Lemma setProject_nostage_no_update_listener P s :
  Inv s -> stage s = None ->
  forall m c, ~ In (UpdateMonitorL m c) (listeners (setProject (Some P) s)).
Proof.
  intros HI Hs m c Hin. destruct (Inv_cleared s HI) as [HC UC].
  destruct (Inv_cleared_fields s HI) as [ST _].
  rewrite setProject_Some_eq in Hin. cbv zeta in Hin.
  set (s' := match unregisterPreviousProject s with
             | Some (P0, c0) => with_unreg None (teardown P0 c0 s)
             | None => s
             end) in HC, UC, ST, Hin.
  clearbody s'.
  set (w := with_unreg _ _) in Hin.
  assert (Sw : stage w = None) by (unfold w; simpl; rewrite ST; exact Hs).
  assert (Lw : listeners w = listeners s') by reflexivity.
  clearbody w.
  destruct (addEventListener_fields (CreateMonitorL (proj_id P) (next_id s')) w) as (_&A2&_).
  rewrite fold_handleMonitorCreated_nostage in Hin by (rewrite A2; exact Sw).
  change (In (UpdateMonitorL m c) (listeners (addEventListener (CreateMonitorL (proj_id P) (next_id s')) w))) in Hin.
  unfold addEventListener in Hin. destruct existsb; simpl in Hin;
    [|apply in_app_or in Hin; destruct Hin as [Hin|[Hin|[]]]; [|discriminate]];
    rewrite Lw in Hin;
    destruct HC as (_&_&_&I4&_); destruct (I4 _ Hin) as [P' [U _]]; congruence.
Qed.

Section WithCollaborators.
Context (domToScratchKey : string -> option string).
Context (view_bounds : nat -> option nat) (view_layout : nat -> list nat -> nat).

Lemma Inv_handleMonitorUpdated m s :
  Inv s -> listened m s -> Inv (handleMonitorUpdated view_bounds view_layout m s).
Proof.
  intros H Hm. unfold handleMonitorUpdated.
  destruct (project s) as [P|]; [|exact H]. destruct (stage s); [|exact H].
  destruct (negb (mon_visible (mon s m))); [apply Inv_removeMonitorView; exact H|].
  destruct (map_get m (monitorViews s)) as [[v a]|] eqn:E.
  - cbn. destruct (mon_position (mon s m)); destruct (mon_color _); exact H.
  - cbn. set (s1 := addEventListener _ _).
    assert (H1 : Inv s1).
    { apply Inv_addEventListener; [|exact I].
      destruct Hm as (P0 & c & U & Hin).
      assert (Hc : c < next_id s).
      { destruct H as (_ & I2 & _). unfold project_inv in I2. rewrite U in I2. tauto. }
      apply (Inv_change s); auto; try (simpl; lia).
      - intros m' v' a' Hv. simpl in Hv. unfold map_set in Hv. rewrite E in Hv.
        apply in_app_or in Hv. destruct Hv as [Hv|[Hv|[]]]; [left; exact Hv|right].
        injection Hv as <- <- <-. exists P0, c. simpl. repeat split; auto; lia. }
    repeat match goal with
           | |- context [if ?b then _ else _] => destruct b
           | |- context [match ?x with Some _ => _ | None => _ end] => destruct x
           end; exact H1.
Qed.

Lemma frame_handleMonitorUpdated m s : frame s (handleMonitorUpdated view_bounds view_layout m s).
Proof.
  unfold handleMonitorUpdated.
  destruct (project s) as [P|]; [|apply frame_refl]. destruct (stage s); [|apply frame_refl].
  destruct (negb (mon_visible (mon s m))); [apply frame_removeMonitorView|].
  destruct (map_get m (monitorViews s)) as [[v a]|].
  - cbn. destruct (mon_position (mon s m)); destruct (mon_color _); repeat split.
  - cbn. set (s1 := addEventListener _ _).
    assert (H1 : frame s s1).
    { destruct (frame_addEventListener (SliderChangeL (next_id s) m (S (next_id s)))
         (with_views (map_set m (next_id s, S (next_id s)) (monitorViews s))
           (with_next (S (S (next_id s))) (emit (CreateView (next_id s)) (with_next (S (next_id s)) s)))))
        as (A1&A2&A3&A4&A5&A6&A7).
      repeat split; assumption. }
    repeat match goal with
           | |- context [if ?b then _ else _] => destruct b
           | |- context [match ?x with Some _ => _ | None => _ end] => destruct x
           end; destruct H1 as (A1&A2&A3&A4&A5&A6&A7); repeat split; assumption.
Qed.

Lemma listened_frame m s s' : frame s s' -> listened m s -> listened m s'.
Proof.
  intros (A1&A2&_) (P & c & U & Hin). exists P, c. rewrite A1, A2. auto.
Qed.

Lemma Inv_dispatch_fold m L s :
  Inv s ->
  (forall l, In l L -> match l with UpdateMonitorL m' _ => m' = m -> listened m s | _ => True end) ->
  Inv (fold_left (fun s l => match l with
                             | UpdateMonitorL m' _ =>
                                 if Nat.eqb m' m then handleMonitorUpdated view_bounds view_layout m s else s
                             | _ => s
                             end) L s).
Proof.
  revert s. induction L as [|l L IH]; intros s H HL; simpl; [exact H|].
  assert (HL' : forall l', In l' L -> match l' with UpdateMonitorL m' _ => m' = m -> listened m s | _ => True end)
    by (intros l' Hl'; apply HL; right; exact Hl').
  destruct l as [p c|m' c|v m' c]; try (apply IH; assumption).
  destruct (Nat.eqb m' m) eqn:E; [|apply IH; assumption].
  apply Nat.eqb_eq in E.
  assert (Hm : listened m s) by exact (HL _ (or_introl eq_refl) E).
  apply IH.
  - apply Inv_handleMonitorUpdated; assumption.
  - intros l' Hl'. specialize (HL' l' Hl'). destruct l'; auto.
    intros Heq. apply (listened_frame m s); [apply frame_handleMonitorUpdated|exact (HL' Heq)].
Qed.

Lemma Inv_dispatchUpdateMonitor m s :
  Inv s -> Inv (dispatchUpdateMonitor view_bounds view_layout m s).
Proof.
  intros H. unfold dispatchUpdateMonitor. apply Inv_dispatch_fold; [exact H|].
  intros l Hl. destruct l as [p c|m' c|v m' c]; auto.
  intros ->. destruct H as (_ & _ & _ & I4 & _).
  destruct (I4 _ Hl) as [P [U Hin]]. exists P, c. auto.
Qed.

Lemma Inv_exec o s : Inv s -> Inv (exec domToScratchKey view_bounds view_layout o s).
Proof.
  intros H. destruct o as [p|st|p m r|m b|m| | | |k|k]; simpl.
  - apply Inv_setProject, H.
  - apply Inv_attachStage, H.
  - apply Inv_createMonitor, H.
  - exact H.
  - apply Inv_dispatchUpdateMonitor, H.
  - apply Inv_start, H.
  - apply Inv_stop, H.
  - destruct (steppingInterval s); [apply Inv_step, H|exact H].
  - destruct (unsetPreviousStage s); [|exact H].
    unfold onKeydown. destruct (domToScratchKey k); exact H.
  - destruct (unsetPreviousStage s); [|exact H].
    unfold onKeyup. destruct (domToScratchKey k); exact H.
Qed.

Lemma Inv_init : Inv init.
Proof.
  split; [reflexivity|]. split; [reflexivity|]. split; [intros m v a []|].
  split; [intros l []|]. split; [intros x []|]. intros r a E. discriminate.
Qed.

Lemma Inv_run ops s : Inv s -> Inv (run domToScratchKey view_bounds view_layout ops s).
Proof.
  unfold run. revert s. induction ops as [|o ops IH]; intros s H; simpl; [exact H|].
  apply IH, Inv_exec, H.
Qed.

Lemma Inv_reachable ops : Inv (run domToScratchKey view_bounds view_layout ops init).
Proof. apply Inv_run, Inv_init. Qed.

(** Handling the update of a visible monitor that has no view: one view
    is created, tracked with a new controller, and only updated after. *)
Lemma handleMonitorUpdated_creates m s P st :
  project s = Some P -> stage s = Some st -> mon_visible (mon s m) = true ->
  map_get m (monitorViews s) = None ->
  let r := handleMonitorUpdated view_bounds view_layout m s in
  monitorViews r = monitorViews s ++ [(m, (next_id s, S (next_id s)))] /\
  aborted r = aborted s /\ next_id r = S (S (next_id s)) /\
  project r = project s /\ stage r = stage s /\
  (forall l, In l (listeners r) -> In l (listeners s) \/ listener_signal l = S (next_id s)) /\
  exists l, log r = log s ++ CreateView (next_id s) :: l /\
    forall e, In e l -> exists v m', e = UpdateView v m' \/ e = SetColor v.
Proof.
  intros Hp Hs Hv Hg. unfold handleMonitorUpdated. rewrite Hp, Hs, Hv. simpl negb. cbv iota.
  rewrite Hg. unfold fresh. cbv beta iota zeta.
  set (s1 := addEventListener _ _).
  set (v := next_id s).
  assert (F : project s1 = project s /\ stage s1 = stage s /\
              monitorViews s1 = monitorViews s ++ [(m, (v, S v))] /\
              next_id s1 = S (S v) /\ aborted s1 = aborted s /\
              log s1 = log s ++ [CreateView v] /\
              (forall l, In l (listeners s1) -> In l (listeners s) \/ listener_signal l = S v)).
  { unfold s1, addEventListener. simpl. unfold map_set. rewrite Hg.
    destruct existsb; simpl; (split; [reflexivity|]); (split; [reflexivity|]);
      (split; [reflexivity|]); (split; [reflexivity|]); (split; [reflexivity|]);
      (split; [reflexivity|]); intros l Hl; [left; exact Hl|].
    apply in_app_or in Hl. destruct Hl as [H|[<-|[]]]; [left; exact H|right; reflexivity]. }
  destruct F as (F1 & F2 & F7 & F11 & F12 & F13 & L1).
  assert (G : forall s2, monitorViews s2 = monitorViews s1 -> aborted s2 = aborted s1 ->
            next_id s2 = next_id s1 -> project s2 = project s1 -> stage s2 = stage s1 ->
            listeners s2 = listeners s1 ->
            (exists l, log s2 = log s1 ++ l /\ forall e, In e l -> exists v m', e = UpdateView v m' \/ e = SetColor v) ->
            monitorViews s2 = monitorViews s ++ [(m, (v, S v))] /\
            aborted s2 = aborted s /\ next_id s2 = S (S v) /\ project s2 = Some P /\ stage s2 = Some st /\
            (forall l, In l (listeners s2) -> In l (listeners s) \/ listener_signal l = S v) /\
            exists l, log s2 = log s ++ CreateView v :: l /\
              forall e, In e l -> exists v m', e = UpdateView v m' \/ e = SetColor v).
  { intros s2 E1 E2 E3 E4 E5 E6 [l [El Hl]].
    rewrite E1, E2, E3, E4, E5, E6, F7, F12, F11, F1, F2.
    split; [reflexivity|]. split; [reflexivity|]. split; [reflexivity|].
    split; [exact Hp|]. split; [exact Hs|]. split; [exact L1|].
    exists l. rewrite El, F13. split; [rewrite <- app_assoc; reflexivity|exact Hl]. }
  repeat match goal with
         | |- context [match ?x with Some _ => _ | None => _ end] => destruct x
         | |- context [if ?b then _ else _] => destruct b
         end;
    apply G; try reflexivity;
    (eexists; split; [simpl; rewrite <- ?app_assoc; reflexivity|]);
    intros e He; simpl in He;
    repeat (destruct He as [He|He];
            [subst e; first [eexists _, _; left; reflexivity|exists v, 0; right; reflexivity]|]);
    destruct He.
Qed.

Lemma fold_launch_log L s :
  exists ls,
    log (fold_left (fun s m => if mon_visible (mon s m) then emit (Launch m) s else s) L s) =
    log s ++ ls /\ forall e, In e ls -> exists m, e = Launch m.
Proof.
  revert s. induction L as [|m L IH]; intros s; simpl.
  - exists []. rewrite app_nil_r. split; [reflexivity|intros e []].
  - destruct (mon_visible (mon s m)).
    + destruct (IH (emit (Launch m) s)) as [ls [H1 H2]]. exists (Launch m :: ls).
      rewrite H1. simpl. rewrite <- app_assoc. split; [reflexivity|].
      intros e [<-|He]; [exists m; reflexivity|exact (H2 e He)].
    + exact (IH s).
Qed.

(** C2: one tick appends [stepThreads], then the monitors' update launches,
    then the draw (when a renderer is attached), in this order; a tick that
    throws has stepped the threads at most and launched and drawn nothing. *)
Theorem step_phase_order s :
  match step s with
  | Normal s' =>
      exists launches,
        log s' = log s ++ [StepThreads] ++ launches ++
                 (match stage s with Some _ => [Draw] | None => [] end) /\
        forall e, In e launches -> exists m, e = Launch m
  | Thrown _ s' => log s' = log s \/ log s' = log s ++ [StepThreads]
  end.
Proof.
  unfold step. destruct (project s) as [P|] eqn:Ep; [|left; reflexivity].
  unfold stepMonitors. simpl. rewrite Ep.
  destruct (negb (proj_has_stage P)); [right; reflexivity|].
  set (r := fold_left _ _ (emit StepThreads s)).
  destruct (fold_launch_log (monitors s (proj_id P)) (emit StepThreads s)) as [ls [H1 H2]].
  fold r in H1.
  assert (Hst : stage r = stage s) by (unfold r; rewrite fold_launch_only_log; reflexivity).
  exists ls. split; [|exact H2].
  rewrite Hst. destruct (stage s); simpl; rewrite H1; simpl;
    repeat rewrite <- app_assoc; simpl; try rewrite app_nil_r; reflexivity.
Qed.

(** C7: a tick with no project bound throws 'Cannot step without a
    project' and changes nothing; with a bound project that has no stage
    target, [stepMonitors] throws 'Project has no stage', and so does the
    tick, after stepping the threads and before launching or drawing. *)
Theorem step_precondition_violations_throw s :
  (project s = None -> step s = Thrown "Cannot step without a project" s) /\
  (forall P, project s = Some P -> proj_has_stage P = false ->
     stepMonitors s = Thrown "Project has no stage" s /\
     step s = Thrown "Project has no stage" (emit StepThreads s)).
Proof.
  split.
  - intros Ep. unfold step. rewrite Ep. reflexivity.
  - intros P Ep Hs. unfold step, stepMonitors. simpl. rewrite Ep, Hs. split; reflexivity.
Qed.

(** C8: with a key translation [domToScratchKey], pressing then releasing
    a recognised key that was not held leaves [keysDown] as before the
    press; an unrecognised key leaves the runtime unchanged (no
    [preventDefault], no hat started, no key recorded). *)
Theorem key_roundtrip_when_not_held key k s :
  domToScratchKey key = Some k -> ~ In k (keysDown s) ->
  keysDown (onKeyup domToScratchKey key (onKeydown domToScratchKey key s)) = keysDown s /\
  (forall key' s', domToScratchKey key' = None ->
     onKeydown domToScratchKey key' s' = s' /\ onKeyup domToScratchKey key' s' = s').
Proof.
  intros Hk Hn. split.
  - unfold onKeyup, onKeydown. rewrite Hk. simpl.
    unfold set_add, set_delete.
    destruct (existsb (String.eqb k) (keysDown s)) eqn:E.
    + exfalso. apply existsb_exists in E. destruct E as [x [Hx Hx']].
      apply String.eqb_eq in Hx'. subst x. contradiction.
    + rewrite filter_app. simpl. rewrite String.eqb_refl. simpl. rewrite app_nil_r.
      clear E. induction (keysDown s) as [|x l IH]; [reflexivity|]. simpl.
      destruct (String.eqb x k) eqn:Ex.
      * apply String.eqb_eq in Ex. subst x. exfalso. apply Hn. left. reflexivity.
      * simpl. f_equal. apply IH. intros H. apply Hn. right. exact H.
  - intros key' s' H. unfold onKeydown, onKeyup. rewrite H. split; reflexivity.
Qed.

Lemma handleMonitorUpdated_views m s :
  (forall k, k <> m ->
     map_get k (monitorViews (handleMonitorUpdated view_bounds view_layout m s)) = map_get k (monitorViews s)) /\
  (NoDup (keys (monitorViews s)) ->
     NoDup (keys (monitorViews (handleMonitorUpdated view_bounds view_layout m s)))).
Proof.
  unfold handleMonitorUpdated.
  destruct (project s) as [P|]; [|split; auto]. destruct (stage s); [|split; auto].
  destruct (negb (mon_visible (mon s m))).
  { split; [intros k Hk; apply removeMonitorView_get_other, Hk|apply removeMonitorView_nodup]. }
  destruct (map_get m (monitorViews s)) as [[v a]|] eqn:E.
  - cbn. destruct (mon_position (mon s m)); destruct (mon_color _); split; auto.
  - cbn. set (s1 := addEventListener _ _).
    assert (V1 : monitorViews s1 = map_set m (next_id s, S (next_id s)) (monitorViews s)).
    { unfold s1. destruct (addEventListener_fields (SliderChangeL (next_id s) m (S (next_id s)))
         (with_views (map_set m (next_id s, S (next_id s)) (monitorViews s))
           (with_next (S (S (next_id s))) (emit (CreateView (next_id s)) (with_next (S (next_id s)) s)))))
        as (_&_&_&_&_&_&A7&_). rewrite A7. reflexivity. }
    clearbody s1.
    assert (G : (forall k, k <> m -> map_get k (monitorViews s1) = map_get k (monitorViews s)) /\
                (NoDup (keys (monitorViews s)) -> NoDup (keys (monitorViews s1)))).
    { rewrite V1. split; [intros k Hk; apply map_get_set_other, Hk|apply map_set_nodup]. }
    repeat match goal with
           | |- context [if ?b then _ else _] => destruct b
           | |- context [match ?x with Some _ => _ | None => _ end] => destruct x
           end; exact G.
Qed.

Lemma handleMonitorUpdated_no_surface m s :
  project s = None \/ stage s = None -> handleMonitorUpdated view_bounds view_layout m s = s.
Proof.
  intros [H|H]; unfold handleMonitorUpdated; rewrite H; [reflexivity|]. destruct (project s); reflexivity.
Qed.

Lemma dispatch_fold_views m L s :
  (forall k, k <> m ->
     map_get k (monitorViews (fold_left (fun s l => match l with
        | UpdateMonitorL m' _ => if Nat.eqb m' m then handleMonitorUpdated view_bounds view_layout m s else s
        | _ => s end) L s)) = map_get k (monitorViews s)) /\
  (NoDup (keys (monitorViews s)) ->
     NoDup (keys (monitorViews (fold_left (fun s l => match l with
        | UpdateMonitorL m' _ => if Nat.eqb m' m then handleMonitorUpdated view_bounds view_layout m s else s
        | _ => s end) L s)))).
Proof.
  revert s. induction L as [|l L IH]; intros s; simpl; [split; auto|].
  destruct l as [p c|m' c|v m' c]; try apply IH.
  destruct (Nat.eqb m' m); [|apply IH].
  destruct (IH (handleMonitorUpdated view_bounds view_layout m s)) as [A B].
  destruct (handleMonitorUpdated_views m s) as [C D].
  split; [intros k Hk; rewrite A, C by exact Hk; reflexivity|intros H; apply B, D, H].
Qed.

Lemma dispatch_fold_no_surface m L s :
  project s = None \/ stage s = None ->
  fold_left (fun s l => match l with
        | UpdateMonitorL m' _ => if Nat.eqb m' m then handleMonitorUpdated view_bounds view_layout m s else s
        | _ => s end) L s = s.
Proof.
  intros H. induction L as [|l L IH]; simpl; [reflexivity|].
  destruct l as [p c|m' c|v m' c]; try exact IH.
  destruct (Nat.eqb m' m); [|exact IH]. rewrite handleMonitorUpdated_no_surface by exact H. exact IH.
Qed.

Lemma dispatchUpdateMonitor_no_surface m s :
  project s = None \/ stage s = None -> dispatchUpdateMonitor view_bounds view_layout m s = s.
Proof. intros H. unfold dispatchUpdateMonitor. apply dispatch_fold_no_surface, H. Qed.



Lemma createMonitor_views p m r s :
  monitorViews (createMonitor p m r s) = monitorViews s.
Proof.
  unfold createMonitor. set (s1 := with_mon _ _).
  transitivity (monitorViews s1); [|reflexivity]. generalize (listeners s1). clearbody s1.
  intros L. revert s1. induction L as [|l L IH]; intros s1; simpl; [reflexivity|].
  rewrite IH. destruct l as [p' c|m' c|v m' c]; try reflexivity.
  destruct (Nat.eqb p' p); [|reflexivity]. unfold handleMonitorCreated. destruct (stage s1); [|reflexivity].
  destruct (addEventListener_fields (UpdateMonitorL m c) s1) as (_&_&_&_&_&_&A7&_). exact A7.
Qed.

Lemma attachStage_views st s : monitorViews (attachStage st s) = monitorViews s.
Proof.
  unfold attachStage. destruct (unsetPreviousStage s) as [[r a]|].
  - destruct st; simpl; rewrite (proj1 (proj2 (proj2 (proj2 (proj2 (proj2 (proj2 (abort_fields _ _)))))))); reflexivity.
  - destruct st; reflexivity.
Qed.

Lemma start_views s : monitorViews (state_of (start s)) = monitorViews s.
Proof.
  unfold start. destruct (steppingInterval s); [reflexivity|]. simpl.
  rewrite step_only_log. reflexivity.
Qed.

Lemma exec_views o s :
  (forall p, o <> OpSetProject p) -> (forall m', o <> OpUpdateMonitor m') ->
  monitorViews (exec domToScratchKey view_bounds view_layout o s) = monitorViews s.
Proof.
  intros H1 H2. destruct o as [p|st|p m r|m b|m| | | |k|k]; simpl.
  - exfalso. exact (H1 p eq_refl).
  - apply attachStage_views.
  - apply createMonitor_views.
  - reflexivity.
  - exfalso. exact (H2 m eq_refl).
  - apply start_views.
  - apply stop_fields.
  - destruct (steppingInterval s); [rewrite step_only_log|]; reflexivity.
  - destruct (unsetPreviousStage s); [|reflexivity]. unfold onKeydown. destruct (domToScratchKey k); reflexivity.
  - destruct (unsetPreviousStage s); [|reflexivity]. unfold onKeyup. destruct (domToScratchKey k); reflexivity.
Qed.


Lemma exec_nodup o s :
  NoDup (keys (monitorViews s)) ->
  NoDup (keys (monitorViews (exec domToScratchKey view_bounds view_layout o s))).
Proof.
  intros H. destruct o as [p|st|p m r|m b|m| | | |k|k];
    try (rewrite exec_views; [exact H|intros p' E; discriminate|intros m' E; discriminate]).
  - apply setProject_nodup, H.
  - apply (dispatch_fold_views m), H.
Qed.

Lemma reachable_nodup ops :
  NoDup (keys (monitorViews (run domToScratchKey view_bounds view_layout ops init))).
Proof.
  assert (G : forall s, NoDup (keys (monitorViews s)) ->
              NoDup (keys (monitorViews (run domToScratchKey view_bounds view_layout ops s)))).
  { unfold run. induction ops as [|o ops IH]; intros s H; simpl; [exact H|]. apply IH, exec_nodup, H. }
  apply G. constructor.
Qed.

Lemma exec_get_keep m o s :
  (forall p, o <> OpSetProject p) ->
  (o = OpUpdateMonitor m -> project s = None \/ stage s = None) ->
  map_get m (monitorViews (exec domToScratchKey view_bounds view_layout o s)) = map_get m (monitorViews s).
Proof.
  intros H1 H2. destruct o as [p|st|p m0 r|m0 b|m0| | | |k|k];
    try (rewrite exec_views; [reflexivity|intros p' E; discriminate|intros m' E; discriminate]).
  - exfalso. exact (H1 p eq_refl).
  - simpl. destruct (Nat.eq_dec m0 m) as [->|Hne].
    + rewrite dispatchUpdateMonitor_no_surface by exact (H2 eq_refl). reflexivity.
    + apply (dispatch_fold_views m0). intros E. apply Hne. symmetry. exact E.
Qed.

Lemma run_views_persist m ops s :
  map_get m (monitorViews (run domToScratchKey view_bounds view_layout ops s)) <> map_get m (monitorViews s) ->
  exists pre o post, ops = pre ++ o :: post /\
    map_get m (monitorViews (run domToScratchKey view_bounds view_layout pre s)) = map_get m (monitorViews s) /\
    ((exists p, o = OpSetProject p) \/
     (o = OpUpdateMonitor m /\ project (run domToScratchKey view_bounds view_layout pre s) <> None /\
      stage (run domToScratchKey view_bounds view_layout pre s) <> None)).
Proof.
  revert s. induction ops as [|o ops IH]; intros s Hd; [contradiction|].
  assert (Brk : (exists p, o = OpSetProject p) \/
                (o = OpUpdateMonitor m /\ project s <> None /\ stage s <> None) \/
                ((forall p, o <> OpSetProject p) /\
                 (o = OpUpdateMonitor m -> project s = None \/ stage s = None))).
  { destruct o as [p|st|p m0 r|m0 b|m0| | | |k|k];
      try (right; right; split; [intros p' E; discriminate|intros E; discriminate]).
    - left. exists p. reflexivity.
    - destruct (Nat.eq_dec m0 m) as [->|Hne].
      + destruct (project s) eqn:Ep; [destruct (stage s) eqn:Es|].
        * right; left. split; [reflexivity|split; congruence].
        * right; right. split; [intros p' E; discriminate|intros _; right; reflexivity].
        * right; right. split; [intros p' E; discriminate|intros _; left; reflexivity].
      + right; right. split; [intros p' E; discriminate|intros E; injection E as E; contradiction]. }
  destruct Brk as [Brk|[Brk|[K1 K2]]].
  - exists [], o, ops. split; [reflexivity|]. split; [reflexivity|]. left. exact Brk.
  - exists [], o, ops. split; [reflexivity|]. split; [reflexivity|]. right. exact Brk.
  - pose proof (exec_get_keep m o s K1 K2) as Hk.
    destruct (IH (exec domToScratchKey view_bounds view_layout o s)) as (pre & o' & post & E & G & B).
    { change (map_get m (monitorViews (run domToScratchKey view_bounds view_layout ops
               (exec domToScratchKey view_bounds view_layout o s))) <> map_get m (monitorViews s)) in Hd.
      rewrite Hk. exact Hd. }
    exists (o :: pre), o', post. split; [rewrite E; reflexivity|].
    split; [rewrite <- Hk; exact G|exact B].
Qed.

(** C10: with no project bound or no stage attached, handling a monitor's
    update changes nothing, and neither does dispatching it to the
    monitor's listeners: no view is created, an existing view is not
    removed and its controller is not aborted, even when the monitor is
    no longer visible. So the (view, controller) entry tracked for a
    monitor [m] persists along any sequence of operations until a
    [setProject] (which unregisters the bound project) or an update of
    [m] handled while a project is bound and a stage is attached: if the
    entry differs at the end, the first operation that changed it is one
    of these two. *)
Theorem handleMonitorUpdated_noop_without_surface m :
  (forall s, project s = None \/ stage s = None ->
     handleMonitorUpdated view_bounds view_layout m s = s) /\
  (forall s, project s = None \/ stage s = None ->
     dispatchUpdateMonitor view_bounds view_layout m s = s) /\
  (forall ops s,
     map_get m (monitorViews (run domToScratchKey view_bounds view_layout ops s)) <>
     map_get m (monitorViews s) ->
     exists pre o post, ops = pre ++ o :: post /\
       map_get m (monitorViews (run domToScratchKey view_bounds view_layout pre s)) =
       map_get m (monitorViews s) /\
       ((exists p, o = OpSetProject p) \/
        (o = OpUpdateMonitor m /\ project (run domToScratchKey view_bounds view_layout pre s) <> None /\
         stage (run domToScratchKey view_bounds view_layout pre s) <> None))).
Proof.
  split; [|split].
  - intros s [H|H]; unfold handleMonitorUpdated; rewrite H; [reflexivity|].
    destruct (project s); reflexivity.
  - intros s H. apply dispatchUpdateMonitor_no_surface, H.
  - intros ops s H. apply run_views_persist, H.
Qed.

(** C6: [start()] while the loop is running (an interval is set) is a
    no-op, from any state; in a reachable runtime whose loop is running
    exactly one timer is active. From a reachable runtime whose loop is
    stopped, [start()] sets one interval timer [h] and runs exactly one
    [step] right away; calling [start()] again is a no-op (still one
    timer, no further tick). [stop()] while the loop is not running is a
    no-op, from any state. *)
Theorem start_single_timer_and_tick ops :
  (forall s', steppingInterval s' <> None -> start s' = Normal s') /\
  (forall h', steppingInterval (run domToScratchKey view_bounds view_layout ops init) = Some h' ->
     timers (run domToScratchKey view_bounds view_layout ops init) = [h']) /\
  (forall s', steppingInterval s' = None -> stop s' = s') /\
  let s := run domToScratchKey view_bounds view_layout ops init in
  steppingInterval s = None ->
  let h := next_id s in
  let s1 := with_interval (Some h) (with_timers [h] (emit (StartTimer h) (with_next (S h) s))) in
  start s = step s1 /\
  steppingInterval (state_of (start s)) = Some h /\ timers (state_of (start s)) = [h] /\
  start (state_of (start s)) = Normal (state_of (start s)) /\
  stop s = s.
Proof.
  split; [|split; [|split]].
  - intros s' H. unfold start. destruct (steppingInterval s'); [reflexivity|contradiction].
  - intros h' H. destruct (Inv_reachable ops) as (I1 & _). unfold timers_inv in I1.
    rewrite H in I1. exact I1.
  - intros s' H. unfold stop. rewrite H. reflexivity.
  - intros s Hn h s1.
    destruct (Inv_reachable ops) as (I1 & _). fold s in I1. unfold timers_inv in I1. rewrite Hn in I1.
    assert (E : start s = step s1).
    { unfold start. rewrite Hn. simpl. rewrite I1. reflexivity. }
    assert (F : steppingInterval (state_of (start s)) = Some h /\ timers (state_of (start s)) = [h]).
    { rewrite E, step_only_log. split; reflexivity. }
    split; [exact E|]. split; [exact (proj1 F)|]. split; [exact (proj2 F)|]. split.
    + unfold start at 1. rewrite (proj1 F). reflexivity.
    + unfold stop. rewrite Hn. reflexivity.
Qed.

(** C1: in a reachable runtime at most one teardown is pending, and only
    for the bound project. [setProject(p)] first runs that teardown in
    full and only then binds [p]: the teardown stops the loop, removes
    every tracked monitor view (view removed, its controller aborted, the
    map emptied), clears the pen layer when a renderer exists, unregisters
    the project, aborts the project's controller (no listener of it is
    left) and unsets the interpreter's project, in this order. Afterwards
    only the new project's teardown is pending. *)
Theorem setProject_tears_down_previous_first ops p :
  let s := run domToScratchKey view_bounds view_layout ops init in
  match unregisterPreviousProject s with
  | None => project s = None /\ monitorViews s = []
  | Some (P0, c0) =>
      project s = Some P0 /\
      let t := teardown P0 c0 s in
      setProject p s = setProject p (with_unreg None t) /\
      project t = None /\ steppingInterval t = None /\ timers t = [] /\ monitorViews t = [] /\
      (forall m v a, map_get m (monitorViews s) = Some (v, a) ->
         In (RemoveView v) (log t) /\ In a (aborted t)) /\
      (stage s <> None -> In PenClear (log t)) /\
      In c0 (aborted t) /\ (forall l, In l (listeners t) -> listener_signal l <> c0) /\
      (exists l, log t = log s ++ l ++ [Unregister (proj_id P0); AbortCtl c0; InterpSetProject None])
  end /\
  match p with
  | None => unregisterPreviousProject (setProject p s) = None
  | Some P => exists c, unregisterPreviousProject (setProject p s) = Some (P, c)
  end.
Proof.
  intros s. pose proof (Inv_reachable ops) as HI. fold s in HI.
  split.
  - destruct (unregisterPreviousProject s) as [[P0 c0]|] eqn:U.
    + pose proof HI as (_ & I2 & _). unfold project_inv in I2. rewrite U in I2.
      destruct (teardown_spec P0 c0 s HI U) as
        (T1 & T2 & T3 & T4 & _ & _ & _ & _ & _ & T10 & _ & T12 & T13 & T14 & T15).
      split; [exact (proj1 I2)|]. cbv zeta.
      split; [unfold setProject at 1; rewrite U; reflexivity|].
      do 4 (split; [assumption|]). split; [exact T13|]. split; [exact T14|].
      split; [exact T12|]. split; [intros l Hl; exact (proj2 (T10 l Hl))|exact T15].
    + pose proof HI as (_ & I2 & I3 & _). unfold project_inv in I2. rewrite U in I2.
      split; [exact I2|]. destruct (monitorViews s) as [|[m [v a]] rest] eqn:E; [reflexivity|].
      exfalso. destruct (I3 m v a) as (P & c & U' & _); [rewrite E; left; reflexivity|congruence].
  - rewrite setProject_unreg. destruct p as [P|]; [eexists; reflexivity|reflexivity].
Qed.

(** C9: binding a project while a stage is attached registers, with the
    project's controller [c], the 'createmonitor' listener and, for every
    monitor the project already has, the same 'updatemonitor' listener
    that a monitor created later receives. Binding a project while no
    stage is attached registers the 'createmonitor' listener only: no
    monitor has an 'updatemonitor' listener afterwards, so an update of
    any monitor, already present or not, then changes nothing. *)
Theorem setProject_registers_existing_monitors ops P :
  let s := run domToScratchKey view_bounds view_layout ops init in
  let s' := setProject (Some P) s in
  (stage s <> None ->
   exists c,
     unregisterPreviousProject s' = Some (P, c) /\
     In (CreateMonitorL (proj_id P) c) (listeners s') /\
     (forall m, In m (monitors s (proj_id P)) -> In (UpdateMonitorL m c) (listeners s')) /\
     (forall m r, In (UpdateMonitorL m c) (listeners (createMonitor (proj_id P) m r s')))) /\
  (stage s = None ->
   exists c,
     unregisterPreviousProject s' = Some (P, c) /\
     In (CreateMonitorL (proj_id P) c) (listeners s') /\
     (forall m c', ~ In (UpdateMonitorL m c') (listeners s')) /\
     (forall m, dispatchUpdateMonitor view_bounds view_layout m s' = s')).
Proof.
  intros s s'. pose proof (Inv_reachable ops) as HI. fold s in HI.
  destruct (Inv_cleared s HI) as [HC UC]. destruct (Inv_cleared_fields s HI) as [ST MO].
  set (cl := match unregisterPreviousProject s with
             | Some (P0, c0) => with_unreg None (teardown P0 c0 s)
             | None => s
             end) in HC, UC, ST, MO.
  pose proof HC as (_ & _ & _ & _ & I5a & _).
  set (c := next_id cl).
  assert (Hc : ~ In c (aborted cl)) by (intros H; specialize (I5a c H); unfold c in I5a; lia).
  set (w := with_unreg (Some (P, c))
              (with_next (S c) (emit (InterpSetProject (Some (proj_id P))) (with_project (Some P) cl)))).
  set (a1 := addEventListener (CreateMonitorL (proj_id P) c) w).
  assert (A1 : listeners a1 = listeners w ++ [CreateMonitorL (proj_id P) c]).
  { apply addEventListener_adds. simpl. destruct existsb eqn:E; [|reflexivity].
    exfalso. apply existsb_exists in E. destruct E as [x [Hx Hx']].
    apply Nat.eqb_eq in Hx'. simpl in Hx'. subst. contradiction. }
  destruct (addEventListener_fields (CreateMonitorL (proj_id P) c) w)
    as (_&F2&_&_&_&_&_&F8&_&_&_&F12&_). fold a1 in F2, F8, F12.
  assert (E : s' = emit (Register (proj_id P))
                     (fold_left (fun s m => handleMonitorCreated c m s) (monitors cl (proj_id P)) a1))
    by (unfold s'; rewrite setProject_Some_eq; reflexivity).
  split.
  { intros Hs.
    destruct (fold_handleMonitorCreated_spec c (monitors cl (proj_id P)) a1) as (R1 & R2 & R3);
      [rewrite F2; simpl; rewrite ST; exact Hs|rewrite F12; exact Hc|].
    assert (Lc : In (CreateMonitorL (proj_id P) c) (listeners s')).
    { rewrite E. apply R1. rewrite A1. apply in_or_app. right. left. reflexivity. }
    exists c. split; [unfold s'; rewrite setProject_unreg; reflexivity|].
    split; [exact Lc|]. split.
    - intros m Hm. rewrite E. apply R2. rewrite MO. exact Hm.
    - intros m r. unfold createMonitor. apply fold_create_adds.
      + change (stage s' <> None). rewrite E. simpl.
        destruct (frame_fold_handleMonitorCreated c (monitors cl (proj_id P)) a1) as (_&_&_&B4&_).
        rewrite B4, F2. simpl. rewrite ST. exact Hs.
      + change (~ In c (aborted s')). rewrite E. simpl. rewrite R3, F12. exact Hc.
      + exact Lc.
  }
  intros Hs. rewrite (fold_handleMonitorCreated_nostage c (monitors cl (proj_id P)) a1) in E
    by (rewrite F2; simpl; rewrite ST; exact Hs).
  assert (Lc : In (CreateMonitorL (proj_id P) c) (listeners s')).
  { rewrite E. change (In (CreateMonitorL (proj_id P) c) (listeners a1)). rewrite A1.
    apply in_or_app. right. left. reflexivity. }
  assert (NU : forall m c', ~ In (UpdateMonitorL m c') (listeners s'))
    by (apply setProject_nostage_no_update_listener; assumption).
  exists c. split; [unfold s'; rewrite setProject_unreg; reflexivity|].
  split; [exact Lc|]. split; [exact NU|].
  intros m. unfold dispatchUpdateMonitor.
  assert (G : forall L x, (forall m' c', ~ In (UpdateMonitorL m' c') L) ->
    fold_left (fun s l => match l with
                          | UpdateMonitorL m' _ =>
                              if Nat.eqb m' m then handleMonitorUpdated view_bounds view_layout m s else s
                          | _ => s
                          end) L x = x).
  { induction L as [|l L IH]; intros x HL; simpl; [reflexivity|].
    destruct l as [p c0|m' c0|v m' c0].
    - apply IH. intros m'' c' H. apply (HL m'' c'). right. exact H.
    - exfalso. apply (HL m' c0). left. reflexivity.
    - apply IH. intros m'' c' H. apply (HL m'' c'). right. exact H. }
  apply G, NU.
Qed.

Lemma handleMonitorUpdated_hidden m s P st :
  project s = Some P -> stage s = Some st -> mon_visible (mon s m) = false ->
  handleMonitorUpdated view_bounds view_layout m s = removeMonitorView m s.
Proof. intros Hp Hs Hv. unfold handleMonitorUpdated. rewrite Hp, Hs, Hv. reflexivity. Qed.

(** C4: in a reachable runtime every monitor has at most one tracked
    (view, controller) entry. Without a stage, an update of a monitor
    changes nothing: in particular a visible monitor gets no view. With a
    project bound and a stage attached, a visible monitor without a view,
    whose updates are handled after it turns visible, invisible and
    visible again, gets exactly one view created, then that view removed
    (its controller aborted, no listener of it left, its entry dropped),
    then exactly one new view; it has one tracked view while visible and
    none while invisible. *)
Theorem monitor_visibility_cycle ops m :
  let s0 := run domToScratchKey view_bounds view_layout ops init in
  (forall m', List.length (views_of m' (monitorViews s0)) <= 1) /\
  (forall s, stage s = None -> dispatchUpdateMonitor view_bounds view_layout m s = s) /\
  (project s0 <> None -> stage s0 <> None ->
  mon_visible (mon s0 m) = true -> map_get m (monitorViews s0) = None ->
  let s1 := handleMonitorUpdated view_bounds view_layout m s0 in
  let s2 := handleMonitorUpdated view_bounds view_layout m (setMonitorVisible m false s1) in
  let s3 := handleMonitorUpdated view_bounds view_layout m (setMonitorVisible m true s2) in
  exists v1 a1 v3 a3 l1 l3,
    log s1 = log s0 ++ CreateView v1 :: l1 /\
    (forall e, In e l1 -> exists v m', e = UpdateView v m' \/ e = SetColor v) /\
    views_of m (monitorViews s1) = [(v1, a1)] /\
    log s2 = log s1 ++ [RemoveView v1; AbortCtl a1] /\
    views_of m (monitorViews s2) = [] /\ In a1 (aborted s2) /\
    (forall l, In l (listeners s2) -> listener_signal l <> a1) /\
    log s3 = log s2 ++ CreateView v3 :: l3 /\
    (forall e, In e l3 -> exists v m', e = UpdateView v m' \/ e = SetColor v) /\
    views_of m (monitorViews s3) = [(v3, a3)] /\ v3 <> v1).
Proof.
  intros s0. split; [intros m'; apply views_of_nodup_length, reachable_nodup|].
  split; [intros s Hs; apply dispatchUpdateMonitor_no_surface; right; exact Hs|].
  intros Hp Hs Hv Hg s1 s2 s3.
  destruct (project s0) as [P|] eqn:Ep; [|contradiction].
  destruct (stage s0) as [st|] eqn:Es; [|contradiction].
  pose proof (Inv_reachable ops) as (_ & _ & _ & _ & I5a & _). fold s0 in I5a.
  destruct (handleMonitorUpdated_creates m s0 P st Ep Es Hv Hg)
    as (C1 & C2 & C3 & C4 & C5 & _ & l1 & L1 & H1).
  fold s1 in C1, C2, C3, C4, C5, L1.
  set (v1 := next_id s0) in *.
  assert (G1 : map_get m (monitorViews s1) = Some (v1, S v1)).
  { rewrite C1, map_get_app_None by exact Hg. simpl. rewrite Nat.eqb_refl. reflexivity. }
  assert (S2 : log s2 = log s1 ++ [RemoveView v1; AbortCtl (S v1)] /\
               monitorViews s2 = map_delete m (monitorViews s1) /\ In (S v1) (aborted s2) /\
               (forall l, In l (listeners s2) -> listener_signal l <> S v1) /\
               project s2 = Some P /\ stage s2 = Some st /\ next_id s2 = next_id s1).
  { unfold s2. rewrite (handleMonitorUpdated_hidden m _ P st).
    2: { change (project s1 = Some P). rewrite C4. exact Ep. }
    2: { change (stage s1 = Some st). rewrite C5. exact Es. }
    2: { simpl. unfold upd. rewrite Nat.eqb_refl. reflexivity. }
    unfold removeMonitorView. change (monitorViews (setMonitorVisible m false s1)) with (monitorViews s1).
    rewrite G1.
    assert (Hf : ~ In (S v1) (aborted (emit (RemoveView v1) (setMonitorVisible m false s1)))).
    { change (~ In (S v1) (aborted s1)). rewrite C2. intros H. specialize (I5a _ H). unfold v1 in *. lia. }
    rewrite (abort_fresh _ _ Hf). simpl.
    split; [rewrite <- app_assoc; reflexivity|]. split; [reflexivity|]. split; [left; reflexivity|].
    split; [|split; [rewrite C4; exact Ep|split; [rewrite C5; exact Es|reflexivity]]].
    intros l Hl. apply filter_In in Hl. destruct Hl as [_ Hl]. intros Heq.
    rewrite Heq, Nat.eqb_refl in Hl. discriminate. }
  destruct S2 as (D1 & D2 & D3 & D4 & D5 & D6 & D7).
  assert (Hg2 : map_get m (monitorViews (setMonitorVisible m true s2)) = None)
    by (change (map_get m (monitorViews s2) = None); rewrite D2; apply map_get_delete).
  assert (Hv2 : mon_visible (mon (setMonitorVisible m true s2) m) = true)
    by (simpl; unfold upd; rewrite Nat.eqb_refl; reflexivity).
  destruct (handleMonitorUpdated_creates m (setMonitorVisible m true s2) P st D5 D6 Hv2 Hg2)
    as (K1 & _ & _ & _ & _ & _ & l3 & L3 & H3).
  fold s3 in K1, L3.
  exists v1, (S v1), (next_id s2), (S (next_id s2)), l1, l3.
  split; [exact L1|]. split; [exact H1|].
  split; [rewrite C1, views_of_app, (views_of_None _ _ Hg); unfold views_of; simpl; rewrite Nat.eqb_refl; reflexivity|].
  split; [exact D1|]. split; [rewrite D2; apply views_of_delete|].
  split; [exact D3|]. split; [exact D4|].
  split; [exact L3|]. split; [exact H3|].
  split.
  - rewrite K1. change (monitorViews (setMonitorVisible m true s2)) with (monitorViews s2).
    rewrite views_of_app, D2, views_of_delete. unfold views_of. simpl. rewrite Nat.eqb_refl. reflexivity.
  - rewrite D7, C3. lia.
Qed.

End WithCollaborators.

End RTProofs.

(** * The claims at concrete runtimes *)

Module ScenarioProofs.
Import RT RTInvariant Scenarios.
Local Open Scope string_scope.
Local Open Scope list_scope.
Local Open Scope nat_scope.

(** The combinator over [sigs_ex], one input of which is already aborted. *)
Lemma anyAbortSignal_fires_once_and_detaches_witness :
  (forall i, ~ In AnyAbort.OnAbort (AnyAbort.listeners (st_ex i))) /\
  AnyAbort.d_aborted (AnyAbort.anyAbortSignal sigs_ex st_ex) = true /\
  AnyAbort.d_fired (AnyAbort.anyAbortSignal sigs_ex st_ex) = 1.
Proof.
  assert (H : forall i, ~ In AnyAbort.OnAbort (AnyAbort.listeners (st_ex i))) by (intros i; simpl; tauto).
  split; [exact H|].
  destruct (AnyAbortProofs.anyAbortSignal_fires_once_and_detaches sigs_ex st_ex H) as [A B].
  split; [apply A; vm_compute; reflexivity|].
  destruct (B []) as (_ & F & _). cbv zeta in F. unfold AnyAbort.run in F; cbn [fold_left] in F. rewrite F. vm_compute. reflexivity.
Defined.

(** A tick of the runtime of [ops_viewed]. *)
Lemma step_phase_order_witness :
  match step (run_ex ops_viewed) with
  | Normal s' =>
      exists launches,
        log s' = log (run_ex ops_viewed) ++ [StepThreads] ++ launches ++ [Draw]
  | Thrown _ _ => False
  end.
Proof.
  pose proof (RTProofs.step_phase_order (run_ex ops_viewed)) as H.
  assert (Hs : stage (run_ex ops_viewed) = Some 7) by (vm_compute; reflexivity).
  rewrite Hs in H. destruct (step (run_ex ops_viewed)) as [s'|e s'] eqn:E.
  - destruct H as [launches [L _]]. exists launches. exact L.
  - vm_compute in E. discriminate.
Defined.

(** The two precondition violations, at [init] and at a project without a
    stage target. *)
Lemma step_precondition_violations_throw_witness :
  project init = None /\
  step init = Thrown "Cannot step without a project" init /\
  step (with_project (Some (mkProject 2 false)) init) =
    Thrown "Project has no stage" (emit StepThreads (with_project (Some (mkProject 2 false)) init)).
Proof.
  split; [reflexivity|]. split.
  - apply (proj1 (RTProofs.step_precondition_violations_throw init)). reflexivity.
  - apply (proj2 (RTProofs.step_precondition_violations_throw
                    (with_project (Some (mkProject 2 false)) init)) (mkProject 2 false));
      reflexivity.
Defined.

(** C8 counterexample: the key "a" is held; pressing it again and
    releasing it leaves it not held. *)
Lemma key_roundtrip_counterexample :
  keysDown (run_ex [OpAttachStage (Some 7); OpKeyDown "a"]) = ["a"] /\
  keysDown (run_ex [OpAttachStage (Some 7); OpKeyDown "a"; OpKeyDown "a"; OpKeyUp "a"]) = [] /\
  keysDown (run_ex [OpAttachStage (Some 7); OpKeyDown "a"; OpKeyDown "a"; OpKeyUp "a"]) <> keysDown (run_ex [OpAttachStage (Some 7); OpKeyDown "a"]).
Proof. vm_compute. split; [reflexivity|]. split; [reflexivity|]. discriminate. Defined.

(** The key "a", not held, pressed and released. *)
Lemma key_roundtrip_when_not_held_witness :
  domToScratchKey_a "a" = Some "a" /\ ~ In "a" (keysDown (run_ex ops_bound)) /\
  keysDown (onKeyup domToScratchKey_a "a" (onKeydown domToScratchKey_a "a" (run_ex ops_bound))) =
  keysDown (run_ex ops_bound).
Proof.
  assert (H1 : domToScratchKey_a "a" = Some "a") by reflexivity.
  assert (H2 : ~ In "a" (keysDown (run_ex ops_bound))) by (vm_compute; tauto).
  split; [exact H1|]. split; [exact H2|].
  exact (proj1 (RTProofs.key_roundtrip_when_not_held domToScratchKey_a "a" "a" _ H1 H2)).
Defined.

(** C10 at a runtime whose stage was detached while monitor 5 had a view,
    after which monitor 5 was hidden: its view stays. Once stage 8 is
    attached, the next update of monitor 5 removes the view. *)
Lemma handleMonitorUpdated_noop_without_surface_witness :
  let s := run_ex ops_view_left in
  let ops2 := [OpUpdateMonitor 5; OpAttachStage (Some 8); OpUpdateMonitor 5] in
  (stage s = None /\ mon_visible (mon s 5) = false /\ views_of 5 (monitorViews s) = [(2, 3)] /\
   handleMonitorUpdated view_bounds_id view_layout_count 5 s = s) /\
  (map_get 5 (monitorViews (run domToScratchKey_a view_bounds_id view_layout_count ops2 s)) <>
   map_get 5 (monitorViews s) /\
   exists pre o post, ops2 = pre ++ o :: post /\
     map_get 5 (monitorViews (run domToScratchKey_a view_bounds_id view_layout_count pre s)) =
     map_get 5 (monitorViews s) /\
     ((exists p, o = OpSetProject p) \/
      (o = OpUpdateMonitor 5 /\ project (run domToScratchKey_a view_bounds_id view_layout_count pre s) <> None /\
       stage (run domToScratchKey_a view_bounds_id view_layout_count pre s) <> None))).
Proof.
  intros s ops2. split.
  - split; [vm_compute; reflexivity|]. split; [vm_compute; reflexivity|].
    split; [vm_compute; reflexivity|].
    apply (proj1 (RTProofs.handleMonitorUpdated_noop_without_surface domToScratchKey_a view_bounds_id
                     view_layout_count 5)).
    right. vm_compute. reflexivity.
  - assert (H : map_get 5 (monitorViews (run domToScratchKey_a view_bounds_id view_layout_count ops2 s)) <>
                map_get 5 (monitorViews s)) by (vm_compute; discriminate).
    split; [exact H|].
    exact (proj2 (proj2 (RTProofs.handleMonitorUpdated_noop_without_surface domToScratchKey_a view_bounds_id
                           view_layout_count 5)) ops2 s H).
Defined.

(** Starting the loop of the runtime of [ops_bound]. *)
Lemma start_single_timer_and_tick_witness :
  steppingInterval (run_ex ops_bound) = None /\
  timers (state_of (start (run_ex ops_bound))) = [next_id (run_ex ops_bound)] /\
  start (state_of (start (run_ex ops_bound))) = Normal (state_of (start (run_ex ops_bound))).
Proof.
  assert (H : steppingInterval (run_ex ops_bound) = None) by (vm_compute; reflexivity).
  split; [exact H|].
  destruct (proj2 (proj2 (proj2 (RTProofs.start_single_timer_and_tick domToScratchKey_a view_bounds_id
              view_layout_count ops_bound))) H) as (_ & _ & T & N & _).
  split; [exact T|exact N].
Defined.

(** C9 counterexample: project 1 is bound before a stage is attached; its
    monitor 5 gets no 'updatemonitor' listener, monitor 6 created after
    the stage gets one, and only 6's update creates a view. *)
Lemma preexisting_monitor_unlistened_counterexample :
  let s := run_ex ops_late_stage in
  stage s <> None /\
  existsb (listens_update 5) (listeners s) = false /\
  existsb (listens_update 6) (listeners s) = true /\
  monitorViews (dispatchUpdateMonitor view_bounds_id view_layout_count 5 s) = [] /\
  monitorViews (dispatchUpdateMonitor view_bounds_id view_layout_count 6 s) <> [].
Proof.
  vm_compute. split; [discriminate|]. split; [reflexivity|]. split; [reflexivity|].
  split; [reflexivity|discriminate].
Defined.

(** Binding project 1 again while stage 7 is attached; binding project 1,
    with its monitor 5, while no stage is attached. *)
Lemma setProject_registers_existing_monitors_witness :
  (stage (run_ex ops_bound) <> None /\
   exists c, In (UpdateMonitorL 5 c) (listeners (setProject (Some P1) (run_ex ops_bound)))) /\
  (stage (run_ex [OpCreateMonitor 1 5 shown]) = None /\
   In 5 (monitors (run_ex [OpCreateMonitor 1 5 shown]) 1) /\
   dispatchUpdateMonitor view_bounds_id view_layout_count 5
     (setProject (Some P1) (run_ex [OpCreateMonitor 1 5 shown])) =
   setProject (Some P1) (run_ex [OpCreateMonitor 1 5 shown])).
Proof.
  split.
  - assert (H : stage (run_ex ops_bound) <> None) by (vm_compute; discriminate).
    split; [exact H|].
    destruct (proj1 (RTProofs.setProject_registers_existing_monitors domToScratchKey_a view_bounds_id
                view_layout_count ops_bound P1) H) as [c (_ & _ & M & _)].
    exists c. apply M. vm_compute. left. reflexivity.
  - assert (H : stage (run_ex [OpCreateMonitor 1 5 shown]) = None) by (vm_compute; reflexivity).
    split; [exact H|]. split; [vm_compute; left; reflexivity|].
    destruct (proj2 (RTProofs.setProject_registers_existing_monitors domToScratchKey_a view_bounds_id
                view_layout_count [OpCreateMonitor 1 5 shown] P1) H) as [c (_ & _ & _ & D)].
    exact (D 5).
Defined.

(** C4 counterexample: the stage is detached while project 1 is bound;
    monitor 5 is visible and notified, and no view is created. *)
Lemma visible_monitor_without_view_counterexample :
  let s := run_ex ops_detached in
  mon_visible (mon s 5) = true /\ project s <> None /\
  existsb (listens_update 5) (listeners s) = true /\
  monitorViews (dispatchUpdateMonitor view_bounds_id view_layout_count 5 s) = [] /\
  log (dispatchUpdateMonitor view_bounds_id view_layout_count 5 s) = log s.
Proof.
  vm_compute. split; [reflexivity|]. split; [discriminate|]. split; [reflexivity|].
  split; reflexivity.
Defined.

(** Monitor 5 of [ops_bound] shown, hidden and shown again. *)
Lemma monitor_visibility_cycle_witness :
  let s := run_ex ops_bound in
  project s <> None /\ stage s <> None /\ mon_visible (mon s 5) = true /\
  map_get 5 (monitorViews s) = None /\
  exists v1 a1, views_of 5 (monitorViews (handleMonitorUpdated view_bounds_id view_layout_count 5 s)) = [(v1, a1)].
Proof.
  intros s.
  assert (H1 : project s <> None) by (vm_compute; discriminate).
  assert (H2 : stage s <> None) by (vm_compute; discriminate).
  assert (H3 : mon_visible (mon s 5) = true) by (vm_compute; reflexivity).
  assert (H4 : map_get 5 (monitorViews s) = None) by (vm_compute; reflexivity).
  split; [exact H1|]. split; [exact H2|]. split; [exact H3|]. split; [exact H4|].
  destruct (proj2 (proj2 (RTProofs.monitor_visibility_cycle domToScratchKey_a view_bounds_id
              view_layout_count ops_bound 5)) H1 H2 H3 H4) as (v1 & a1 & _ & _ & _ & _ & _ & _ & V & _).
  exists v1, a1. exact V.
Defined.

End ScenarioProofs.

(* ------------------------------------------------------------------ *)
(** ** Further properties of the pointer listeners *)

Module PointerProofs.
Import StageCoords PointerInput.
Local Open Scope Q_scope.

Lemma ltb_fin x y : js_ltb (Fin x) (Fin y) = true <-> x < y.
Proof.
  simpl. rewrite negb_true_iff. split.
  - intros H. apply Qnot_le_lt. intros H'. apply Qle_bool_iff in H'. congruence.
  - intros H. destruct (Qle_bool y x) eqn:E; [|reflexivity].
    apply Qle_bool_iff in E. exfalso. apply (Qlt_not_le x y H E).
Qed.

Lemma ltb_fin_false x y : js_ltb (Fin x) (Fin y) = false <-> y <= x.
Proof.
  split.
  - intros H. apply Qnot_lt_le. intros H'. apply ltb_fin in H'. congruence.
  - intros H. destruct (js_ltb (Fin x) (Fin y)) eqn:E; [|reflexivity].
    apply ltb_fin in E. exfalso. apply (Qlt_not_le x y E H).
Qed.

Ltac ltb_cases :=
  repeat match goal with
  | |- context [js_ltb (Fin ?a) (Fin ?b)] =>
      lazymatch b with context [js_ltb _ _] => fail | _ => idtac end;
      let E := fresh "E" in
      destruct (js_ltb (Fin a) (Fin b)) eqn:E;
      [apply ltb_fin in E|apply ltb_fin_false in E]
  end.

Lemma clamp_fin lo hi q :
  js_max (Fin lo) (js_min (Fin hi) (Fin q)) = Fin (clampQ lo hi q).
Proof.
  unfold clampQ, maxQ, minQ, js_min, js_max.
  destruct (js_ltb (Fin q) (Fin hi)); [destruct (js_ltb (Fin lo) (Fin q))|destruct (js_ltb (Fin lo) (Fin hi))]; reflexivity.
Qed.

Lemma clampQ_range lo hi q : lo <= hi -> lo <= clampQ lo hi q <= hi.
Proof. intros H. unfold clampQ, maxQ, minQ. ltb_cases; lra. Qed.

Lemma clampQ_mono lo hi q1 q2 :
  lo <= hi -> q1 <= q2 -> clampQ lo hi q1 <= clampQ lo hi q2.
Proof. intros H Hq. unfold clampQ, maxQ, minQ. ltb_cases; lra. Qed.

Lemma clampQ_low lo hi q : lo <= hi -> q <= lo -> clampQ lo hi q == lo.
Proof. intros H Hq. unfold clampQ, maxQ, minQ. ltb_cases; lra. Qed.

Lemma clampQ_high lo hi q : lo <= hi -> hi <= q -> clampQ lo hi q == hi.
Proof. intros H Hq. unfold clampQ, maxQ, minQ. ltb_cases; lra. Qed.

Lemma clampQ_mid lo hi q : lo <= q <= hi -> clampQ lo hi q == q.
Proof. intros H. unfold clampQ, maxQ, minQ. ltb_cases; lra. Qed.

Lemma roundQ_mono q1 q2 : q1 <= q2 -> roundQ q1 <= roundQ q2.
Proof.
  intros H. unfold roundQ. rewrite <- Zle_Qle. apply Qfloor_resp_le. lra.
Qed.

Lemma roundQ_bounds q : q - (1 # 2) < roundQ q <= q + (1 # 2).
Proof.
  unfold roundQ. pose proof (Qfloor_le (q + (1 # 2))). pose proof (Qlt_floor (q + (1 # 2))).
  rewrite inject_Z_plus in H0. change (inject_Z 1) with 1 in H0. lra.
Qed.

Lemma roundQ_Z z : roundQ (inject_Z z) == inject_Z z.
Proof.
  unfold roundQ. set (f := Qfloor (inject_Z z + (1 # 2))).
  pose proof (Qfloor_le (inject_Z z + (1 # 2))) as H1.
  pose proof (Qlt_floor (inject_Z z + (1 # 2))) as H2. fold f in H1, H2.
  assert (A : inject_Z f < inject_Z (z + 1)).
  { rewrite inject_Z_plus. change (inject_Z 1) with (1 # 1). lra. }
  assert (B : inject_Z z < inject_Z (f + 1)).
  { rewrite inject_Z_plus in *. change (inject_Z 1) with (1 # 1) in *. lra. }
  rewrite <- Zlt_Qlt in A, B. assert (f = z) as -> by lia. reflexivity.
Qed.

Lemma Qeq_bool_pos w : 0 < w -> Qeq_bool w 0 = false.
Proof.
  intros H. destruct (Qeq_bool w 0) eqn:E; [|reflexivity].
  apply Qeq_bool_iff in E. lra.
Qed.

(** On a non-empty surface rectangle every step of the computation is
    finite. *)
Lemma coords_fin b rect cx cy :
  0 < r_width rect -> 0 < r_height rect ->
  stageCoordsFromPointerEvent b rect cx cy =
  (Fin (clampQ (left b) (right b) (roundQ ((cx - r_left rect) * (width b / r_width rect) + left b))),
   Fin (- clampQ (bottom b) (top b) (roundQ ((cy - r_top rect) * (height b / r_height rect) + bottom b)))).
Proof.
  intros Hw Hh. unfold stageCoordsFromPointerEvent, js_div.
  rewrite (Qeq_bool_pos _ Hw), (Qeq_bool_pos _ Hh).
  cbn [js_sub js_add js_neg js_mul js_round]. rewrite !clamp_fin. reflexivity.
Qed.

Lemma roundQ_comp q1 q2 : q1 == q2 -> roundQ q1 = roundQ q2.
Proof. intros H. unfold roundQ. f_equal. apply Qfloor_comp. rewrite H. reflexivity. Qed.

Lemma scale_nonneg a w : 0 <= a -> 0 < w -> 0 <= a / w.
Proof.
  intros Ha Hw. unfold Qdiv. apply Qmult_le_0_compat; [exact Ha|].
  apply Qinv_le_0_compat. lra.
Qed.

Lemma width_stage : width stageBounds == 480.
Proof. reflexivity. Qed.
Lemma height_stage : height stageBounds == 360.
Proof. reflexivity. Qed.

(** A 'pointermove' over a stage of positive size sets the mouse position
   inside the stage bounds, [-240, 240] by [-180, 180], and leaves the
   button state and the clicks alone. *)
Theorem pointerMove_within_stage_bounds rect cx cy io :
  0 < r_width rect -> 0 < r_height rect ->
  let io' := onPointerMove stageBounds rect cx cy io in
  in_range (-240) 240 (fst (mousePosition io')) /\ in_range (-180) 180 (snd (mousePosition io')) /\
  mouseDown io' = mouseDown io /\ clicks io' = clicks io.
Proof.
  intros Hw Hh io'. unfold io', onPointerMove. rewrite coords_fin by assumption.
  cbn [fst snd mousePosition mouseDown clicks in_range].
  pose proof (clampQ_range (-240) 240 (roundQ ((cx - r_left rect) * (width stageBounds / r_width rect) + left stageBounds))) as A.
  pose proof (clampQ_range (-180) 180 (roundQ ((cy - r_top rect) * (height stageBounds / r_height rect) + bottom stageBounds))) as B.
  change (left stageBounds) with (-240). change (right stageBounds) with 240.
  change (bottom stageBounds) with (-180). change (top stageBounds) with 180.
  split; [apply A; lra|]. split; [|split; reflexivity].
  assert (B' : -180 <= clampQ (-180) 180 (roundQ ((cy - r_top rect) * (height stageBounds / r_height rect) + -180)) <= 180) by (apply B; lra).
  lra.
Qed.

(** Moving the pointer right (down) never moves the stage point left (up):
   the conversion is monotone in each axis, with the y axis flipped. *)
Theorem stageCoords_monotone rect cx1 cy1 cx2 cy2 :
  0 < r_width rect -> 0 < r_height rect -> cx1 <= cx2 -> cy1 <= cy2 ->
  match stageCoordsFromPointerEvent stageBounds rect cx1 cy1,
        stageCoordsFromPointerEvent stageBounds rect cx2 cy2 with
  | (Fin x1, Fin y1), (Fin x2, Fin y2) => x1 <= x2 /\ y2 <= y1
  | _, _ => False
  end.
Proof.
  intros Hw Hh Hx Hy. rewrite !coords_fin by assumption.
  assert (Sx : 0 <= width stageBounds / r_width rect) by (apply scale_nonneg; [rewrite width_stage; lra|exact Hw]).
  assert (Sy : 0 <= height stageBounds / r_height rect) by (apply scale_nonneg; [rewrite height_stage; lra|exact Hh]).
  split.
  - apply clampQ_mono; [change (left stageBounds) with (-240); change (right stageBounds) with 240; lra|].
    apply roundQ_mono. apply Qplus_le_compat; [|apply Qle_refl].
    apply Qmult_le_compat_r; [lra|exact Sx].
  - apply Qopp_le_compat. apply clampQ_mono; [change (bottom stageBounds) with (-180); change (top stageBounds) with 180; lra|].
    apply roundQ_mono. apply Qplus_le_compat; [|apply Qle_refl].
    apply Qmult_le_compat_r; [lra|exact Sy].
Qed.

Lemma inject_Z_sub x y : inject_Z (x - y) = inject_Z x - inject_Z y.
Proof. unfold Z.sub. rewrite inject_Z_plus, inject_Z_opp. reflexivity. Qed.

(** For a stage element of 480 by 360 pixels, an integer pixel offset (zx,
   zy) from its corner maps to the stage point (zx - 240, 180 - zy). *)
Theorem stageCoords_unit_scale l t (zx zy : Z) :
  (0 <= zx <= 480)%Z -> (0 <= zy <= 360)%Z ->
  let '(x, y) := stageCoordsFromPointerEvent stageBounds (mkDOMRect l t 480 360)
                   (l + inject_Z zx) (t + inject_Z zy) in
  fin_eq x (inject_Z (zx - 240)) /\ fin_eq y (inject_Z (180 - zy)).
Proof.
  intros Hx Hy. rewrite coords_fin by (simpl; lra). cbn [fin_eq r_left r_top r_width r_height].
  assert (Ex : (l + inject_Z zx - l) * (width stageBounds / 480) + left stageBounds == inject_Z (zx - 240)).
  { assert (S : width stageBounds / 480 == 1) by reflexivity. rewrite S.
    rewrite inject_Z_sub. change (inject_Z 240) with 240. change (left stageBounds) with (-240). lra. }
  assert (Ey : (t + inject_Z zy - t) * (height stageBounds / 360) + bottom stageBounds == inject_Z (zy - 180)).
  { assert (S : height stageBounds / 360 == 1) by reflexivity. rewrite S.
    rewrite inject_Z_sub. change (inject_Z 180) with 180. change (bottom stageBounds) with (-180). lra. }
  rewrite (roundQ_comp _ _ Ex), (roundQ_comp _ _ Ey).
  change (left stageBounds) with (-240). change (right stageBounds) with 240.
  change (bottom stageBounds) with (-180). change (top stageBounds) with 180.
  pose proof (roundQ_Z (zx - 240)) as Rx. pose proof (roundQ_Z (zy - 180)) as Ry.
  assert (Bx : -240 <= inject_Z (zx - 240) <= 240).
  { change (-240) with (inject_Z (-240)). change 240 with (inject_Z 240).
    rewrite <- !Zle_Qle. lia. }
  assert (By : -180 <= inject_Z (zy - 180) <= 180).
  { change (-180) with (inject_Z (-180)). change 180 with (inject_Z 180).
    rewrite <- !Zle_Qle. lia. }
  split.
  - rewrite clampQ_mid; [exact Rx|]. rewrite Rx. exact Bx.
  - rewrite clampQ_mid; [|rewrite Ry; exact By]. rewrite Ry.
    rewrite !inject_Z_sub. lra.
Qed.

(** A pointer left of, right of, above or below the stage element is clamped
   to the matching edge of the stage: -240, 240, 180 or -180. *)
Theorem stageCoords_clamped_outside rect cx cy :
  0 < r_width rect -> 0 < r_height rect ->
  let '(x, y) := stageCoordsFromPointerEvent stageBounds rect cx cy in
  (cx <= r_left rect -> fin_eq x (-240)) /\
  (r_left rect + r_width rect <= cx -> fin_eq x 240) /\
  (cy <= r_top rect -> fin_eq y 180) /\
  (r_top rect + r_height rect <= cy -> fin_eq y (-180)).
Proof.
  intros Hw Hh. rewrite coords_fin by assumption. cbn [fin_eq].
  assert (Sx : 0 <= width stageBounds / r_width rect) by (apply scale_nonneg; [rewrite width_stage; lra|exact Hw]).
  assert (Sy : 0 <= height stageBounds / r_height rect) by (apply scale_nonneg; [rewrite height_stage; lra|exact Hh]).
  assert (Wx : r_width rect * (width stageBounds / r_width rect) == 480).
  { rewrite Qmult_div_r; [exact width_stage|lra]. }
  assert (Wy : r_height rect * (height stageBounds / r_height rect) == 360).
  { rewrite Qmult_div_r; [exact height_stage|lra]. }
  change (left stageBounds) with (-240). change (right stageBounds) with 240.
  change (bottom stageBounds) with (-180). change (top stageBounds) with 180.
  assert (R1 : roundQ (-240) = -240) by reflexivity. assert (R2 : roundQ 240 = 240) by reflexivity.
  assert (R3 : roundQ (-180) = -180) by reflexivity. assert (R4 : roundQ 180 = 180) by reflexivity.
  split; [|split; [|split]]; intros H.
  - apply clampQ_low; [lra|]. apply (Qle_trans _ (roundQ (-240))); [apply roundQ_mono|rewrite R1; apply Qle_refl].
    assert (M : (cx - r_left rect) * (width stageBounds / r_width rect) <= 0 * (width stageBounds / r_width rect))
      by (apply Qmult_le_compat_r; [lra|exact Sx]).
    rewrite Qmult_0_l in M. lra.
  - apply clampQ_high; [lra|]. apply (Qle_trans _ (roundQ 240)); [rewrite R2; apply Qle_refl|apply roundQ_mono].
    assert (M : r_width rect * (width stageBounds / r_width rect) <= (cx - r_left rect) * (width stageBounds / r_width rect))
      by (apply Qmult_le_compat_r; [lra|exact Sx]).
    lra.
  - rewrite clampQ_low; [reflexivity|lra|]. apply (Qle_trans _ (roundQ (-180))); [apply roundQ_mono|rewrite R3; apply Qle_refl].
    assert (M : (cy - r_top rect) * (height stageBounds / r_height rect) <= 0 * (height stageBounds / r_height rect))
      by (apply Qmult_le_compat_r; [lra|exact Sy]).
    rewrite Qmult_0_l in M. lra.
  - rewrite clampQ_high; [reflexivity|lra|]. apply (Qle_trans _ (roundQ 180)); [rewrite R4; apply Qle_refl|apply roundQ_mono].
    assert (M : r_height rect * (height stageBounds / r_height rect) <= (cy - r_top rect) * (height stageBounds / r_height rect))
      by (apply Qmult_le_compat_r; [lra|exact Sy]).
    lra.
Qed.

End PointerProofs.

(* ------------------------------------------------------------------ *)
(** ** Further properties of the Runtime *)

Module RTExtraProofs.
Import RT RTInvariant RTExtra RTProofs.
Local Open Scope string_scope.
Local Open Scope list_scope.
Local Open Scope nat_scope.

Lemma with_project_same s : with_project (project s) s = s.
Proof. destruct s; reflexivity. Qed.

Lemma with_log_emit l e s : with_log l (emit e s) = with_log l s.
Proof. destruct s; reflexivity. Qed.

Lemma with_log_with_log l l' s : with_log l (with_log l' s) = with_log l s.
Proof. destruct s; reflexivity. Qed.

(** Destroying the runtime a second time changes nothing. *)
Theorem destroy_idempotent s : destroy (destroy s) = destroy s.
Proof.
  unfold destroy. set (s1 := setProject None s).
  assert (U : unregisterPreviousProject s1 = None) by exact (setProject_unreg None s).
  assert (P : project s1 = None).
  { unfold s1, setProject. destruct (unregisterPreviousProject s) as [[P0 c0]|]; reflexivity. }
  unfold setProject at 1. rewrite U. rewrite <- P. apply with_project_same.
Qed.

(** After removing a monitor's view no view is left for that monitor, and
   removing it again changes nothing. *)
Theorem removeMonitorView_idempotent m s :
  views_of m (monitorViews (removeMonitorView m s)) = [] /\
  removeMonitorView m (removeMonitorView m s) = removeMonitorView m s.
Proof.
  assert (G : map_get m (monitorViews (removeMonitorView m s)) = None).
  { unfold removeMonitorView. destruct (map_get m (monitorViews s)) as [[v a]|] eqn:E; [|exact E].
    simpl. apply map_get_delete. }
  split; [apply views_of_None, G|].
  unfold removeMonitorView at 1. rewrite G. reflexivity.
Qed.

Lemma fold_launch_eq L s :
  fold_left (fun s m => if mon_visible (mon s m) then emit (Launch m) s else s) L s =
  with_log (log s ++ map Launch (filter (fun m => mon_visible (mon s m)) L)) s.
Proof.
  revert s. induction L as [|m L IH]; intros s; simpl.
  - rewrite app_nil_r. symmetry. apply with_log_log.
  - destruct (mon_visible (mon s m)) eqn:E.
    + rewrite IH. cbn [mon emit log with_log]. rewrite with_log_emit, <- app_assoc. reflexivity.
    + apply IH.
Qed.

(** With a project that has a stage, stepping the monitors logs one launch
   per visible monitor of the project, in order, and changes nothing else. *)
Theorem stepMonitors_launches_visible s P :
  project s = Some P -> proj_has_stage P = true ->
  stepMonitors s =
  Normal (with_log (log s ++ map Launch (filter (fun m => mon_visible (mon s m)) (monitors s (proj_id P)))) s).
Proof.
  intros Hp Hs. unfold stepMonitors. rewrite Hp, Hs. simpl negb. cbv iota.
  rewrite fold_launch_eq. reflexivity.
Qed.

(** Starting without a project throws on the first step but the loop stays
   scheduled: a second start does nothing, each later step throws again, and
   stop clears the timer. *)
Theorem start_without_project_keeps_loop s :
  project s = None -> steppingInterval s = None ->
  exists h s',
    start s = Thrown "Cannot step without a project" s' /\
    steppingInterval s' = Some h /\ timers s' = timers s ++ [h] /\
    start s' = Normal s' /\ step s' = Thrown "Cannot step without a project" s' /\
    steppingInterval (stop s') = None /\ ~ In h (timers (stop s')).
Proof.
  intros Hp Hi.
  set (h := next_id s).
  set (s' := with_interval (Some h) (with_timers (timers s ++ [h]) (emit (StartTimer h) (with_next (S h) s)))).
  assert (Hp' : project s' = None) by exact Hp.
  assert (Hs : step s' = Thrown "Cannot step without a project" s') by (unfold step; rewrite Hp'; reflexivity).
  exists h, s'. split.
  { unfold start. rewrite Hi. exact Hs. }
  split; [reflexivity|]. split; [reflexivity|]. split; [reflexivity|]. split; [exact Hs|].
  split; [reflexivity|].
  unfold stop. cbn [steppingInterval s' with_interval]. cbn [timers with_interval with_timers emit with_log].
  intros Hin. apply filter_In in Hin. destruct Hin as [_ Hn]. rewrite Nat.eqb_refl in Hn. discriminate.
Qed.

Lemma set_add_in k l : In k (set_add k l).
Proof.
  unfold set_add. destruct (existsb (String.eqb k) l) eqn:E.
  - apply existsb_exists in E. destruct E as [x [Hx Hk]]. apply String.eqb_eq in Hk. subst. exact Hx.
  - apply in_or_app. right. left. reflexivity.
Qed.

Lemma set_add_nodup k l : NoDup l -> NoDup (set_add k l).
Proof.
  intros H. unfold set_add. destruct (existsb (String.eqb k) l) eqn:E; [exact H|].
  apply NoDup_app; [exact H|constructor; [intros []|constructor]|].
  intros a Ha [<-|[]]. assert (existsb (String.eqb k) l = true) as E'.
  { apply existsb_exists. exists k. split; [exact Ha|apply String.eqb_refl]. }
  congruence.
Qed.

Lemma set_add_twice k l : set_add k (set_add k l) = set_add k l.
Proof.
  unfold set_add at 1. destruct (existsb (String.eqb k) (set_add k l)) eqn:E; [reflexivity|].
  exfalso. assert (existsb (String.eqb k) (set_add k l) = true) as E'.
  { apply existsb_exists. exists k. split; [apply set_add_in|apply String.eqb_refl]. }
  congruence.
Qed.

(** A recognised key held with 'keydown' is in [keysDown] once, however many
   times it is pressed, and 'keyup' removes it; both keep [keysDown] free of
   duplicates. *)
Theorem keysDown_is_a_set dk key k s :
  dk key = Some k ->
  In k (keysDown (onKeydown dk key s)) /\
  (NoDup (keysDown s) -> NoDup (keysDown (onKeydown dk key s))) /\
  keysDown (onKeydown dk key (onKeydown dk key s)) = keysDown (onKeydown dk key s) /\
  ~ In k (keysDown (onKeyup dk key s)) /\
  (NoDup (keysDown s) -> NoDup (keysDown (onKeyup dk key s))).
Proof.
  intros Hk. unfold onKeydown, onKeyup. rewrite Hk. cbn [keysDown emit with_log with_keys].
  split; [apply set_add_in|]. split; [apply set_add_nodup|]. split; [apply set_add_twice|].
  split.
  - unfold set_delete. intros Hin. apply filter_In in Hin. destruct Hin as [_ Hn].
    rewrite String.eqb_refl in Hn. discriminate.
  - intros H. apply NoDup_filter, H.
Qed.

Section Reachable.
Context (domToScratchKey : string -> option string).
Context (view_bounds : nat -> option nat) (view_layout : nat -> list nat -> nat).

(** Destroying a runtime that holds a project drops the project, the loop,
   the timers and the monitor views but keeps the stage; only the sliders'
   listeners are left. Without a project it changes nothing. *)
Theorem destroy_releases_project ops :
  let s := run domToScratchKey view_bounds view_layout ops init in
  let d := destroy s in
  match unregisterPreviousProject s with
  | Some _ =>
      project d = None /\ steppingInterval d = None /\ timers d = [] /\
      monitorViews d = [] /\ unregisterPreviousProject d = None /\ stage d = stage s /\
      (forall l, In l (listeners d) -> exists v m a, l = SliderChangeL v m a)
  | None => d = s
  end.
Proof.
  intros s d. pose proof (Inv_reachable domToScratchKey view_bounds view_layout ops) as HI.
  fold s in HI. pose proof HI as (I1 & I2 & I3 & I4 & I5).
  unfold d, destroy, setProject.
  destruct (unregisterPreviousProject s) as [[P c]|] eqn:U.
  - destruct (teardown_spec P c s HI U) as (T1 & T2 & T3 & T4 & T5 & T6 & T7 & T8 & T9 & T10 & _).
    cbn [project with_project with_unreg steppingInterval timers monitorViews
         unregisterPreviousProject stage listeners].
    split; [reflexivity|]. split; [exact T2|]. split; [exact T3|]. split; [exact T4|].
    split; [reflexivity|]. split; [exact T7|].
    intros l Hl. destruct (T10 l Hl) as [Hl' Hs]. specialize (I4 l Hl').
    destruct l as [p c'|m c'|v m a].
    + destruct I4 as [P' [U' _]]. rewrite U in U'. injection U' as _ <-. simpl in Hs. contradiction.
    + destruct I4 as [P' [U' _]]. rewrite U in U'. injection U' as _ <-. simpl in Hs. contradiction.
    + exists v, m, a. reflexivity.
  - unfold project_inv in I2. rewrite U in I2. rewrite <- I2. apply with_project_same.
Qed.

(** Detaching the stage aborts its listeners and clears the stage, but keeps
   the project, its monitor views and the loop; only the sliders' listeners
   can be lost. *)
Theorem detachStage_keeps_project_and_views ops r a :
  let s := run domToScratchKey view_bounds view_layout ops init in
  unsetPreviousStage s = Some (r, a) ->
  let d := attachStage None s in
  stage d = None /\ unsetPreviousStage d = None /\ In a (aborted d) /\
  project d = project s /\ unregisterPreviousProject d = unregisterPreviousProject s /\
  monitorViews d = monitorViews s /\ steppingInterval d = steppingInterval s /\
  (forall l, In l (listeners s) ->
     match l with SliderChangeL _ _ _ => True | _ => In l (listeners d) end).
Proof.
  intros s Hu d. pose proof (Inv_reachable domToScratchKey view_bounds view_layout ops) as HI.
  fold s in HI. pose proof HI as (I1 & I2 & I3 & I4 & I5a & I5b).
  unfold d, attachStage. rewrite Hu.
  set (s1 := emit (DestroyRenderer r) (with_stage None (emit (InterpSetRenderer None) s))).
  destruct (abort_fields a s1) as (F1 & F2 & F3 & F4 & F5 & F6 & F7 & _).
  cbn [stage unsetPreviousStage aborted project unregisterPreviousProject monitorViews
       steppingInterval listeners with_unset].
  rewrite F1, F2, F3, F5, F7.
  split; [reflexivity|]. split; [reflexivity|]. split; [apply abort_aborted_in|].
  split; [reflexivity|]. split; [reflexivity|]. split; [reflexivity|]. split; [reflexivity|].
  assert (Keep : forall l, In l (listeners s) -> listener_signal l <> a -> In l (listeners (abort a s1))).
  { intros l Hl Hne. unfold abort. destruct existsb; [exact Hl|].
    cbn [listeners emit with_log with_listeners]. apply filter_In. split; [exact Hl|].
    apply negb_true_iff, Nat.eqb_neq, Hne. }
  intros l Hl. specialize (I4 l Hl). destruct (I5b r a Hu) as [_ Ha].
  destruct l as [p c|m c|v m a']; [| |exact I].
  - destruct I4 as [P [U _]]. apply Keep; [exact Hl|]. simpl. intros ->. exact (Ha P a U eq_refl).
  - destruct I4 as [P [U _]]. apply Keep; [exact Hl|]. simpl. intros ->. exact (Ha P a U eq_refl).
Qed.

Lemma map_get_set m v l : map_get m (map_set m v l) = Some v.
Proof.
  unfold map_set. destruct (map_get m l) as [x|] eqn:E.
  - induction l as [|[k x0] rest IH]; [discriminate|]. simpl in E |- *.
    destruct (Nat.eqb k m) eqn:Ek; simpl.
    + rewrite Nat.eqb_refl. reflexivity.
    + rewrite Ek. exact (IH E).
  - induction l as [|[k x] rest IH]; simpl; [rewrite Nat.eqb_refl; reflexivity|].
    simpl in E. destruct (Nat.eqb k m); [discriminate|exact (IH E)].
Qed.

Lemma handleMonitorUpdated_existing m s P st v a p :
  project s = Some P -> stage s = Some st -> mon_visible (mon s m) = true ->
  map_get m (monitorViews s) = Some (v, a) -> mon_position (mon s m) = Some p ->
  handleMonitorUpdated view_bounds view_layout m s =
  if mon_color (mon s m) then emit (SetColor v) (emit (UpdateView v m) s) else emit (UpdateView v m) s.
Proof.
  intros Hp Hs Hv Hg Hpos. unfold handleMonitorUpdated. rewrite Hp, Hs, Hv. simpl negb. cbv iota.
  rewrite Hg. cbv beta iota zeta. change (mon (emit (UpdateView v m) s)) with (mon s).
  rewrite Hpos. reflexivity.
Qed.

Lemma upd_same {A} (f : nat -> A) k v : upd f k v k = v.
Proof. unfold upd. rewrite Nat.eqb_refl. reflexivity. Qed.

Lemma handleMonitorUpdated_settles m s P st :
  project s = Some P -> stage s = Some st -> mon_visible (mon s m) = true ->
  let r := handleMonitorUpdated view_bounds view_layout m s in
  project r = Some P /\ stage r = Some st /\ mon_visible (mon r m) = true /\
  mon_color (mon r m) = mon_color (mon s m) /\ mon_position (mon r m) <> None /\
  map_get m (monitorViews r) <> None.
Proof.
  intros Hp Hs Hv r. unfold r, handleMonitorUpdated. rewrite Hp, Hs, Hv. simpl negb. cbv iota.
  destruct (map_get m (monitorViews s)) as [[v a]|] eqn:Hg.
  - cbv beta iota zeta. unfold emit, with_mon, with_log.
    destruct (mon_position (mon s m)) as [p|] eqn:Hpos; simpl; unfold upd; rewrite ?Nat.eqb_refl;
      simpl; rewrite ?Hpos; simpl; rewrite ?Nat.eqb_refl; simpl;
      destruct (mon_color (mon s m)) eqn:Hc; simpl; rewrite ?Nat.eqb_refl; simpl;
      rewrite ?Hp, ?Hs, ?Hv, ?Hpos, ?Hg, ?Hc; repeat split; try congruence.
  - unfold fresh. cbv beta iota zeta.
    set (s1 := addEventListener _ _).
    assert (F : project s1 = Some P /\ stage s1 = Some st /\ mon s1 = mon s /\
                map_get m (monitorViews s1) = Some (next_id s, S (next_id s))).
    { unfold s1, addEventListener, with_listeners, with_views, with_next.
      destruct existsb; cbn [project stage mon monitorViews]; rewrite ?map_get_set; auto. }
    clearbody s1. destruct F as (Hp1 & Hs1 & Hm1 & Hg1).
    unfold emit, with_mon, with_log.
    destruct (mon_position (mon s m)) as [p|] eqn:Hpos; simpl; unfold upd; rewrite ?Nat.eqb_refl;
      simpl; rewrite ?Hm1, ?Hpos; simpl; rewrite ?Nat.eqb_refl; simpl;
      destruct (mon_color (mon s m)) eqn:Hc; simpl; rewrite ?Nat.eqb_refl; simpl;
      rewrite ?Hp1, ?Hs1, ?Hm1, ?Hv, ?Hpos, ?Hg1, ?Hc; repeat split; try congruence.
Qed.

(** Handling a second update of a visible monitor, with a project and a
    stage in place, creates no view and registers no listener: it only
    logs the view's update, then its color when the monitor has one. *)
Theorem handleMonitorUpdated_again_only_refreshes m s P st :
  project s = Some P -> stage s = Some st -> mon_visible (mon s m) = true ->
  let r := handleMonitorUpdated view_bounds view_layout m s in
  exists v a, map_get m (monitorViews r) = Some (v, a) /\
    handleMonitorUpdated view_bounds view_layout m r =
    if mon_color (mon s m) then emit (SetColor v) (emit (UpdateView v m) r)
    else emit (UpdateView v m) r.
Proof.
  intros Hp Hs Hv r.
  destruct (handleMonitorUpdated_settles m s P st Hp Hs Hv) as (Hp' & Hs' & Hv' & Hc' & Hpos' & Hg').
  fold r in Hp', Hs', Hv', Hc', Hpos', Hg'.
  destruct (map_get m (monitorViews r)) as [[v a]|] eqn:Hg; [|congruence].
  destruct (mon_position (mon r m)) as [p|] eqn:Hpos; [|congruence].
  exists v, a. split; [reflexivity|].
  rewrite <- Hc'. exact (handleMonitorUpdated_existing m r P st v a p Hp' Hs' Hv' Hg Hpos).
Qed.

End Reachable.

End RTExtraProofs.

(* ------------------------------------------------------------------ *)
(** ** Sequences of pointer events *)

Module PointerEventProofs.
Import StageCoords PointerInput.
Local Close Scope string_scope.
Local Open Scope list_scope.

Lemma onPointerDown_clicks pick project renderer io :
  mouseDown (onPointerDown pick project renderer io) = true /\
  exists l, clicks (onPointerDown pick project renderer io) = clicks io ++ l /\ List.length l <= 1 /\
    ((project = None \/ renderer = false) -> l = []) /\
    (forall p, project = Some p -> renderer = true -> proj_stage p <> None -> List.length l = 1).
Proof.
  unfold onPointerDown. destruct project as [p|]; cbn [mouseDown clicks mousePosition].
  - destruct renderer; cbn [negb].
    + destruct (mousePosition io) as [x y]. destruct (pick (targets p) x y) as [t|] eqn:Hp.
      * split; [reflexivity|]. exists [t]. repeat split; auto. intros [H|H]; discriminate.
      * destruct (proj_stage p) as [t|] eqn:Hs.
        -- split; [reflexivity|]. exists [t]. repeat split; auto. intros [H|H]; discriminate.
        -- split; [reflexivity|]. exists []. rewrite app_nil_r. repeat split; auto.
           intros q Hq _ Hn. injection Hq as <-. contradiction.
    + split; [reflexivity|]. exists []. rewrite app_nil_r. repeat split; auto. discriminate.
  - split; [reflexivity|]. exists []. rewrite app_nil_r. repeat split; auto. discriminate.
Qed.

(** Over any sequence of pointer events, each 'pointerdown' clicks at most
   one target and the clicks are only appended; without a project or
   renderer nothing is clicked, and with a stage each press clicks exactly
   one target. The button is down after a last press and up after a last
   release. *)
Theorem pointer_events_clicks pick b rect project renderer es io :
  let io' := fold_left (dispatchPointer pick b rect project renderer) es io in
  (exists l, clicks io' = clicks io ++ l /\
     List.length l <= List.length (filter is_down es) /\
     ((project = None \/ renderer = false) -> l = []) /\
     (forall p, project = Some p -> renderer = true -> proj_stage p <> None ->
        List.length l = List.length (filter is_down es))) /\
  (forall es1 es2, es = es1 ++ PDown :: es2 -> filter is_press es2 = [] -> mouseDown io' = true) /\
  (forall es1 es2, es = es1 ++ PUp :: es2 -> filter is_press es2 = [] -> mouseDown io' = false) /\
  (filter is_press es = [] -> mouseDown io' = mouseDown io).
Proof.
  intros io'. unfold io'. clear io'.
  assert (Hmv : forall io es2, filter is_press es2 = [] ->
            mouseDown (fold_left (dispatchPointer pick b rect project renderer) es2 io) = mouseDown io).
  { intros io0 es2. revert io0. induction es2 as [|e es2 IH]; intros io0 H; [reflexivity|].
    destruct e as [cx cy| |]; try discriminate. simpl in H |- *. rewrite IH by exact H.
    unfold onPointerMove. destruct (stageCoordsFromPointerEvent b rect cx cy). reflexivity. }
  split; [|split; [|split]].
  - revert io. induction es as [|e es IH]; intros io.
    + exists []. rewrite app_nil_r. repeat split; auto.
    + simpl. destruct (IH (dispatchPointer pick b rect project renderer io e)) as (l & H1 & H2 & H3 & H4).
      destruct e as [cx cy| |]; cbn [dispatchPointer is_down] in *.
      * exists l. unfold onPointerMove in H1 |- *. destruct (stageCoordsFromPointerEvent b rect cx cy).
        cbn [clicks] in H1. repeat split; auto.
      * destruct (onPointerDown_clicks pick project renderer io) as (_ & l0 & E0 & L0 & N0 & P0).
        exists (l0 ++ l). rewrite H1, E0, app_assoc. rewrite length_app.
        split; [reflexivity|]. cbn [List.length]. split; [lia|split].
        -- intros Hn. rewrite (N0 Hn), (H3 Hn). reflexivity.
        -- intros p Hp Hr Hs. rewrite (P0 p Hp Hr Hs), (H4 p Hp Hr Hs). reflexivity.
      * exists l. cbn [clicks onPointerUp] in H1. repeat split; auto.
  - intros es1 es2 -> H. rewrite fold_left_app. cbn [fold_left]. rewrite Hmv by exact H.
    apply onPointerDown_clicks.
  - intros es1 es2 -> H. rewrite fold_left_app. cbn [fold_left]. rewrite Hmv by exact H. reflexivity.
  - apply Hmv.
Qed.
End PointerEventProofs.

(* ------------------------------------------------------------------ *)
(** ** Other listeners of the inputs of anyAbortSignal *)

Module AnyAbortExtraProofs.
Import AnyAbort AnyAbortProofs.
Local Close Scope string_scope.
Local Open Scope list_scope.

Lemma others_app a b : others (a ++ b) = others a ++ others b.
Proof. unfold others. apply filter_app. Qed.

Lemma others_filter l : others (others l) = others l.
Proof.
  unfold others. induction l as [|x l IH]; [reflexivity|]. simpl.
  destruct x; simpl; [exact IH|f_equal; exact IH].
Qed.

Lemma keeps_refl w : keeps_others w w.
Proof. intros i. reflexivity. Qed.

Lemma keeps_trans a b c : keeps_others a b -> keeps_others b c -> keeps_others a c.
Proof. intros H1 H2 i. rewrite H2, H1. reflexivity. Qed.

Lemma keeps_add i w : keeps_others w (add_onabort i w).
Proof.
  intros j. unfold add_onabort, upd_store. cbn [store]. destruct (Nat.eqb j i); [|reflexivity].
  destruct existsb; [reflexivity|]. cbn [listeners]. rewrite others_app. simpl. apply app_nil_r.
Qed.

Lemma keeps_remove i w : keeps_others w (remove_onabort i w).
Proof.
  intros j. unfold remove_onabort, upd_store. cbn [store]. destruct (Nat.eqb j i); [|reflexivity].
  cbn [listeners]. apply others_filter.
Qed.

Lemma keeps_cleanup sigs w : keeps_others w (cleanup sigs w).
Proof.
  revert w. induction sigs as [|[i|] rest IH]; intros w; simpl; [apply keeps_refl| |apply IH].
  eapply keeps_trans; [apply keeps_remove|apply IH].
Qed.

Lemma keeps_onAbort sigs w : keeps_others w (onAbort sigs w).
Proof.
  unfold onAbort. eapply keeps_trans; [|apply keeps_cleanup].
  unfold controller_abort. destruct (d_aborted w); intros i; reflexivity.
Qed.

Lemma keeps_register rest sigs w : keeps_others w (register rest sigs w).
Proof.
  revert w. induction rest as [|[i|] rest IH]; intros w; simpl; [apply keeps_refl| |apply IH].
  destruct (aborted (store w i)); [apply keeps_onAbort|].
  eapply keeps_trans; [apply keeps_add|apply IH].
Qed.

Lemma keeps_fire sigs i w : keeps_others w (fire sigs i w).
Proof.
  unfold fire. destruct (aborted (store w i)); [apply keeps_refl|].
  assert (K : keeps_others w (upd_store w i (fun s => mkSignal true (listeners s)))).
  { intros j. unfold upd_store. cbn [store]. destruct (Nat.eqb j i); reflexivity. }
  destruct existsb; [|exact K]. eapply keeps_trans; [exact K|apply keeps_onAbort].
Qed.

(** Combining signals, and any later firing of the inputs, never adds or
   removes an input's listeners other than the combinator's own. *)
Theorem anyAbortSignal_keeps_other_listeners sigs st fs i :
  others (listeners (store (run sigs fs (anyAbortSignal sigs st)) i)) = others (listeners (st i)).
Proof.
  assert (R : forall fs0 w, keeps_others w (run sigs fs0 w)).
  { unfold run. induction fs0 as [|f fs0 IH]; intros w; simpl; [apply keeps_refl|].
    eapply keeps_trans; [apply keeps_fire|apply IH]. }
  assert (K : keeps_others (mkWorld st false 0) (run sigs fs (anyAbortSignal sigs st))).
  { eapply keeps_trans; [apply keeps_register|apply R]. }
  apply K.
Qed.
End AnyAbortExtraProofs.

(* ------------------------------------------------------------------ *)
(** ** renderer/shader.ts *)

Module ShaderProofs.
Import ShaderModel.
Local Open Scope string_scope.
Local Open Scope list_scope.

Lemma obj_get_map {V} k n (v : V) o :
  obj_get k (map (fun e => if String.eqb (fst e) n then (n, v) else e) o) =
  if String.eqb n k then (if existsb (fun e => String.eqb (fst e) n) o then Some v else None)
  else obj_get k o.
Proof.
  induction o as [|[k' v'] o IH]; simpl.
  - destruct (String.eqb n k); reflexivity.
  - destruct (String.eqb k' n) eqn:E1; simpl.
    + apply String.eqb_eq in E1. subst k'. rewrite IH, ?String.eqb_refl.
      destruct (String.eqb n k); reflexivity.
    + rewrite IH. destruct (String.eqb k' k) eqn:E2; destruct (String.eqb n k) eqn:E3; try reflexivity.
      apply String.eqb_eq in E2, E3. subst. rewrite String.eqb_refl in E1. discriminate.
Qed.

Lemma obj_get_app {V} k (o : list (string * V)) n v :
  obj_get k (o ++ [(n, v)]) = match obj_get k o with Some x => Some x | None => if String.eqb n k then Some v else None end.
Proof.
  induction o as [|[k' v'] o IH]; simpl; [reflexivity|].
  destruct (String.eqb k' k); [reflexivity|exact IH].
Qed.

Lemma obj_get_none_existsb {V} k (o : list (string * V)) :
  obj_get k o = None <-> existsb (fun e => String.eqb (fst e) k) o = false.
Proof.
  induction o as [|[k' v'] o IH]; simpl; [tauto|].
  destruct (String.eqb k' k); simpl; [split; discriminate|exact IH].
Qed.

(** Writing a key and reading it back. *)
Lemma obj_get_set {V} k n (v : V) o :
  obj_get k (obj_set n v o) = if String.eqb n k then Some v else obj_get k o.
Proof.
  unfold obj_set. destruct (existsb (fun e => String.eqb (fst e) n) o) eqn:E.
  - rewrite obj_get_map, E. reflexivity.
  - rewrite obj_get_app. destruct (String.eqb n k) eqn:Hn.
    + apply String.eqb_eq in Hn. subst n. apply obj_get_none_existsb in E. rewrite E. reflexivity.
    + destruct (obj_get k o); reflexivity.
Qed.

Lemma obj_set_nodup {V} n (v : V) o : NoDup (map fst o) -> NoDup (map fst (obj_set n v o)).
Proof.
  intros H. unfold obj_set. destruct (existsb (fun e => String.eqb (fst e) n) o) eqn:E.
  - rewrite map_map.
    replace (map (fun x => fst (if String.eqb (fst x) n then (n, v) else x)) o) with (map fst o); [exact H|].
    apply map_ext. intros [k' x]. simpl. destruct (String.eqb k' n) eqn:Ek; [|reflexivity].
    apply String.eqb_eq in Ek. simpl. exact Ek.
  - rewrite map_app. simpl. apply NoDup_app; [exact H|constructor; [intros []|constructor]|].
    intros x Hx [<-|[]]. apply in_map_iff in Hx. destruct Hx as [[k' x] [Hk Hin]]. simpl in Hk. subst k'.
    assert (existsb (fun e => String.eqb (fst e) n) o = true) as T
      by (apply existsb_exists; exists (n, x); split; [exact Hin|apply String.eqb_refl]).
    congruence.
Qed.

Lemma fold_obj_set {V} (f : nat -> string) (g : string -> V) is o :
  let r := fold_left (fun o i => obj_set (f i) (g (f i)) o) is o in
  NoDup (map fst o) -> NoDup (map fst r) /\
  forall k, obj_get k r = if existsb (fun i => String.eqb (f i) k) is then Some (g k) else obj_get k o.
Proof.
  revert o. induction is as [|i is IH]; intros o r Hn; [split; [exact Hn|reflexivity]|].
  simpl in r. destruct (IH (obj_set (f i) (g (f i)) o) (obj_set_nodup _ _ _ Hn)) as [H1 H2].
  split; [exact H1|]. intros k. unfold r. rewrite H2, obj_get_set. simpl.
  destruct (String.eqb (f i) k) eqn:E; simpl; [|reflexivity].
  apply String.eqb_eq in E. subst k. destruct existsb; reflexivity.
Qed.

Section WithGL.
Variable gl : GL.

Lemma attribLoop_spec p :
  NoDup (map fst (attribLoop gl p)) /\
  forall name, obj_get name (attribLoop gl p) =
    if existsb (fun i => String.eqb (gl_activeAttribName gl p i) name) (seq 0 (gl_activeAttribs gl p))
    then Some (gl_getAttribLocation gl p name) else None.
Proof.
  exact (fold_obj_set (gl_activeAttribName gl p) (gl_getAttribLocation gl p) _ [] (NoDup_nil _)).
Qed.

Lemma uniformLoop_spec p :
  NoDup (map fst (uniformLoop gl p)) /\
  forall name, obj_get name (uniformLoop gl p) =
    if existsb (fun i => String.eqb (gl_activeUniformName gl p i) name) (seq 0 (gl_activeUniforms gl p))
    then Some (gl_getUniformLocation gl p name) else None.
Proof.
  exact (fold_obj_set (gl_activeUniformName gl p) (gl_getUniformLocation gl p) _ [] (NoDup_nil _)).
Qed.

(** A shader is constructed only if both stages are created and compile, the
   program is created and links; the context then receives exactly the calls
   of the constructor, in order, with the version and precision header
   before each source. *)
Theorem newShader_success vertSource fragSource l r l' :
  newShader gl vertSource fragSource l = (inr r, l') ->
  exists vs fs,
    gl_createShader gl VERTEX_SHADER = Some vs /\
    gl_compileStatus gl vs (VERSION ++ PRECISION ++ vertSource) = true /\
    gl_createShader gl FRAGMENT_SHADER = Some fs /\
    gl_compileStatus gl fs (VERSION ++ PRECISION ++ fragSource) = true /\
    gl_createProgram gl = Some (program r) /\
    gl_linkStatus gl (program r) vs fs = true /\
    l' = l ++ [CreateShaderC VERTEX_SHADER; ShaderSourceC vs (VERSION ++ PRECISION ++ vertSource);
               CompileShaderC vs;
               CreateShaderC FRAGMENT_SHADER; ShaderSourceC fs (VERSION ++ PRECISION ++ fragSource);
               CompileShaderC fs;
               CreateProgramC; AttachShaderC (program r) vs; AttachShaderC (program r) fs;
               LinkProgramC (program r)].
Proof.
  unfold newShader, createShader, bind, call, ret, throw.
  destruct (gl_createShader gl VERTEX_SHADER) as [vs|] eqn:E1; [|discriminate].
  destruct (gl_compileStatus gl vs _) eqn:E2; [|discriminate].
  destruct (gl_createShader gl FRAGMENT_SHADER) as [fs|] eqn:E3; [|discriminate].
  destruct (gl_compileStatus gl fs _) eqn:E4; [|discriminate].
  destruct (gl_createProgram gl) as [p|] eqn:E5; [|discriminate].
  destruct (gl_linkStatus gl p vs fs) eqn:E6; [|discriminate].
  cbn [negb]. intros H. injection H as <- <-. cbn [program].
  exists vs, fs. repeat split; auto. rewrite <- !app_assoc. reflexivity.
Qed.
(** The locations of a constructed shader have one entry per name, for
   exactly the program's active attributes and uniforms, each holding the
   context's location for that name. *)
Theorem newShader_locations vertSource fragSource l r l' :
  newShader gl vertSource fragSource l = (inr r, l') ->
  NoDup (map fst (attribLocations r)) /\ NoDup (map fst (uniformLocations r)) /\
  (forall name, obj_get name (attribLocations r) =
     if existsb (fun i => String.eqb (gl_activeAttribName gl (program r) i) name)
                (seq 0 (gl_activeAttribs gl (program r)))
     then Some (gl_getAttribLocation gl (program r) name) else None) /\
  (forall name, obj_get name (uniformLocations r) =
     if existsb (fun i => String.eqb (gl_activeUniformName gl (program r) i) name)
                (seq 0 (gl_activeUniforms gl (program r)))
     then Some (gl_getUniformLocation gl (program r) name) else None).
Proof.
  unfold newShader, createShader, bind, call, ret, throw.
  destruct (gl_createShader gl VERTEX_SHADER) as [vs|]; [|discriminate].
  destruct (gl_compileStatus gl vs _); [|discriminate].
  destruct (gl_createShader gl FRAGMENT_SHADER) as [fs|]; [|discriminate].
  destruct (gl_compileStatus gl fs _); [|discriminate].
  destruct (gl_createProgram gl) as [p|]; [|discriminate].
  destruct (gl_linkStatus gl p vs fs); [|discriminate].
  cbn [negb]. intros H. injection H as <- _. cbn [program attribLocations uniformLocations].
  destruct (attribLoop_spec p) as [A1 A2]. destruct (uniformLoop_spec p) as [U1 U2]. auto.
Qed.

(** When the vertex shader does not compile, construction throws the compile
   error with the shader's info log, before the fragment shader or the
   program is created. *)
Theorem newShader_vertex_compile_error vertSource fragSource l vs :
  gl_createShader gl VERTEX_SHADER = Some vs ->
  gl_compileStatus gl vs (VERSION ++ PRECISION ++ vertSource) = false ->
  newShader gl vertSource fragSource l =
  (inl (("Could not compile WebGL program. " ++ nl ++ gl_getShaderInfoLog gl vs)%string),
   l ++ [CreateShaderC VERTEX_SHADER; ShaderSourceC vs (VERSION ++ PRECISION ++ vertSource);
         CompileShaderC vs]).
Proof.
  intros E1 E2. unfold newShader, createShader, bind, call, ret, throw.
  rewrite E1, E2. rewrite <- !app_assoc. reflexivity.
Qed.
End WithGL.
End ShaderProofs.

(* ------------------------------------------------------------------ *)
(** ** Instances of the further properties *)

Module ExtraWitnesses.
Import StageCoords PointerInput RT RTExtra Scenarios ShaderModel ShaderScenarios.
Import PointerProofs RTExtraProofs ShaderProofs.
Local Open Scope string_scope.
Local Open Scope list_scope.

Lemma pointerMove_within_stage_bounds_witness :
  ((0 < r_width (mkDOMRect 0 0 480 360))%Q /\ (0 < r_height (mkDOMRect 0 0 480 360))%Q) /\
  let io' := onPointerMove stageBounds (mkDOMRect 0 0 480 360) 100 50 (mkIO (Fin 0, Fin 0) false []) in
  in_range (-240) 240 (fst (mousePosition io')) /\ in_range (-180) 180 (snd (mousePosition io')) /\
  mouseDown io' = false /\ clicks io' = [].
Proof.
  split; [split; vm_compute; reflexivity|].
  apply (pointerMove_within_stage_bounds (mkDOMRect 0 0 480 360) 100 50 (mkIO (Fin 0, Fin 0) false []));
    vm_compute; reflexivity.
Defined.

Lemma stageCoords_monotone_witness :
  ((0 < r_width (mkDOMRect 0 0 480 360))%Q /\ (0 < r_height (mkDOMRect 0 0 480 360))%Q /\
   (10 <= 30)%Q /\ (20 <= 20)%Q) /\
  match stageCoordsFromPointerEvent stageBounds (mkDOMRect 0 0 480 360) 10 20,
        stageCoordsFromPointerEvent stageBounds (mkDOMRect 0 0 480 360) 30 20 with
  | (Fin x1, Fin y1), (Fin x2, Fin y2) => (x1 <= x2)%Q /\ (y2 <= y1)%Q
  | _, _ => False
  end.
Proof.
  split; [repeat split; vm_compute; first [reflexivity|discriminate]|].
  apply (stageCoords_monotone (mkDOMRect 0 0 480 360) 10 20 30 20);
    vm_compute; first [reflexivity|discriminate].
Defined.

Lemma stageCoords_unit_scale_witness :
  ((0 <= 100 <= 480)%Z /\ (0 <= 50 <= 360)%Z) /\
  let '(x, y) := stageCoordsFromPointerEvent stageBounds (mkDOMRect 8 16 480 360)
                   (8 + inject_Z 100) (16 + inject_Z 50) in
  fin_eq x (inject_Z (100 - 240)) /\ fin_eq y (inject_Z (180 - 50)).
Proof.
  split; [split; lia|].
  apply (stageCoords_unit_scale 8 16 100 50); lia.
Defined.

Lemma stageCoords_clamped_outside_witness :
  ((0 < r_width (mkDOMRect 0 0 480 360))%Q /\ (0 < r_height (mkDOMRect 0 0 480 360))%Q) /\
  let '(x, y) := stageCoordsFromPointerEvent stageBounds (mkDOMRect 0 0 480 360) (-5) 400 in
  ((-5 <= r_left (mkDOMRect 0 0 480 360))%Q -> fin_eq x (-240)) /\
  ((r_left (mkDOMRect 0 0 480 360) + r_width (mkDOMRect 0 0 480 360) <= -5)%Q -> fin_eq x 240) /\
  ((400 <= r_top (mkDOMRect 0 0 480 360))%Q -> fin_eq y 180) /\
  ((r_top (mkDOMRect 0 0 480 360) + r_height (mkDOMRect 0 0 480 360) <= 400)%Q -> fin_eq y (-180)).
Proof.
  split; [split; vm_compute; reflexivity|].
  apply (stageCoords_clamped_outside (mkDOMRect 0 0 480 360) (-5) 400); vm_compute; reflexivity.
Defined.

Lemma stepMonitors_launches_visible_witness :
  (project (run_ex ops_bound) = Some P1 /\ proj_has_stage P1 = true) /\
  stepMonitors (run_ex ops_bound) =
  Normal (with_log (log (run_ex ops_bound) ++
                    map Launch (filter (fun m => mon_visible (mon (run_ex ops_bound) m))
                                       (monitors (run_ex ops_bound) (proj_id P1))))
                   (run_ex ops_bound)).
Proof.
  split; [split; vm_compute; reflexivity|].
  apply (stepMonitors_launches_visible (run_ex ops_bound) P1); vm_compute; reflexivity.
Defined.

Lemma start_without_project_keeps_loop_witness :
  (project init = None /\ steppingInterval init = None) /\
  exists h s',
    start init = Thrown "Cannot step without a project" s' /\
    steppingInterval s' = Some h /\ timers s' = timers init ++ [h] /\
    start s' = Normal s' /\ step s' = Thrown "Cannot step without a project" s' /\
    steppingInterval (stop s') = None /\ ~ In h (timers (stop s')).
Proof.
  split; [split; reflexivity|].
  apply (start_without_project_keeps_loop init); reflexivity.
Defined.

Lemma keysDown_is_a_set_witness :
  domToScratchKey_a "a" = Some "a" /\
  In "a" (keysDown (onKeydown domToScratchKey_a "a" (run_ex [OpAttachStage (Some 7)]))) /\
  (NoDup (keysDown (run_ex [OpAttachStage (Some 7)])) ->
   NoDup (keysDown (onKeydown domToScratchKey_a "a" (run_ex [OpAttachStage (Some 7)])))) /\
  keysDown (onKeydown domToScratchKey_a "a" (onKeydown domToScratchKey_a "a" (run_ex [OpAttachStage (Some 7)]))) =
  keysDown (onKeydown domToScratchKey_a "a" (run_ex [OpAttachStage (Some 7)])) /\
  ~ In "a" (keysDown (onKeyup domToScratchKey_a "a" (run_ex [OpAttachStage (Some 7)]))) /\
  (NoDup (keysDown (run_ex [OpAttachStage (Some 7)])) ->
   NoDup (keysDown (onKeyup domToScratchKey_a "a" (run_ex [OpAttachStage (Some 7)])))).
Proof.
  split; [reflexivity|].
  apply (keysDown_is_a_set domToScratchKey_a "a" "a" (run_ex [OpAttachStage (Some 7)])); reflexivity.
Defined.

Lemma detachStage_keeps_project_and_views_witness :
  unsetPreviousStage (run_ex ops_bound) = Some (7, 0) /\
  let s := run_ex ops_bound in
  let d := attachStage None s in
  stage d = None /\ unsetPreviousStage d = None /\ In 0 (aborted d) /\
  project d = project s /\ unregisterPreviousProject d = unregisterPreviousProject s /\
  monitorViews d = monitorViews s /\ steppingInterval d = steppingInterval s /\
  (forall l, In l (listeners s) ->
     match l with SliderChangeL _ _ _ => True | _ => In l (listeners d) end).
Proof.
  split; [vm_compute; reflexivity|].
  apply (detachStage_keeps_project_and_views domToScratchKey_a view_bounds_id view_layout_count
           ops_bound 7 0); vm_compute; reflexivity.
Defined.

Lemma handleMonitorUpdated_again_only_refreshes_witness :
  (project (run_ex ops_bound) = Some P1 /\ stage (run_ex ops_bound) = Some 7 /\
   mon_visible (mon (run_ex ops_bound) 5) = true) /\
  let r := handleMonitorUpdated view_bounds_id view_layout_count 5 (run_ex ops_bound) in
  exists v a, map_get 5 (monitorViews r) = Some (v, a) /\
    handleMonitorUpdated view_bounds_id view_layout_count 5 r =
    if mon_color (mon (run_ex ops_bound) 5) then emit (SetColor v) (emit (UpdateView v 5) r)
    else emit (UpdateView v 5) r.
Proof.
  split; [repeat split; vm_compute; reflexivity|].
  apply (handleMonitorUpdated_again_only_refreshes view_bounds_id view_layout_count 5
           (run_ex ops_bound) P1 7); vm_compute; reflexivity.
Defined.

Lemma newShader_success_witness :
  exists r l',
    newShader gl_ok vert_src frag_src [] = (inr r, l') /\
    exists vs fs,
      gl_createShader gl_ok VERTEX_SHADER = Some vs /\
      gl_compileStatus gl_ok vs (VERSION ++ PRECISION ++ vert_src)%string = true /\
      gl_createShader gl_ok FRAGMENT_SHADER = Some fs /\
      gl_compileStatus gl_ok fs (VERSION ++ PRECISION ++ frag_src)%string = true /\
      gl_createProgram gl_ok = Some (program r) /\
      gl_linkStatus gl_ok (program r) vs fs = true /\
      l' = [CreateShaderC VERTEX_SHADER; ShaderSourceC vs (VERSION ++ PRECISION ++ vert_src)%string;
            CompileShaderC vs;
            CreateShaderC FRAGMENT_SHADER; ShaderSourceC fs (VERSION ++ PRECISION ++ frag_src)%string;
            CompileShaderC fs;
            CreateProgramC; AttachShaderC (program r) vs; AttachShaderC (program r) fs;
            LinkProgramC (program r)].
Proof.
  eexists; eexists. split; [vm_compute; reflexivity|].
  apply (newShader_success gl_ok vert_src frag_src []). vm_compute. reflexivity.
Defined.

Lemma newShader_locations_witness :
  exists r l',
    newShader gl_ok vert_src frag_src [] = (inr r, l') /\
    NoDup (map fst (attribLocations r)) /\ NoDup (map fst (uniformLocations r)) /\
    (forall name, obj_get name (attribLocations r) =
       if existsb (fun i => String.eqb (gl_activeAttribName gl_ok (program r) i) name)
                  (seq 0 (gl_activeAttribs gl_ok (program r)))
       then Some (gl_getAttribLocation gl_ok (program r) name) else None) /\
    (forall name, obj_get name (uniformLocations r) =
       if existsb (fun i => String.eqb (gl_activeUniformName gl_ok (program r) i) name)
                  (seq 0 (gl_activeUniforms gl_ok (program r)))
       then Some (gl_getUniformLocation gl_ok (program r) name) else None).
Proof.
  eexists; eexists. split; [vm_compute; reflexivity|].
  eapply (newShader_locations gl_ok vert_src frag_src []). vm_compute. reflexivity.
Defined.

Lemma newShader_vertex_compile_error_witness :
  (gl_createShader gl_bad_vertex VERTEX_SHADER = Some 1 /\
   gl_compileStatus gl_bad_vertex 1 (VERSION ++ PRECISION ++ vert_src)%string = false) /\
  newShader gl_bad_vertex vert_src frag_src [] =
  (inl ("Could not compile WebGL program. " ++ nl ++ gl_getShaderInfoLog gl_bad_vertex 1)%string,
   [] ++ [CreateShaderC VERTEX_SHADER; ShaderSourceC 1 (VERSION ++ PRECISION ++ vert_src)%string;
          CompileShaderC 1]).
Proof.
  split; [split; vm_compute; reflexivity|].
  apply (newShader_vertex_compile_error gl_bad_vertex vert_src frag_src [] 1); vm_compute; reflexivity.
Defined.

End ExtraWitnesses.
